(** * Outdoor job scraper: a shallow embedding of [outdoor_job_scraper.py]

    The development follows the Python module top to bottom: the [JobListing]
    record, the fetcher [make_request] with its bounded retry loop, the
    per-site extractors, the aggregator [run_scraping], the persister
    [save_to_json] and the digest builder of [GmailSender].

    Python [str] values are modelled by [string]: the bytes of the value in
    UTF-8, a surrogate code point being encoded like any other code point
    (Python's [surrogatepass]), so that every [str] has its [string].
    Operations that count characters ([len], slices) count code points, that
    is, the bytes that do not continue a character.  Effects (sleeping, requests,
    logging, the file written by the persister) are threaded through an
    explicit [World]; exceptions are the [Raise] results of the monad [M]. *)

From Stdlib Require Import String Ascii List ZArith Lia Bool Arith.
From Stdlib Require Import DecimalString Permutation.
Import ListNotations.
Open Scope string_scope.
Open Scope list_scope.

Set Implicit Arguments.

(* ================================================================= *)
(** ** Data model *)

(** [@dataclass class JobListing] (source lines 45-55). *)
Record JobListing : Type := mkJobListing {
  title : string;
  company : string;
  location : string;
  description : string;
  url : string;
  date_posted : option string;
  experience_level : option string;
  source : string
}.

(* ================================================================= *)
(** ** Exceptions, results and the world *)

(** The exception classes the module distinguishes.  All of them derive
    from [Exception]; only [RequestException] (with its subclass
    [HTTPError]) is caught by the handler of [make_request]. *)
Inductive exn : Type :=
| RequestException
| HTTPError
| KeyError
| ValueError
| OSError
| UnicodeEncodeError
| RuntimeError.

Definition is_RequestException (e : exn) : bool :=
  match e with
  | RequestException | HTTPError => true
  | _ => false
  end.

Inductive result (A : Type) : Type :=
| Return (a : A)
| Raise (e : exn).
Arguments Return {A} a.
Arguments Raise {A} e.

Inductive Level : Type := INFO | WARNING | ERROR.

(** Which call site put the process to sleep: [delay_request] (the
    politeness delay before each request) or the retry handler. *)
Inductive SleepSite : Type := Politeness | Backoff.

Inductive Event : Type :=
| EvSleep (site : SleepSite) (seconds : Z)
| EvGet (address : string)
| EvLog (lvl : Level)
| EvWrite (filename : string).

Section WithTag.

(** The type of parsed documents and of their elements (a BeautifulSoup
    [Tag]). *)
Variable tag : Type.

(** What [session.get] hands back.  [content] is the body as the
    ['html.parser'] tree builder reads it: parsing is a function of the
    bytes, so the response carries the parsed body directly. *)
Record Response : Type := mkResponse {
  status_code : Z;
  content : tag
}.

(** The world outside the process.  [web address n] is what the [n]-th
    request ever issued gets when it asks for [address]; [now] is the
    wall clock formatted by [strftime('%Y%m%d_%H%M%S')]; [writable] tells
    whether [open(name, 'w')] succeeds. *)
Record World : Type := mkWorld {
  web : string -> nat -> result Response;
  requests : nat;
  now : string;
  writable : string -> bool;
  files : list (string * string);
  trace : list Event
}.

Definition M (A : Type) : Type := World -> result A * World.

Definition ret {A} (a : A) : M A := fun w => (Return a, w).

Definition raise {A} (e : exn) : M A := fun w => (Raise e, w).

Definition bind {A B} (m : M A) (k : A -> M B) : M B :=
  fun w =>
    match m w with
    | (Return a, w1) => k a w1
    | (Raise e, w1) => (Raise e, w1)
    end.

(** [try: body except <class>: handler].  [handler e] is [None] when the
    except clause does not match the class of [e], which then propagates. *)
Definition try_except {A} (body : M A) (handler : exn -> option (M A)) : M A :=
  fun w =>
    match body w with
    | (Return a, w1) => (Return a, w1)
    | (Raise e, w1) =>
        match handler e with
        | Some h => h w1
        | None => (Raise e, w1)
        end
    end.

Definition emit (ev : Event) : M unit :=
  fun w => (Return tt,
            mkWorld (web w) (requests w) (now w) (writable w) (files w)
                    (trace w ++ [ev])).

End WithTag.

Arguments mkResponse {tag} _ _.
Arguments ret {tag A} a.
Arguments raise {tag A} e.
Arguments emit {tag} ev.

Notation "x <- m ;; k" := (bind m (fun x => k))
  (at level 61, m at next level, right associativity).
Notation "m ;;; k" := (bind m (fun _ => k))
  (at level 61, right associativity).

(* ================================================================= *)
(** ** String helpers (Python built-ins on [str]) *)

(** A byte that continues a character of more than one byte
    ([10xxxxxx]). *)
Definition is_continuation (c : ascii) : bool :=
  let n := nat_of_ascii c in ((128 <=? n)%nat && (n <? 192)%nat)%bool.

(** [len(s)]: the number of code points. *)
Fixpoint py_len (s : string) : nat :=
  match s with
  | EmptyString => 0
  | String c r => if is_continuation c then py_len r else S (py_len r)
  end.

(** The bytes of a surrogate (U+D800 to U+DFFF) are [ED], then a byte from
    [A0] to [BF], then a third one.  [after_ed] tells whether the byte
    before [s] was [ED]. *)
Fixpoint surrogate_from (after_ed : bool) (s : string) : bool :=
  match s with
  | EmptyString => false
  | String c r =>
      let n := nat_of_ascii c in
      (after_ed && (160 <=? n)%nat && (n <? 192)%nat)%bool
      || surrogate_from (n =? 237)%nat r
  end.

(** [s] holds a surrogate code point. *)
Definition has_surrogate (s : string) : bool := surrogate_from false s.

(** [s.encode('utf-8')] succeeds: the codec refuses surrogates with a
    [UnicodeEncodeError] and nothing else. *)
Definition encodable (s : string) : bool := negb (has_surrogate s).

(** [needle in haystack]. *)
Fixpoint contains (needle haystack : string) : bool :=
  if prefix needle haystack then true
  else match haystack with
       | EmptyString => false
       | String _ r => contains needle r
       end.

(** [s[:n]]: the first [n] code points, each with the bytes that continue
    it. *)
Fixpoint py_slice_to (n : nat) (s : string) : string :=
  match s with
  | EmptyString => EmptyString
  | String c r =>
      if is_continuation c then String c (py_slice_to n r)
      else match n with
           | O => EmptyString
           | S n' => String c (py_slice_to n' r)
           end
  end.

(** [str(n)] for a length. *)
Definition str_of_nat (n : nat) : string :=
  NilEmpty.string_of_uint (Nat.to_uint n).

(** [a or b] on values whose falsy case is [None]. *)
Definition py_or {A} (a b : option A) : option A :=
  match a with
  | Some x => Some x
  | None => b
  end.

(** [a or b] on lists: the empty list is falsy. *)
Definition py_or_list {A} (a b : list A) : list A :=
  match a with
  | [] => b
  | _ :: _ => a
  end.

(* ================================================================= *)
(** ** The libraries the module calls *)

(** [re.compile(r'a|b|c', re.I)]: the alternatives of the pattern. *)
Record Regex : Type := mkRegex {
  alternatives : list string;
  ignore_case : bool
}.

(** The keyword filters of [find] and [find_all]. *)
Inductive AttrFilter : Type :=
| AnyAttrs
| ClassIs (cls : string)                 (* class_='...' *)
| AttrPresent (key : string)             (* {'key': True} *)
| AttrSearch (key : string) (re : Regex) (* key=re.compile(...) *).

Record Selector : Type := mkSelector {
  sel_name : string;
  sel_attrs : AttrFilter
}.

(** BeautifulSoup's [Tag] interface, [urllib.parse.urljoin] and the
    case table of [str.lower], as far as the module uses them. *)
Class Libraries (tag : Type) : Type := {
  (** [s.lower()]: the lowering of the Unicode case table, which the module
      applies to scraped titles ([U+212A], the Kelvin sign, lowers to [k]). *)
  lower : string -> string;
  (** [t.find_all(name, ...)], in document order. *)
  find_all : tag -> Selector -> list tag;
  (** [t.find(name, ...)]. *)
  find : tag -> Selector -> option tag;
  (** [t.get_text(strip=True)]. *)
  get_text : tag -> string;
  (** [t[key]]; [None] is the [KeyError] of a missing attribute. *)
  get_item : tag -> string -> option string;
  (** [urljoin(base, ref)]; a malformed reference raises. *)
  urljoin : string -> string -> result string
}.

(* ================================================================= *)
(** ** The fetcher *)

Section Fetcher.

Context {tag : Type} {L : Libraries tag}.

(** [time.sleep(seconds)], recorded with its call site. *)
Definition time_sleep (site : SleepSite) (seconds : Z) : M tag unit :=
  emit (EvSleep site seconds).

Definition log (lvl : Level) : M tag unit := emit (EvLog lvl).

(** [delay_request(self, seconds=1.0)] (lines 77-79). *)
Definition delay_request (seconds : Z) : M tag unit :=
  time_sleep Politeness seconds.

(** [self.session.get(url, timeout=10)]: the next answer of the web. *)
Definition session_get (address : string) (timeout : Z) : M tag (Response tag) :=
  fun w =>
    let w1 := mkWorld (web w) (S (requests w)) (now w) (writable w) (files w)
                      (trace w ++ [EvGet address]) in
    (web w address (requests w), w1).

(** [response.raise_for_status()]: client and server errors raise. *)
Definition http_error (r : Response tag) : bool :=
  (400 <=? status_code r)%Z && (status_code r <? 600)%Z.

Definition raise_for_status (r : Response tag) : M tag unit :=
  if http_error r then raise HTTPError else ret tt.

(** How one turn of a [for] loop ends: with a [return] out of the
    function, or by falling to the next turn. *)
Inductive LoopStep (A : Type) : Type :=
| ReturnFromLoop (a : A)
| NextTurn.
Arguments ReturnFromLoop {A} a.
Arguments NextTurn {A}.

(** One turn of the loop of [make_request] (lines 84-95). *)
Definition make_request_turn (address : string) (max_retries attempt : Z)
  : M tag (LoopStep (option tag)) :=
  try_except
    (delay_request 1 ;;;
     response <- session_get address 10 ;;
     raise_for_status response ;;;
     ret (ReturnFromLoop (Some (content response))))
    (fun e =>
       if is_RequestException e then
         Some (log WARNING ;;;
               if (attempt <? max_retries - 1)%Z then
                 time_sleep Backoff (2 ^ attempt) ;;;
                 ret NextTurn
               else
                 log ERROR ;;;
                 ret (ReturnFromLoop None))
       else None).

(** [for attempt in range(max_retries)] from [attempt] on, [turns] turns
    being left; the [return None] of line 96 ends an exhausted range. *)
Fixpoint make_request_loop (address : string) (max_retries attempt : Z)
  (turns : nat) : M tag (option tag) :=
  match turns with
  | O => ret None
  | S turns' =>
      step <- make_request_turn address max_retries attempt ;;
      match step with
      | ReturnFromLoop r => ret r
      | NextTurn =>
          make_request_loop address max_retries (attempt + 1) turns'
      end
  end.

(** [make_request(self, url, max_retries=3)] (lines 81-96). *)
Definition make_request (address : string) (max_retries : Z)
  : M tag (option tag) :=
  make_request_loop address max_retries 0 (Z.to_nat max_retries).

(** An attempt fails with a request error when [session.get] raises a
    [RequestException] or the status is one [raise_for_status] rejects. *)
Definition request_fails (w : World tag) (address : string) (n : nat) : Prop :=
  match web w address n with
  | Raise e => is_RequestException e = true
  | Return r => http_error r = true
  end.

(** A request crashes when [session.get] raises something that is no
    [RequestException]: the handler of [make_request] lets it through. *)
Definition request_crashes (w : World tag) (address : string) (n : nat) : Prop :=
  match web w address n with
  | Raise e => is_RequestException e = false
  | Return _ => False
  end.

End Fetcher.

(** The events [turns] failed attempts leave behind, from [attempt] on. *)
Fixpoint failed_attempts_trace (address : string) (max_retries attempt : Z)
  (turns : nat) : list Event :=
  match turns with
  | O => []
  | S turns' =>
      [EvSleep Politeness 1; EvGet address; EvLog WARNING] ++
      (if (attempt <? max_retries - 1)%Z then
         EvSleep Backoff (2 ^ attempt) ::
         failed_attempts_trace address max_retries (attempt + 1) turns'
       else [EvLog ERROR])
  end.

(** The seconds slept by the retry handler, in order. *)
Fixpoint backoff_waits (evs : list Event) : list Z :=
  match evs with
  | [] => []
  | EvSleep Backoff seconds :: evs' => seconds :: backoff_waits evs'
  | _ :: evs' => backoff_waits evs'
  end.

(* ================================================================= *)
(** ** The extractors *)

Section Extractors.

Context {tag : Type} {L : Libraries tag}.

(** The address [scrape_indeed] builds from [base_url] and [params]
    (lines 104-113): the pairs joined by [&], values as written. *)
Definition indeed_base_url : string := "https://www.indeed.com/jobs".

Definition indeed_params : list (string * string) :=
  [("q", "park ranger OR outdoor OR nature OR environmental OR conservation OR wildlife OR naturalist OR recreation coordinator");
   ("l", "Tampa, FL");
   ("radius", "25");
   ("jt", "fulltime");
   ("sort", "date")].

(** ['&'.join(parts)]. *)
Fixpoint join_amp (parts : list string) : string :=
  match parts with
  | [] => EmptyString
  | [p] => p
  | p :: rest => (p ++ "&" ++ join_amp rest)%string
  end.

Definition indeed_search_url : string :=
  (indeed_base_url ++ "?" ++
   join_amp (map (fun kv => fst kv ++ "=" ++ snd kv) indeed_params))%string.

Definition sel_class (name cls : string) : Selector :=
  mkSelector name (ClassIs cls).

Definition sel_has (name key : string) : Selector :=
  mkSelector name (AttrPresent key).

Definition sel_tag (name : string) : Selector := mkSelector name AnyAttrs.

(** [card.find(a) or card.find(b)]. *)
Definition find_either (card : tag) (primary fallback : Selector) : option tag :=
  py_or (find card primary) (find card fallback).

(** [elem.get_text(strip=True) if elem else placeholder]. *)
Definition text_or (elem : option tag) (placeholder : string) : string :=
  match elem with
  | Some e => get_text e
  | None => placeholder
  end.

(** The expression of line 143: the [href] of the anchor inside the title
    element joined to the base, or the empty string without an anchor. *)
Definition indeed_job_url (title_elem : tag) : result string :=
  match find title_elem (sel_tag "a") with
  | Some anchor =>
      match get_item anchor "href" with
      | Some href => urljoin indeed_base_url href
      | None => Raise KeyError
      end
  | None => Return EmptyString
  end.

(** Lines 131-132. *)
Definition indeed_company (card : tag) : string :=
  text_or (find_either card (sel_class "span" "companyName")
                            (sel_class "div" "company_location"))
          "Unknown Company".

(** Lines 135-136. *)
Definition indeed_location (card : tag) : string :=
  text_or (find_either card (sel_class "div" "companyLocation")
                            (sel_class "span" "location"))
          "Tampa Bay Area".

(** Lines 139-140. *)
Definition indeed_description (card : tag) : string :=
  match find_either card (sel_class "div" "job-snippet")
                         (sel_class "span" "summary") with
  | Some e => py_slice_to 200 (get_text e)
  | None => "No description available"
  end.

(** Lines 146-147. *)
Definition indeed_date_posted (card : tag) : option string :=
  option_map get_text
    (find_either card (sel_class "span" "date")
                      (sel_class "span" "postedDate")).

(** The body of the [try] of one job card (lines 123-158): [Return None]
    is the [continue] of a card without title, [Raise] an exception on its
    way to the handler of line 160. *)
Definition parse_indeed_card (card : tag) : result (option JobListing) :=
  match find_either card (sel_class "h2" "jobTitle") (sel_has "a" "data-jk") with
  | None => Return None
  | Some title_elem =>
      let title := get_text title_elem in
      let company := indeed_company card in
      let location := indeed_location card in
      let description := indeed_description card in
      match indeed_job_url title_elem with
      | Raise e => Raise e
      | Return job_url =>
          let date_posted := indeed_date_posted card in
          Return (Some (mkJobListing title company location description
                          job_url date_posted None "Indeed.com"))
      end
  end.

(** [for card in job_cards[:20]] with its per-card handler (lines
    121-162); [jobs] is the list built so far. *)
Fixpoint indeed_cards (cards : list tag) (jobs : list JobListing)
  : M tag (list JobListing) :=
  match cards with
  | [] => ret jobs
  | card :: rest =>
      match parse_indeed_card card with
      | Return None => indeed_cards rest jobs
      | Return (Some job) => indeed_cards rest (jobs ++ [job])
      | Raise _ => log WARNING ;;; indeed_cards rest jobs
      end
  end.

(** [scrape_indeed(self)] (lines 98-165). *)
Definition scrape_indeed : M tag (list JobListing) :=
  log INFO ;;;
  soup <- make_request indeed_search_url 3 ;;
  match soup with
  | None => log ERROR ;;; ret []
  | Some soup =>
      let job_cards :=
        py_or_list (find_all soup (sel_class "div" "job_seen_beacon"))
                   (find_all soup (sel_has "div" "data-jk")) in
      jobs <- indeed_cards (firstn 20 job_cards) [] ;;
      log INFO ;;;
      ret jobs
  end.

(** What differs between the five park-site methods (lines 195-328): the
    page, the keyword list of the relevance filter, and the constant fields
    of the records. *)
Record ParkSite : Type := mkParkSite {
  site_url : string;
  site_keywords : list string;
  site_company : string;
  site_location : string;
  site_description : string;
  site_source : string
}.

Definition county_keywords : list string :=
  ["park"; "recreation"; "outdoor"; "nature"; "environmental"].

Definition hillsborough : ParkSite :=
  mkParkSite
    "https://www.hillsboroughcounty.org/en/government/departments/human-resources"
    county_keywords
    "Hillsborough County" "Hillsborough County, FL"
    "County park and recreation position" "Hillsborough County Parks".

Definition pinellas : ParkSite :=
  mkParkSite
    "https://www.pinellas.gov/Government/Human-Resources"
    county_keywords
    "Pinellas County" "Pinellas County, FL"
    "County park and recreation position" "Pinellas County Parks".

Definition tampa : ParkSite :=
  mkParkSite
    "https://www.tampa.gov/careers"
    county_keywords
    "City of Tampa" "Tampa, FL"
    "City park and recreation position" "Tampa Parks & Recreation".

Definition stpete : ParkSite :=
  mkParkSite
    "https://www.stpete.org/government/city_departments/human_resources/employment_opportunities.php"
    county_keywords
    "City of St. Petersburg" "St. Petersburg, FL"
    "City park and recreation position" "St. Pete Parks & Recreation".

Definition fl_state_parks : ParkSite :=
  mkParkSite
    "https://www.floridastateparks.org/employment"
    ["park"; "ranger"; "recreation"; "outdoor"; "nature"; "environmental"]
    "Florida State Parks" "Tampa Bay Area, FL"
    "State park position" "Florida State Parks".

(** [href=re.compile(r'career|job|employment', re.I)]. *)
Definition job_link_selector : Selector :=
  mkSelector "a"
    (AttrSearch "href" (mkRegex ["career"; "job"; "employment"] true)).

(** [any(keyword in title.lower() for keyword in keywords)]. *)
Definition keyword_match (keywords : list string) (title : string) : bool :=
  existsb (fun keyword => contains keyword (lower title)) keywords.

Definition park_job (s : ParkSite) (title job_url : string) : JobListing :=
  mkJobListing title (site_company s) (site_location s) (site_description s)
               job_url None None (site_source s).

(** [urljoin(url, link['href'])]. *)
Definition link_url (s : ParkSite) (link : tag) : result string :=
  match get_item link "href" with
  | Some href => urljoin (site_url s) href
  | None => Raise KeyError
  end.

(** [for link in job_links[:10]] of a park-site method.  The loop has no
    handler of its own: an exception leaves it, and the records appended
    to [jobs] before stay in the list the method returns. *)
Fixpoint park_links (s : ParkSite) (links : list tag) (jobs : list JobListing)
  : list JobListing * option exn :=
  match links with
  | [] => (jobs, None)
  | link :: rest =>
      let title := get_text link in
      if keyword_match (site_keywords s) title then
        match link_url s link with
        | Raise e => (jobs, Some e)
        | Return job_url =>
            park_links s rest (jobs ++ [park_job s title job_url])
        end
      else park_links s rest jobs
  end.

(** The records of the links that pass the relevance filter, in order. *)
Definition accepted_links (s : ParkSite) (links : list tag) : list JobListing :=
  flat_map
    (fun link =>
       if keyword_match (site_keywords s) (get_text link) then
         match link_url s link with
         | Return job_url => [park_job s (get_text link) job_url]
         | Raise _ => []
         end
       else [])
    links.

(** One park-site method: the whole body sits in [try ... except
    Exception], the handler logs a warning, and [jobs] is returned either
    way. *)
Definition scrape_park_site (s : ParkSite) : M tag (list JobListing) :=
  fun w =>
    match make_request (site_url s) 3 w with
    | (Raise _, w1) => (log WARNING ;;; ret []) w1
    | (Return None, w1) => (Return [], w1)
    | (Return (Some soup), w1) =>
        let job_links := find_all soup job_link_selector in
        match park_links s (firstn 10 job_links) [] with
        | (jobs, None) => (Return jobs, w1)
        | (jobs, Some _) => (log WARNING ;;; ret jobs) w1
        end
    end.

Definition _scrape_hillsborough_parks : M tag (list JobListing) :=
  scrape_park_site hillsborough.

Definition _scrape_pinellas_parks : M tag (list JobListing) :=
  scrape_park_site pinellas.

Definition _scrape_tampa_parks : M tag (list JobListing) :=
  scrape_park_site tampa.

Definition _scrape_stpete_parks : M tag (list JobListing) :=
  scrape_park_site stpete.

Definition _scrape_fl_state_parks : M tag (list JobListing) :=
  scrape_park_site fl_state_parks.

(** [scrape_county_parks(self)] (lines 167-193). *)
Definition scrape_county_parks : M tag (list JobListing) :=
  log INFO ;;;
  let jobs := [] in
  hillsborough_jobs <- _scrape_hillsborough_parks ;;
  let jobs := jobs ++ hillsborough_jobs in
  pinellas_jobs <- _scrape_pinellas_parks ;;
  let jobs := jobs ++ pinellas_jobs in
  tampa_jobs <- _scrape_tampa_parks ;;
  let jobs := jobs ++ tampa_jobs in
  stpete_jobs <- _scrape_stpete_parks ;;
  let jobs := jobs ++ stpete_jobs in
  state_parks_jobs <- _scrape_fl_state_parks ;;
  let jobs := jobs ++ state_parks_jobs in
  log INFO ;;;
  ret jobs.

End Extractors.

(* ================================================================= *)
(** ** The persisted format: [json.dump(..., indent=2, ensure_ascii=False)] *)

Definition dquote : ascii := "034"%char.
Definition backslash : ascii := "092"%char.
Definition newline : ascii := "010"%char.

Definition dq : string := String dquote EmptyString.

(** [dataclasses.asdict(job)]: the fields in declaration order. *)
Definition asdict (job : JobListing) : list (string * option string) :=
  [("title", Some (title job));
   ("company", Some (company job));
   ("location", Some (location job));
   ("description", Some (description job));
   ("url", Some (url job));
   ("date_posted", date_posted job);
   ("experience_level", experience_level job);
   ("source", Some (source job))].

Definition hex_digit (n : nat) : ascii :=
  if (n <? 10)%nat then ascii_of_nat (48 + n) else ascii_of_nat (87 + n).

(** ['\\u{0:04x}'.format(n)]. *)
Definition unicode_escape (n : nat) : string :=
  String backslash (String "u"
    (String (hex_digit ((n / 4096) mod 16))
      (String (hex_digit ((n / 256) mod 16))
        (String (hex_digit ((n / 16) mod 16))
          (String (hex_digit (n mod 16)) EmptyString))))).

(** [ESCAPE_DCT] of [json.encoder]: the quote, the backslash and the
    control characters are escaped; every other character is written as it
    is ([ensure_ascii=False]). *)
Definition escape_char (c : ascii) : string :=
  let n := nat_of_ascii c in
  if (n =? 34)%nat then String backslash (String dquote EmptyString)
  else if (n =? 92)%nat then String backslash (String backslash EmptyString)
  else if (n =? 10)%nat then String backslash (String "n" EmptyString)
  else if (n =? 13)%nat then String backslash (String "r" EmptyString)
  else if (n =? 9)%nat then String backslash (String "t" EmptyString)
  else if (n =? 8)%nat then String backslash (String "b" EmptyString)
  else if (n =? 12)%nat then String backslash (String "f" EmptyString)
  else if (n <? 32)%nat then unicode_escape n
  else String c EmptyString.

Fixpoint escape (s : string) : string :=
  match s with
  | EmptyString => EmptyString
  | String c r => (escape_char c ++ escape r)%string
  end.

(** [encode_basestring(s)]. *)
Definition encode_basestring (s : string) : string :=
  (dq ++ escape s ++ dq)%string.

Definition encode_value (v : option string) : string :=
  match v with
  | None => "null"
  | Some s => encode_basestring s
  end.

Fixpoint spaces (n : nat) : string :=
  match n with
  | O => EmptyString
  | S n' => String " " (spaces n')
  end.

(** ['\n' + indent * level] with [indent = 2]. *)
Definition newline_indent (level : nat) : string :=
  String newline (spaces (2 * level)).

(** [separator.join(chunks)]. *)
Fixpoint join (separator : string) (chunks : list string) : string :=
  match chunks with
  | [] => EmptyString
  | [c] => c
  | c :: rest => (c ++ separator ++ join separator rest)%string
  end.

Definition encode_member (kv : string * option string) : string :=
  (encode_basestring (fst kv) ++ ": " ++ encode_value (snd kv))%string.

(** [_iterencode_dict] at nesting [level], on a dict of strings and
    [None]s. *)
Definition encode_dict (level : nat) (d : list (string * option string)) : string :=
  match d with
  | [] => "{}"
  | _ :: _ =>
      ("{" ++ newline_indent (S level) ++
       join ("," ++ newline_indent (S level)) (map encode_member d) ++
       newline_indent level ++ "}")%string
  end.

(** [_iterencode_list] at nesting [level], on a list of such dicts. *)
Definition encode_list (level : nat) (l : list (list (string * option string)))
  : string :=
  match l with
  | [] => "[]"
  | _ :: _ =>
      ("[" ++ newline_indent (S level) ++
       join ("," ++ newline_indent (S level)) (map (encode_dict (S level)) l) ++
       newline_indent level ++ "]")%string
  end.

Definition json_dumps (jobs_data : list (list (string * option string))) : string :=
  encode_list 0 jobs_data.

(** [json.dump] does not build that text: it writes the chunks the
    generators of [json.encoder] yield, one [fp.write(chunk)] each.  Every
    string literal, key or value, is a chunk of its own. *)
Definition member_chunks (kv : string * option string) : list string :=
  [encode_basestring (fst kv); ": "; encode_value (snd kv)].

(** The members of a dict after the first one: each is preceded by the
    item separator. *)
Fixpoint more_member_chunks (separator : string)
  (d : list (string * option string)) : list string :=
  match d with
  | [] => []
  | kv :: rest =>
      separator :: member_chunks kv ++ more_member_chunks separator rest
  end.

(** The chunks of [_iterencode_dict] at nesting [level]. *)
Definition dict_chunks (level : nat) (d : list (string * option string))
  : list string :=
  match d with
  | [] => ["{}"]
  | kv :: rest =>
      ["{"; newline_indent (S level)] ++ member_chunks kv ++
      more_member_chunks ("," ++ newline_indent (S level)) rest ++
      [newline_indent level; "}"]
  end.

(** The elements of a list after the first one: [buf] is the separator. *)
Fixpoint more_element_chunks (level : nat) (separator : string)
  (l : list (list (string * option string))) : list string :=
  match l with
  | [] => []
  | d :: rest =>
      separator :: dict_chunks level d ++ more_element_chunks level separator rest
  end.

(** The chunks of [_iterencode_list] at nesting [level]: for the first
    element [buf] is the bracket with the first indentation. *)
Definition list_chunks (level : nat) (l : list (list (string * option string)))
  : list string :=
  match l with
  | [] => ["[]"]
  | d :: rest =>
      ("[" ++ newline_indent (S level))%string :: dict_chunks (S level) d ++
      more_element_chunks (S level) ("," ++ newline_indent (S level)) rest ++
      [newline_indent level; "]"]
  end.

Definition json_chunks (jobs_data : list (list (string * option string)))
  : list string :=
  list_chunks 0 jobs_data.

(** [for chunk in chunks: fp.write(chunk)] on a file opened with
    [encoding='utf-8']: each [write] encodes its chunk, so the first chunk
    that holds a surrogate raises, the chunks before it having been
    written.  The result is the text written after [written] and whether
    every chunk went through. *)
Fixpoint write_chunks (chunks : list string) (written : string) : string * bool :=
  match chunks with
  | [] => (written, true)
  | chunk :: rest =>
      if encodable chunk then write_chunks rest (written ++ chunk)%string
      else (written, false)
  end.

Definition encodable_opt (v : option string) : bool :=
  match v with
  | Some s => encodable s
  | None => true
  end.

(** No string of the record holds a surrogate. *)
Definition encodable_job (job : JobListing) : bool :=
  encodable (title job) && encodable (company job) &&
  encodable (location job) && encodable (description job) &&
  encodable (url job) && encodable_opt (date_posted job) &&
  encodable_opt (experience_level job) && encodable (source job).

Definition encodable_jobs (jobs : list JobListing) : bool :=
  forallb encodable_job jobs.

(** [''.join(parts)]. *)
Definition glue (parts : list string) : string :=
  fold_right String.append EmptyString parts.

(* ================================================================= *)
(** ** Reading the persisted format back

    The module writes the backup file and never reads it; the reader below
    is what the round trip of the persisted format is measured against: a
    strict JSON decoder for the fragment the persister writes (an array of
    objects whose values are strings or [null]), followed by the
    construction of a [JobListing] from the members of each object as
    keyword arguments. *)

Definition is_ws (c : ascii) : bool :=
  let n := nat_of_ascii c in
  ((n =? 32) || (n =? 10) || (n =? 13) || (n =? 9))%nat.

Fixpoint skip_ws (s : string) : string :=
  match s with
  | EmptyString => EmptyString
  | String c r => if is_ws c then skip_ws r else s
  end.

Definition hex_value (c : ascii) : option nat :=
  let n := nat_of_ascii c in
  if ((48 <=? n) && (n <=? 57))%nat then Some (n - 48)
  else if ((97 <=? n) && (n <=? 102))%nat then Some (n - 87)
  else if ((65 <=? n) && (n <=? 70))%nat then Some (n - 55)
  else None.

Definition hex4_value (a b c d : ascii) : option nat :=
  match hex_value a, hex_value b, hex_value c, hex_value d with
  | Some x, Some y, Some z, Some t => Some (x * 4096 + y * 256 + z * 16 + t)
  | _, _, _, _ => None
  end.

Definition cons_char (c : ascii) (r : option (string * string))
  : option (string * string) :=
  match r with
  | Some (s, rest) => Some (String c s, rest)
  | None => None
  end.

(** The characters of a JSON string after its opening quote, up to the
    closing one, and the text that follows.  Raw control characters are
    refused (the decoder is strict); a [\u] escape is read when it names an
    ASCII character. *)
Fixpoint scan_string (s : string) : option (string * string) :=
  match s with
  | EmptyString => None
  | String c r =>
      if (c =? dquote)%char then Some (EmptyString, r)
      else if (c =? backslash)%char then
        match r with
        | EmptyString => None
        | String e r1 =>
            if (e =? dquote)%char then cons_char dquote (scan_string r1)
            else if (e =? backslash)%char then cons_char backslash (scan_string r1)
            else if (e =? "/")%char then cons_char "/" (scan_string r1)
            else if (e =? "b")%char then cons_char "008" (scan_string r1)
            else if (e =? "f")%char then cons_char "012" (scan_string r1)
            else if (e =? "n")%char then cons_char "010" (scan_string r1)
            else if (e =? "r")%char then cons_char "013" (scan_string r1)
            else if (e =? "t")%char then cons_char "009" (scan_string r1)
            else if (e =? "u")%char then
              match r1 with
              | String h1 (String h2 (String h3 (String h4 r2))) =>
                  match hex4_value h1 h2 h3 h4 with
                  | Some n =>
                      if (n <? 128)%nat
                      then cons_char (ascii_of_nat n) (scan_string r2)
                      else None
                  | None => None
                  end
              | _ => None
              end
            else None
        end
      else if (nat_of_ascii c <? 32)%nat then None
      else cons_char c (scan_string r)
  end.

(** A value of the fragment: [null] or a string. *)
Definition parse_value (s : string) : option (option string * string) :=
  match s with
  | String "n" (String "u" (String "l" (String "l" r))) => Some (None, r)
  | String c r =>
      if (c =? dquote)%char then
        match scan_string r with
        | Some (v, rest) => Some (Some v, rest)
        | None => None
        end
      else None
  | EmptyString => None
  end.

(** The members of an object after its opening brace, to the closing one. *)
Fixpoint parse_members (fuel : nat) (s : string)
  : option (list (string * option string) * string) :=
  match fuel with
  | O => None
  | S fuel' =>
      match skip_ws s with
      | String c r =>
          if (c =? dquote)%char then
            match scan_string r with
            | Some (key, r1) =>
                match skip_ws r1 with
                | String ":" r2 =>
                    match parse_value (skip_ws r2) with
                    | Some (v, r3) =>
                        match skip_ws r3 with
                        | String "," r4 =>
                            match parse_members fuel' r4 with
                            | Some (members, r5) => Some ((key, v) :: members, r5)
                            | None => None
                            end
                        | String "}" r4 => Some ([(key, v)], r4)
                        | _ => None
                        end
                    | None => None
                    end
                | _ => None
                end
            | None => None
            end
          else None
      | EmptyString => None
      end
  end.

Definition parse_object (fuel : nat) (s : string)
  : option (list (string * option string) * string) :=
  match skip_ws s with
  | String "{" r =>
      match skip_ws r with
      | String "}" r1 => Some ([], r1)
      | _ => parse_members fuel r
      end
  | _ => None
  end.

(** The elements of an array after its opening bracket, to the closing one. *)
Fixpoint parse_elements (fuel : nat) (s : string)
  : option (list (list (string * option string)) * string) :=
  match fuel with
  | O => None
  | S fuel' =>
      match parse_object fuel' s with
      | Some (d, r1) =>
          match skip_ws r1 with
          | String "," r2 =>
              match parse_elements fuel' r2 with
              | Some (elements, r3) => Some (d :: elements, r3)
              | None => None
              end
          | String "]" r2 => Some ([d], r2)
          | _ => None
          end
      | None => None
      end
  end.

(** Modelled from the spec: the deserializer of the persisted record list,
    which the module does not have.  [json.loads(text)] on the fragment:
    one array, nothing but blanks around it. *)
Definition json_loads (text : string) : option (list (list (string * option string))) :=
  let fuel := S (String.length text) in
  match skip_ws text with
  | String "[" r =>
      match skip_ws r with
      | String "]" r1 =>
          match skip_ws r1 with
          | EmptyString => Some []
          | _ => None
          end
      | _ =>
          match parse_elements fuel r with
          | Some (elements, r1) =>
              match skip_ws r1 with
              | EmptyString => Some elements
              | _ => None
              end
          | None => None
          end
      end
  | _ => None
  end.

(** [d.get(key)] on a decoded object: of two members with one key the
    later one counts. *)
Fixpoint dict_last (key : string) (d : list (string * option string))
  : option (option string) :=
  match d with
  | [] => None
  | (k, v) :: rest =>
      match dict_last key rest with
      | Some v' => Some v'
      | None => if (k =? key)%string then Some v else None
      end
  end.

Definition JobListing_fields : list string :=
  ["title"; "company"; "location"; "description"; "url"; "date_posted";
   "experience_level"; "source"].

Definition required_str (key : string) (d : list (string * option string))
  : option string :=
  match dict_last key d with
  | Some (Some s) => Some s
  | _ => None
  end.

(** An optional field: the default [None] when the key is missing. *)
Definition optional_str (key : string) (d : list (string * option string))
  : option string :=
  match dict_last key d with
  | Some v => v
  | None => None
  end.

(** [JobListing] applied to the members of [d] as keyword arguments:
    unknown keys are refused, the five fields without
    default are required, and every [str] field holds a string. *)
Definition JobListing_of_dict (d : list (string * option string))
  : option JobListing :=
  if forallb (fun kv => existsb (String.eqb (fst kv)) JobListing_fields) d then
    match required_str "title" d, required_str "company" d,
          required_str "location" d, required_str "description" d,
          required_str "url" d with
    | Some t, Some c, Some l, Some de, Some u =>
        match dict_last "source" d with
        | Some None => None
        | Some (Some s) =>
            Some (mkJobListing t c l de u (optional_str "date_posted" d)
                    (optional_str "experience_level" d) s)
        | None =>
            Some (mkJobListing t c l de u (optional_str "date_posted" d)
                    (optional_str "experience_level" d) EmptyString)
        end
    | _, _, _, _, _ => None
    end
  else None.

Fixpoint all_some {A} (l : list (option A)) : option (list A) :=
  match l with
  | [] => Some []
  | Some a :: rest =>
      match all_some rest with
      | Some r => Some (a :: r)
      | None => None
      end
  | None :: _ => None
  end.

(** Modelled from the spec: the records of a persisted file, read back
    into [JobListing] values (the module has no such function). *)
Definition load_jobs (text : string) : option (list JobListing) :=
  match json_loads text with
  | Some data => all_some (map JobListing_of_dict data)
  | None => None
  end.

(* ================================================================= *)
(** ** The scraper object, the persister and the aggregator *)

(** The fields of [OutdoorJobScraper] the methods read or write (the HTTP
    session lives in the world). *)
Record Scraper : Type := mkScraper {
  email_address : string;
  jobs : list JobListing
}.

(** [OutdoorJobScraper.__init__]: [self.jobs = []]. *)
Definition OutdoorJobScraper (email : string) : Scraper := mkScraper email [].

(** [self.jobs.extend(more)]. *)
Definition jobs_extend (self : Scraper) (more : list JobListing) : Scraper :=
  mkScraper (email_address self) (jobs self ++ more).

(** [create_sample_jobs(self)] (lines 341-390). *)
Definition create_sample_jobs : list JobListing :=
  [ mkJobListing
      "Park Ranger - Entry Level"
      "Hillsborough County Parks"
      "Tampa, FL"
      "Assist with park maintenance, visitor services, and environmental education programs. Great opportunity for outdoor enthusiasts!"
      "https://www.hillsboroughcounty.org/jobs"
      (Some "Recent") None
      "Hillsborough County Parks";
    mkJobListing
      "Environmental Specialist"
      "Pinellas County"
      "St. Petersburg, FL"
      "Work on environmental conservation projects and outdoor education programs in beautiful Pinellas County parks."
      "https://www.pinellas.gov/jobs"
      (Some "Recent") None
      "Pinellas County Parks";
    mkJobListing
      "Recreation Coordinator"
      "City of Tampa"
      "Tampa, FL"
      "Plan and coordinate outdoor recreational activities and nature programs for city residents."
      "https://www.tampa.gov/jobs"
      (Some "Recent") None
      "Tampa Parks & Recreation";
    mkJobListing
      "Wildlife Biologist Assistant"
      "Florida State Parks"
      "Tampa Bay Area, FL"
      "Support wildlife research and conservation efforts in state parks throughout the Tampa Bay region."
      "https://www.floridastateparks.org/jobs"
      (Some "Recent") None
      "Florida State Parks";
    mkJobListing
      "Outdoor Education Instructor"
      "Tampa Bay Nature Center"
      "Tampa, FL"
      "Lead educational programs about local wildlife and ecosystems for school groups and families."
      "https://example.com/apply"
      (Some "Recent") None
      "Indeed.com" ].

Section Aggregator.

Context {tag : Type} {L : Libraries tag}.

(** [with open(filename, 'w') as token: token.write(text)] for the text
    of [creds.to_json()], which is the output of [json.dumps] with its
    default [ensure_ascii]: ASCII only, so that encoding it cannot fail.  An
    [OSError] when the file cannot be opened. *)
Definition write_file (filename text : string) : M tag unit :=
  fun w =>
    if writable w filename then
      (Return tt,
       mkWorld (web w) (requests w) (now w) (writable w)
               ((filename, text) :: files w)
               (trace w ++ [EvWrite filename]))
    else (Raise OSError, w).

(** [with open(filename, 'w', encoding='utf-8') as f: json.dump(data, f,
    indent=2, ensure_ascii=False)].  An [OSError] when the file cannot be
    opened.  Once it is open the file exists; when a chunk does not encode
    the [UnicodeEncodeError] leaves the [with] block, which closes the file
    over what was written before: a truncated text. *)
Definition json_dump (jobs_data : list (list (string * option string)))
  (filename : string) : M tag unit :=
  fun w =>
    if writable w filename then
      let (text, complete) := write_chunks (json_chunks jobs_data) EmptyString in
      (if complete then Return tt else Raise UnicodeEncodeError,
       mkWorld (web w) (requests w) (now w) (writable w)
               ((filename, text) :: files w)
               (trace w ++ [EvWrite filename]))
    else (Raise OSError, w).

(** [datetime.now().strftime('%Y%m%d_%H%M%S')]. *)
Definition strftime_now : M tag string := fun w => (Return (now w), w).

(** The name [save_to_json] gives the file when it is called without one. *)
Definition backup_name (w : World tag) : string :=
  ("outdoor_jobs_" ++ now w ++ ".json")%string.

(** [save_to_json(self, filename=None)] (lines 330-339). *)
Definition save_to_json (self : Scraper) (filename : option string) : M tag unit :=
  filename <- match filename with
              | None =>
                  stamp <- strftime_now ;;
                  ret ("outdoor_jobs_" ++ stamp ++ ".json")%string
              | Some f => ret f
              end ;;
  let jobs_data := map asdict (jobs self) in
  json_dump jobs_data filename ;;;
  log INFO.

(** [run_scraping(self)] (lines 392-414).  The result pairs the returned
    list with the object as the call leaves it. *)
Definition run_scraping (self : Scraper) : M tag (list JobListing * Scraper) :=
  log INFO ;;;
  indeed_jobs <- scrape_indeed ;;
  let self := jobs_extend self indeed_jobs in
  park_jobs <- scrape_county_parks ;;
  let self := jobs_extend self park_jobs in
  self <- (if (length (jobs self) =? 0)%nat then
             log INFO ;;;
             let sample_jobs := create_sample_jobs in
             ret (jobs_extend self sample_jobs)
           else ret self) ;;
  save_to_json self None ;;;
  log INFO ;;;
  ret (jobs self, self).

End Aggregator.

(* ================================================================= *)
(** ** The digest builder ([GmailSender]) *)

(** A [dict] from source names to lists of records, in insertion order. *)
Definition SourceDict : Type := list (string * list JobListing).

(** [key in d]. *)
Definition dict_contains (d : SourceDict) (key : string) : bool :=
  existsb (fun kv => (fst kv =? key)%string) d.

(** [d[key]] (the empty list stands for a missing key, which the module
    never asks for). *)
Fixpoint dict_get (d : SourceDict) (key : string) : list JobListing :=
  match d with
  | [] => []
  | (k, v) :: rest => if (k =? key)%string then v else dict_get rest key
  end.

(** [d[key] = value]: a known key keeps its place, a new one goes last. *)
Fixpoint dict_set (d : SourceDict) (key : string) (value : list JobListing)
  : SourceDict :=
  match d with
  | [] => [(key, value)]
  | (k, v) :: rest =>
      if (k =? key)%string then (k, value) :: rest
      else (k, v) :: dict_set rest key value
  end.

(** One turn of the grouping loop (lines 464-468). *)
Definition group_step (jobs_by_source : SourceDict) (job : JobListing)
  : SourceDict :=
  let source := source job in
  let jobs_by_source :=
    if negb (dict_contains jobs_by_source source)
    then dict_set jobs_by_source source []
    else jobs_by_source in
  dict_set jobs_by_source source (dict_get jobs_by_source source ++ [job]).

(** Lines 463-468 of [create_email]. *)
Definition group_by_source (jobs : list JobListing) : SourceDict :=
  fold_left group_step jobs [].

(** The literal text of the f-string of lines 489-620. *)
Definition html_head (date total_jobs : string) : string :=
  ("
        <!DOCTYPE html>
        <html>
        <head>
            <meta charset=" ++ dq ++ "utf-8" ++ dq ++ ">
            <meta name=" ++ dq ++ "viewport" ++ dq ++ " content=" ++ dq ++
   "width=device-width, initial-scale=1.0" ++ dq ++ ">
            <title>Outdoor Jobs in Tampa Bay</title>
            <style>
                body {
                    font-family: -apple-system, BlinkMacSystemFont, 'Segoe UI', Roboto, sans-serif;
                    line-height: 1.6;
                    color: #333;
                    max-width: 600px;
                    margin: 0 auto;
                    padding: 20px;
                    background-color: #f5f5f5;
                }
                .container {
                    background-color: white;
                    padding: 20px;
                    border-radius: 8px;
                    box-shadow: 0 2px 10px rgba(0,0,0,0.1);
                }
                .header {
                    text-align: center;
                    border-bottom: 3px solid #2E7D32;
                    padding-bottom: 20px;
                    margin-bottom: 30px;
                }
                .header h1 {
                    color: #2E7D32;
                    margin: 0;
                    font-size: 24px;
                }
                .header p {
                    color: #666;
                    margin: 10px 0 0 0;
                }
                .summary {
                    background-color: #E8F5E8;
                    padding: 15px;
                    border-radius: 5px;
                    margin-bottom: 30px;
                    border-left: 4px solid #2E7D32;
                }
                .source-section {
                    margin-bottom: 40px;
                }
                .source-header {
                    background-color: #2E7D32;
                    color: white;
                    padding: 10px 15px;
                    border-radius: 5px 5px 0 0;
                    margin: 0;
                    font-size: 18px;
                    font-weight: bold;
                }
                .job {
                    border: 1px solid #ddd;
                    border-top: none;
                    padding: 15px;
                    background-color: #fafafa;
                }
                .job:last-child {
                    border-radius: 0 0 5px 5px;
                }
                .job-title {
                    font-size: 16px;
                    font-weight: bold;
                    color: #2E7D32;
                    margin: 0 0 5px 0;
                }
                .job-company {
                    font-weight: bold;
                    color: #555;
                    margin: 0 0 5px 0;
                }
                .job-location {
                    color: #666;
                    font-size: 14px;
                    margin: 0 0 10px 0;
                }
                .job-description {
                    color: #444;
                    margin: 0 0 10px 0;
                    font-size: 14px;
                }
                .job-link {
                    display: inline-block;
                    background-color: #2E7D32;
                    color: white;
                    padding: 8px 15px;
                    text-decoration: none;
                    border-radius: 4px;
                    font-size: 14px;
                    font-weight: bold;
                }
                .job-link:hover {
                    background-color: #1B5E20;
                }
                .footer {
                    text-align: center;
                    margin-top: 30px;
                    padding-top: 20px;
                    border-top: 1px solid #ddd;
                    color: #666;
                    font-size: 12px;
                }
                @media (max-width: 600px) {
                    body {
                        padding: 10px;
                    }
                    .container {
                        padding: 15px;
                    }
                    .header h1 {
                        font-size: 20px;
                    }
                }
            </style>
        </head>
        <body>
            <div class=" ++ dq ++ "container" ++ dq ++ ">
                <div class=" ++ dq ++ "header" ++ dq ++ ">
                    <h1>🌲 Outdoor/Nature Jobs in Tampa Bay</h1>
                    <p>Job Search Results - " ++ date ++ "</p>
                </div>
                
                <div class=" ++ dq ++ "summary" ++ dq ++ ">
                    <strong>📊 Summary:</strong> Found " ++ total_jobs ++ " outdoor and nature-related job opportunities in the Tampa Bay area.
                </div>
        ")%string.

(** Lines 624-627. *)
Definition html_section_open (source len_jobs : string) : string :=
  ("
                <div class=" ++ dq ++ "source-section" ++ dq ++ ">
                    <h2 class=" ++ dq ++ "source-header" ++ dq ++ ">" ++
   source ++ " (" ++ len_jobs ++ " jobs)</h2>
            ")%string.

(** Lines 630-637. *)
Definition html_job (job : JobListing) : string :=
  ("
                    <div class=" ++ dq ++ "job" ++ dq ++ ">
                        <div class=" ++ dq ++ "job-title" ++ dq ++ ">" ++
   title job ++ "</div>
                        <div class=" ++ dq ++ "job-company" ++ dq ++ ">" ++
   company job ++ "</div>
                        <div class=" ++ dq ++ "job-location" ++ dq ++ ">📍 " ++
   location job ++ "</div>
                        <div class=" ++ dq ++ "job-description" ++ dq ++ ">" ++
   description job ++ "</div>
                        <a href=" ++ dq ++ url job ++ dq ++ " class=" ++ dq ++
   "job-link" ++ dq ++ ">Apply Now</a>
                ")%string.

(** Line 640. *)
Definition html_posted (posted : string) : string :=
  ("<div style=" ++ dq ++ "font-size: 12px; color: #888; margin-top: 5px;" ++
   dq ++ ">Posted: " ++ posted ++ "</div>")%string.

(** Lines 646-654. *)
Definition html_foot : string :=
  ("
                <div class=" ++ dq ++ "footer" ++ dq ++ ">
                    <p>Generated by Outdoor Job Scraper | Tampa Bay Area</p>
                    <p>Good luck with your job search! 🌿</p>
                </div>
            </div>
        </body>
        </html>
        ")%string.

(** Truthiness of [job.date_posted]: [None] and the empty string are
    falsy. *)
Definition html_posted_opt (job : JobListing) : string :=
  match date_posted job with
  | Some (String c r) => html_posted (String c r)
  | _ => EmptyString
  end.

(** The inner loop body (lines 630-642). *)
Definition html_job_block (job : JobListing) : string :=
  (html_job job ++ html_posted_opt job ++ "</div>")%string.

(** One turn of the outer loop (lines 624-644), as the text it appends. *)
Definition html_section (entry : string * list JobListing) : string :=
  (fold_left (fun html job => html ++ html_job_block job) (snd entry)
     (html_section_open (fst entry) (str_of_nat (length (snd entry))))
   ++ "</div>")%string.

(** [sum(len(jobs) for jobs in jobs_by_source.values())]. *)
Definition total_jobs (jobs_by_source : SourceDict) : nat :=
  fold_left (fun acc entry => acc + length (snd entry)) jobs_by_source 0.

(** [_generate_html_content(self, jobs_by_source, date)] (lines 485-656). *)
Definition _generate_html_content (jobs_by_source : SourceDict) (date : string)
  : string :=
  let html := html_head date (str_of_nat (total_jobs jobs_by_source)) in
  let html :=
    fold_left (fun html entry => html ++ html_section entry)%string
              jobs_by_source html in
  (html ++ html_foot)%string.

(** The parts of the MIME message [create_email] builds. *)
Record Message : Type := mkMessage {
  msg_subject : string;
  msg_from : string;
  msg_to : string;
  msg_html : string
}.

(** [create_email(self, jobs, recipient)] (lines 457-483); [current_date]
    is [datetime.now().strftime('%B %d, %Y')]. *)
Definition create_email (current_date : string) (jobs : list JobListing)
  (recipient : string) : Message :=
  let subject := ("Outdoor/Nature Jobs in Tampa Bay - " ++ current_date)%string in
  let jobs_by_source := group_by_source jobs in
  let html_content := _generate_html_content jobs_by_source current_date in
  mkMessage subject recipient recipient html_content.

(** The sources of a list of records, each once, in the order in which
    they are first seen; [seen] are the ones met before. *)
Fixpoint first_seen_from (seen : list string) (sources : list string)
  : list string :=
  match sources with
  | [] => []
  | s :: rest =>
      if existsb (fun x => (x =? s)%string) seen then first_seen_from seen rest
      else s :: first_seen_from (seen ++ [s]) rest
  end.

Definition first_seen (sources : list string) : list string :=
  first_seen_from [] sources.

(** The records of one source, in input order. *)
Definition jobs_of_source (s : string) (jobs : list JobListing) : list JobListing :=
  filter (fun job => (source job =? s)%string) jobs.

(* ================================================================= *)
(** ** A concrete document model

    A small tree model of parsed HTML that implements [Libraries], used to
    run the definitions above on explicit pages. *)

Module Html.

Unset Elimination Schemes.
Inductive node : Type :=
| Text (s : string)
| Element (name : string) (attrs : list (string * string)) (children : list node).
Set Elimination Schemes.

(** The nodes below [n], in document order. *)
Fixpoint descendants (n : node) : list node :=
  match n with
  | Text _ => []
  | Element _ _ children => flat_map (fun c => c :: descendants c) children
  end.

Fixpoint attr_lookup (attrs : list (string * string)) (key : string) : option string :=
  match attrs with
  | [] => None
  | (k, v) :: rest => if (k =? key)%string then Some v else attr_lookup rest key
  end.

(** The blank-separated words of a [class] attribute; [word] is the word
    being read. *)
Fixpoint split_blanks (s word : string) : list string :=
  match s with
  | EmptyString => match word with EmptyString => [] | _ => [word] end
  | String c r =>
      if is_ws c then
        match word with
        | EmptyString => split_blanks r EmptyString
        | _ => word :: split_blanks r EmptyString
        end
      else split_blanks r (word ++ String c EmptyString)%string
  end.

(** The ASCII part of the case table: the capitals [A] to [Z] are mapped
    to their small letters, every other byte is left as it is. *)
Definition lower_ascii (c : ascii) : ascii :=
  let n := nat_of_ascii c in
  if ((65 <=? n)%nat && (n <=? 90)%nat)%bool then ascii_of_nat (n + 32) else c.

(** A stand-in for [s.lower()] that is right on ASCII text, which is all
    the pages below hold. *)
Fixpoint lower_text (s : string) : string :=
  match s with
  | EmptyString => EmptyString
  | String c r => String (lower_ascii c) (lower_text r)
  end.

(** [re.search] of an alternation of literals. *)
Definition regex_search (re : Regex) (value : string) : bool :=
  existsb (fun alt =>
             if ignore_case re then contains (lower_text alt) (lower_text value)
             else contains alt value)
          (alternatives re).

Definition attrs_match (f : AttrFilter) (attrs : list (string * string)) : bool :=
  match f with
  | AnyAttrs => true
  | ClassIs cls =>
      match attr_lookup attrs "class" with
      | Some v => existsb (String.eqb cls) (split_blanks v EmptyString) || (v =? cls)%string
      | None => false
      end
  | AttrPresent key =>
      match attr_lookup attrs key with
      | Some _ => true
      | None => false
      end
  | AttrSearch key re =>
      match attr_lookup attrs key with
      | Some v => regex_search re v
      | None => false
      end
  end.

Definition node_matches (sel : Selector) (n : node) : bool :=
  match n with
  | Text _ => false
  | Element name attrs _ => (name =? sel_name sel)%string && attrs_match (sel_attrs sel) attrs
  end.

Definition node_find_all (n : node) (sel : Selector) : list node :=
  filter (node_matches sel) (descendants n).

Definition node_find (n : node) (sel : Selector) : option node :=
  hd_error (node_find_all n sel).

Fixpoint strip_left (s : string) : string :=
  match s with
  | EmptyString => EmptyString
  | String c r => if is_ws c then strip_left r else s
  end.

Fixpoint string_rev (s acc : string) : string :=
  match s with
  | EmptyString => acc
  | String c r => string_rev r (String c acc)
  end.

(** [s.strip()]. *)
Definition strip (s : string) : string :=
  string_rev (strip_left (string_rev (strip_left s) EmptyString)) EmptyString.

Definition node_text (n : node) : list string :=
  match n with
  | Text s => [s]
  | Element _ _ _ => []
  end.

(** [get_text(strip=True)]: the stripped strings below the node, the
    empty ones dropped, glued together. *)
Definition node_get_text (n : node) : string :=
  fold_right String.append EmptyString
    (filter (fun s => negb (s =? EmptyString)%string)
       (map strip (flat_map node_text (n :: descendants n)))).

Definition node_get_item (n : node) (key : string) : option string :=
  match n with
  | Text _ => None
  | Element _ attrs _ => attr_lookup attrs key
  end.

(** The text of [s] up to the [n]-th slash (excluded), [s] itself when it
    has fewer. *)
Fixpoint up_to_slash (n : nat) (s : string) : string :=
  match s with
  | EmptyString => EmptyString
  | String c r =>
      if (c =? "/")%char then
        match n with
        | O => EmptyString
        | S n' => String c (up_to_slash n' r)
        end
      else String c (up_to_slash n r)
  end.

(** [urljoin] on the two shapes of reference the examples use: an absolute
    address is kept, a path from the root replaces the path of the base. *)
Definition join_reference (base ref : string) : result string :=
  if contains "://" ref then Return ref
  else if prefix "/" ref then Return (up_to_slash 2 base ++ ref)%string
  else Raise ValueError.

#[export] Instance node_libraries : Libraries node := {
  lower := lower_text;
  find_all := node_find_all;
  find := node_find;
  get_text := node_get_text;
  get_item := node_get_item;
  urljoin := join_reference
}.

(** A world whose web answers every request by [answer], with an empty
    disk that accepts every file. *)
Definition world_of (answer : string -> nat -> result (Response node)) : World node :=
  mkWorld answer 0 "20240101_120000" (fun _ => true) [] [].

(** Every request times out. *)
Definition dead_web : string -> nat -> result (Response node) :=
  fun _ _ => Raise RequestException.

Definition page (body : list node) : node := Element "html" [] body.

(** A web that serves [doc] at [address] and nothing elsewhere. *)
Definition serve (address : string) (doc : node)
  : string -> nat -> result (Response node) :=
  fun a _ => if (a =? address)%string then Return (mkResponse 200%Z doc)
             else Raise RequestException.

(** An Indeed result card with a company and no title element. *)
Definition untitled_card : node :=
  Element "div" [("class", "job_seen_beacon")]
    [Element "span" [("class", "companyName")] [Text "Acme Parks"]].

(** A card with a bare title and a date, and nothing else. *)
Definition bare_card : node :=
  Element "div" [("class", "job_seen_beacon")]
    [Element "h2" [("class", "jobTitle")] [Text "Trail Guide"];
     Element "span" [("class", "date")] [Text "Today"]].

(** A card with every field. *)
Definition full_card : node :=
  Element "div" [("class", "result job_seen_beacon")]
    [Element "h2" [("class", "jobTitle")]
       [Element "a" [("href", "/rc/clk?jk=1")] [Text " Park Naturalist "]];
     Element "span" [("class", "companyName")] [Text "Acme Parks"];
     Element "div" [("class", "companyLocation")] [Text "Tampa, FL"];
     Element "div" [("class", "job-snippet")] [Text "Lead guided walks."]].

(** Two anchors of a careers page: one names a ranger, one a park. *)
Definition ranger_link : node :=
  Element "a" [("href", "/jobs/ranger")] [Text "Ranger Station Attendant"].

Definition park_link : node :=
  Element "a" [("href", "https://jobs.example.org/careers/7")]
    [Text "Park "; Element "b" [] [Text "Aide"]].

Definition careers_page : node :=
  page [Element "div" [] [ranger_link; park_link];
        Element "a" [("href", "/about")] [Text "About the parks"]].

(** A careers page with two anchors that name a park and a recreation
    job. *)
Definition two_jobs_page : node :=
  page [park_link;
        Element "a" [("href", "/jobs/12")] [Text "Recreation Leader"]].

(** A record a scraper object holds from an earlier run. *)
Definition held_job : JobListing :=
  mkJobListing "Trail Crew Member" "Acme Parks" "Tampa, FL"
    "Keep the trails open." "https://jobs.example.org/careers/3" None None
    "Indeed.com".

(** The code point U+D800, a surrogate: a character reference to it in a
    page is parsed to this one-character string. *)
Definition lone_surrogate : string :=
  String "237" (String "160" (String "128" EmptyString)).

(** A record whose title ends in a surrogate. *)
Definition surrogate_job : JobListing :=
  mkJobListing ("Park Aide " ++ lone_surrogate) "Acme Parks" "Tampa, FL"
    "Help visitors." "https://jobs.example.org/careers/4" None None
    "Indeed.com".

(** A record whose title is markup: the opening tag of a section. *)
Definition markup_job : JobListing :=
  mkJobListing ("<div class=" ++ dq ++ "source-section" ++ dq ++ ">")
    "Acme Parks" "Tampa, FL" "Help visitors."
    "https://jobs.example.org/careers/5" None None "Indeed.com".

End Html.

(* ================================================================= *)
(** ** Vocabulary for the behaviour of the fetcher and the extractors *)

(** The waits of [k] consecutive retries: [2 ** 0], ..., [2 ** (k - 1)]. *)
Definition backoff_schedule (k : nat) : list Z :=
  map (fun i => (2 ^ Z.of_nat i)%Z) (seq 0 k).

(** [sum(waits)]. *)
Definition total_wait (waits : list Z) : Z := fold_right Z.add 0%Z waits.

(** What scraping leaves alone: [w'] has the web, the clock and the disk
    of [w], at least as many requests, and a trace that extends the one of
    [w]. *)
Definition steady {tag : Type} (w w' : World tag) : Prop :=
  web w' = web w /\ now w' = now w /\ writable w' = writable w /\
  files w' = files w /\ requests w <= requests w' /\
  exists evs, trace w' = trace w ++ evs.

Section ExtractorVocabulary.

Context {tag : Type} {L : Libraries tag}.

(** The records of the cards whose [try] body runs to its end, in order. *)
Definition parsed_cards (cards : list tag) : list JobListing :=
  flat_map
    (fun card =>
       match parse_indeed_card card with
       | Return (Some job) => [job]
       | _ => []
       end)
    cards.

(** The number of cards whose [try] body raises. *)
Definition failed_cards (cards : list tag) : nat :=
  length (filter (fun card =>
                    match parse_indeed_card card with
                    | Raise _ => true
                    | Return _ => false
                    end)
                 cards).

(** [job_cards[:20]] of [scrape_indeed] on a fetched page. *)
Definition indeed_job_cards (soup : tag) : list tag :=
  firstn 20
    (py_or_list (find_all soup (sel_class "div" "job_seen_beacon"))
                (find_all soup (sel_has "div" "data-jk"))).

(** What every record of a park-site method looks like. *)
Definition park_record (s : ParkSite) (job : JobListing) : Prop :=
  company job = site_company s /\
  location job = site_location s /\
  description job = site_description s /\
  source job = site_source s /\
  date_posted job = None /\
  experience_level job = None /\
  keyword_match (site_keywords s) (title job) = true.

(** The sources a record of a park site can carry. *)
Definition park_sources : list string :=
  map site_source [hillsborough; pinellas; tampa; stpete; fl_state_parks].

(** What every record of [scrape_indeed] looks like. *)
Definition indeed_record (job : JobListing) : Prop :=
  source job = "Indeed.com" /\
  experience_level job = None /\
  py_len (description job) <= 200.

End ExtractorVocabulary.

Module Html2.

Import Html.

(** [urljoin] as in [Html], with the one failure of the real function the
    examples need: a reference whose host opens a bracket and never closes
    it is refused ([ValueError: Invalid IPv6 URL]). *)
Definition join_reference_strict (base ref : string) : result string :=
  if contains "://[" ref && negb (contains "]" ref) then Raise ValueError
  else join_reference base ref.

Definition strict_libraries : Libraries node := {|
  lower := lower_text;
  find_all := node_find_all;
  find := node_find;
  get_text := node_get_text;
  get_item := node_get_item;
  urljoin := join_reference_strict
|}.

(** A card whose title anchor has no [href]. *)
Definition broken_card : node :=
  Element "div" [("class", "job_seen_beacon")]
    [Element "h2" [("class", "jobTitle")]
       [Element "a" [("data-jk", "7")] [Text "Beach Patrol"]]].

(** An anchor that passes the filters and whose address cannot be joined. *)
Definition bad_link : node :=
  Element "a" [("href", "https://[careers")] [Text "Nature Center Host"].

Definition recreation_link : node :=
  Element "a" [("href", "/jobs/12")] [Text "Recreation Leader"].

(** A web whose [n]-th request is answered by [answers n]. *)
Definition scripted (answers : nat -> result (Response node))
  : string -> nat -> result (Response node) :=
  fun _ n => answers n.

(** Two timeouts, then [doc]. *)
Definition third_time_lucky (doc : node) : nat -> result (Response node) :=
  fun n => if (n <? 2)%nat then Raise RequestException
           else Return (mkResponse 200%Z doc).

(** One timeout, then an exception outside the request classes. *)
Definition timeout_then_crash : nat -> result (Response node) :=
  fun n => if (n <? 1)%nat then Raise RequestException else Raise RuntimeError.

End Html2.

(* ================================================================= *)
(** ** Vocabulary for the text of the backup file *)

(** [all(p(c) for c in s)]. *)
Fixpoint string_forall (p : ascii -> bool) (s : string) : bool :=
  match s with
  | EmptyString => true
  | String c r => p c && string_forall p r
  end.

(** Not a C0 control character (U+0000 to U+001F), the only control
    characters [json] escapes.  DEL (U+007F) and the C1 controls (U+0080 to
    U+009F) pass: [json] writes them as they are. *)
Definition not_c0 (c : ascii) : bool := (32 <=? nat_of_ascii c)%nat.


(** A character [json.dump] writes as it is: no C0 control character, no
    quote, no backslash.  Every byte of a non-ASCII character is one. *)
Definition plain_char (c : ascii) : bool :=
  not_c0 c && negb (c =? dquote)%char && negb (c =? backslash)%char.

(* ================================================================= *)
(** ** Delivery: [GmailSender] and [main] *)

(** The exceptions of the delivery layer.  All derive from [Exception];
    [Earlier e] is an exception of one of the classes of [exn] (an
    [OSError] of [open], an exception that left [run_scraping]). *)
Inductive mail_exn : Type :=
| FileNotFoundError
| NotAuthenticated
| GoogleError (what : string)
| Earlier (e : exn).

Inductive mresult (A : Type) : Type :=
| Done (a : A)
| Fail (e : mail_exn).
Arguments Done {A} a.
Arguments Fail {A} e.

(** What the module reads of a [google.oauth2.credentials.Credentials]
    object: [valid], [expired], [refresh_token] and [to_json()]. *)
Record Credentials : Type := mkCredentials {
  cred_valid : bool;
  cred_expired : bool;
  cred_refresh_token : option string;
  cred_to_json : string
}.

(** The object [build('gmail', 'v1', credentials=creds)] returns. *)
Record Service : Type := mkService {
  service_credentials : Credentials
}.

(** The Google client libraries, as far as the module calls them.  Each
    call may raise. *)
Class Google : Type := {
  (** [Credentials.from_authorized_user_file(token_file, SCOPES)], on the
      text of the file. *)
  from_authorized_user_file : string -> mresult Credentials;
  (** [creds.refresh(Request())]: the credentials after the refresh. *)
  refresh : Credentials -> mresult Credentials;
  (** [InstalledAppFlow.from_client_secrets_file(credentials_file,
      SCOPES).run_local_server(port=0)], on the text of the file. *)
  run_local_server : string -> mresult Credentials;
  build : Credentials -> mresult Service;
  (** [service.users().messages().send(userId='me', body={'raw':
      raw}).execute()]. *)
  execute_send : Service -> string -> mresult unit;
  (** [base64.urlsafe_b64encode(message.as_bytes()).decode()]. *)
  encode_message : Message -> string
}.

(** [GmailSender]: the two file names and the service, [None] until
    [authenticate] has run. *)
Record GmailSender : Type := mkGmailSender {
  credentials_file : string;
  token_file : string;
  service : option Service
}.

(** [GmailSender.__init__] with its default arguments. *)
Definition new_GmailSender : GmailSender :=
  mkGmailSender "credentials.json" "token.json" None.

(** Truthiness of an optional string: [None] and [''] are falsy. *)
Definition truthy (s : option string) : bool :=
  match s with
  | Some (String _ _) => true
  | _ => false
  end.

Section Delivery.

Context {tag : Type} {L : Libraries tag} {G : Google}.

(** The process: the world of the scraper, the value of [EMAIL_ADDRESS]
    in the environment, the date [strftime('%B %d, %Y')] gives, the lines
    printed, and the messages the send call has accepted, newest first. *)
Record Process : Type := mkProcess {
  world : World tag;
  environ_email : option string;
  today : string;
  stdout : list string;
  outbox : list (Service * string)
}.

Definition P (A : Type) : Type := Process -> mresult A * Process.

Definition pret {A} (a : A) : P A := fun p => (Done a, p).

Definition pfail {A} (e : mail_exn) : P A := fun p => (Fail e, p).

Definition pbind {A B} (m : P A) (k : A -> P B) : P B :=
  fun p =>
    match m p with
    | (Done a, p1) => k a p1
    | (Fail e, p1) => (Fail e, p1)
    end.

(** A computation of the scraping layer, run on the world of the
    process. *)
Definition lift {A} (m : M tag A) : P A :=
  fun p =>
    match m (world p) with
    | (Return a, w1) =>
        (Done a, mkProcess w1 (environ_email p) (today p) (stdout p) (outbox p))
    | (Raise e, w1) =>
        (Fail (Earlier e),
         mkProcess w1 (environ_email p) (today p) (stdout p) (outbox p))
    end.

(** A call into the Google libraries. *)
Definition google {A} (r : mresult A) : P A := fun p => (r, p).

(** [try: body except Exception as e: handler; raise]. *)
Definition try_reraise {A} (body : P A) (handler : P unit) : P A :=
  fun p =>
    match body p with
    | (Done a, p1) => (Done a, p1)
    | (Fail e, p1) =>
        match handler p1 with
        | (Done _, p2) => (Fail e, p2)
        | (Fail e', p2) => (Fail e', p2)
        end
    end.

(** [os.path.exists(name)]. *)
Definition os_path_exists (name : string) : P bool :=
  fun p => (Done (existsb (fun f => (fst f =? name)%string) (files (world p))), p).

(** The text of an existing file (the newest one written under the
    name). *)
Fixpoint file_text (fs : list (string * string)) (name : string) : string :=
  match fs with
  | [] => EmptyString
  | (n, text) :: rest => if (n =? name)%string then text else file_text rest name
  end.

Definition read_text (name : string) : P string :=
  fun p => (Done (file_text (files (world p)) name), p).

(** [print(line)]. *)
Definition print (line : string) : P unit :=
  fun p => (Done tt,
            mkProcess (world p) (environ_email p) (today p)
                      (stdout p ++ [line]) (outbox p)).

(** The [else] branch of line 439: the interactive flow, which needs the
    credentials file. *)
Definition interactive_flow (self : GmailSender) : P Credentials :=
  pbind (os_path_exists (credentials_file self)) (fun has_secrets =>
  if negb has_secrets then pfail FileNotFoundError
  else
    pbind (read_text (credentials_file self)) (fun secrets =>
    google (run_local_server secrets))).

(** [authenticate(self)] (lines 427-455); the result is the object with
    its service set. *)
Definition authenticate (self : GmailSender) : P GmailSender :=
  pbind (pbind (os_path_exists (token_file self)) (fun has_token =>
         if has_token then
           pbind (read_text (token_file self)) (fun text =>
           pbind (google (from_authorized_user_file text)) (fun c =>
           pret (Some c)))
         else pret None)) (fun creds =>
  pbind (match creds with
         | Some c =>
             if cred_valid c then pret c
             else
               pbind (if cred_expired c && truthy (cred_refresh_token c)
                      then google (refresh c)
                      else interactive_flow self) (fun c' =>
               pbind (lift (write_file (token_file self) (cred_to_json c')))
                     (fun _ => pret c'))
         | None =>
             pbind (interactive_flow self) (fun c' =>
             pbind (lift (write_file (token_file self) (cred_to_json c')))
                   (fun _ => pret c'))
         end) (fun creds =>
  pbind (google (build creds)) (fun svc =>
  pbind (lift (log INFO)) (fun _ =>
  pret (mkGmailSender (credentials_file self) (token_file self) (Some svc)))))).

(** [datetime.now().strftime('%B %d, %Y')]. *)
Definition strftime_today : P string := fun p => (Done (today p), p).

(** The send call: the message joins the outbox when the API accepts
    it. *)
Definition send_raw (svc : Service) (raw : string) : P unit :=
  fun p =>
    match execute_send svc raw with
    | Done _ =>
        (Done tt,
         mkProcess (world p) (environ_email p) (today p) (stdout p)
                   ((svc, raw) :: outbox p))
    | Fail e => (Fail e, p)
    end.

(** [send_email(self, jobs, recipient)] (lines 658-679). *)
Definition send_email (self : GmailSender) (jobs : list JobListing)
  (recipient : string) : P unit :=
  match service self with
  | None => pfail NotAuthenticated
  | Some svc =>
      try_reraise
        (pbind strftime_today (fun current_date =>
         let message := create_email current_date jobs recipient in
         let raw_message := encode_message message in
         pbind (send_raw svc raw_message) (fun _ =>
         lift (log INFO))))
        (lift (log ERROR))
  end.

(** The lines [main] prints when [EMAIL_ADDRESS] is not set (lines
    687-694). *)
Definition guidance : list string :=
  ["ERROR: EMAIL_ADDRESS not found!";
   String newline "Please set your email address using one of these methods:";
   "1. Environment variable: export EMAIL_ADDRESS='your.email@gmail.com'";
   "2. Create a .env file with: EMAIL_ADDRESS=your.email@gmail.com";
   "3. Copy env.example to .env and edit it";
   String newline "Example:";
   "  Windows: set EMAIL_ADDRESS=your.email@gmail.com";
   "  Linux/Mac: export EMAIL_ADDRESS=your.email@gmail.com"].

Fixpoint print_all (lines : list string) : P unit :=
  match lines with
  | [] => pret tt
  | line :: rest => pbind (print line) (fun _ => print_all rest)
  end.

(** [main()] (lines 682-717). *)
Definition main : P unit :=
  fun p =>
    let email_address := environ_email p in
    match email_address with
    | Some (String c r) =>
        let email_address := String c r in
        try_reraise
          (let scraper := OutdoorJobScraper email_address in
           pbind (lift (run_scraping scraper)) (fun ran =>
           let jobs := fst ran in
           match jobs with
           | [] => lift (log WARNING)
           | _ :: _ =>
               let gmail_sender := new_GmailSender in
               pbind (authenticate gmail_sender) (fun gmail_sender =>
               pbind (send_email gmail_sender jobs email_address) (fun _ =>
               lift (log INFO)))
           end))
          (lift (log ERROR))
          p
    | _ => print_all guidance p
    end.

End Delivery.

Arguments Process tag : clear implicits.
Arguments P tag A : clear implicits.

Module Mail.

Import Html.

(** A stand-in for the Google libraries: a token file holding [valid] or
    [expired] is read as such credentials, anything else is malformed; a
    refresh and the interactive flow give valid credentials; the service
    accepts every message but the empty one. *)
Definition test_google : Google := {|
  from_authorized_user_file := fun text =>
    if (text =? "valid")%string
    then Done (mkCredentials true false (Some "r1") "valid")
    else if (text =? "expired")%string
    then Done (mkCredentials false true (Some "r1") "expired")
    else Fail (GoogleError "malformed token");
  refresh := fun c =>
    Done (mkCredentials true false (cred_refresh_token c) "valid");
  run_local_server := fun _ =>
    Done (mkCredentials true false (Some "r2") "valid");
  build := fun c => Done (mkService c);
  execute_send := fun _ raw =>
    match raw with
    | EmptyString => Fail (GoogleError "empty message")
    | String _ _ => Done tt
    end;
  encode_message := fun m =>
    (msg_to m ++ String newline (msg_subject m ++ String newline (msg_html m)))%string
|}.

(** The same libraries with a send call that always fails. *)
Definition refusing_google : Google := {|
  from_authorized_user_file := @from_authorized_user_file test_google;
  refresh := @refresh test_google;
  run_local_server := @run_local_server test_google;
  build := @build test_google;
  execute_send := fun _ _ => Fail (GoogleError "quota exceeded");
  encode_message := @encode_message test_google
|}.

(** A process on a dead web with the given files on disk. *)
Definition process_with (email : option string) (disk : list (string * string))
  : Process node :=
  mkProcess
    (mkWorld dead_web 0 "20240101_120000" (fun _ => true) disk [])
    email "January 01, 2024" [] [].

End Mail.

Section DeliveryVocabulary.

Context {tag : Type}.

(** The process [p] with the world [w]. *)
Definition with_world (p : Process tag) (w : World tag) : Process tag :=
  mkProcess w (environ_email p) (today p) (stdout p) (outbox p).

(** The process [p] after the event [ev]. *)
Definition after_event (ev : Event) (p : Process tag) : Process tag :=
  with_world p (snd (emit ev (world p))).

(** The process [p] with one more message in its outbox. *)
Definition delivered (svc : Service) (raw : string) (p : Process tag)
  : Process tag :=
  mkProcess (world p) (environ_email p) (today p) (stdout p)
            ((svc, raw) :: outbox p).

(** [name] is a file of the disk of [p]. *)
Definition on_disk (name : string) (p : Process tag) : bool :=
  existsb (fun f => (fst f =? name)%string) (files (world p)).

End DeliveryVocabulary.

Module Runs.

Import Html Html2.

(** An Indeed page with four cards: complete, without title, with an
    anchor that has no [href], and bare. *)
Definition mixed_page : node :=
  page [full_card; untitled_card; broken_card; bare_card].

(** A careers page whose second anchor cannot be joined. *)
Definition broken_careers_page : node :=
  page [recreation_link; bad_link; park_link].

(** A dead web and a disk that refuses every file. *)
Definition read_only_world : World node :=
  mkWorld dead_web 0 "20240101_120000" (fun _ => false) [] [].

End Runs.

Unset Implicit Arguments.

(* ================================================================= *)
(** ** Theorems *)

Lemma string_app_assoc (a b c : string) :
  ((a ++ b) ++ c = a ++ (b ++ c))%string.
Proof. induction a as [| x a IH]; cbn; [reflexivity | now rewrite IH]. Qed.

Lemma string_app_nil_r (a : string) : (a ++ EmptyString)%string = a.
Proof. induction a as [| x a IH]; cbn; [reflexivity | now rewrite IH]. Qed.

Lemma string_length_app (a b : string) :
  String.length (a ++ b) = String.length a + String.length b.
Proof. induction a as [| x a IH]; cbn; [reflexivity | now rewrite IH]. Qed.

Lemma backoff_waits_app (evs1 evs2 : list Event) :
  backoff_waits (evs1 ++ evs2) = backoff_waits evs1 ++ backoff_waits evs2.
Proof.
  induction evs1 as [| ev evs1 IH]; cbn; [reflexivity |].
  destruct ev as [[] ? | | |]; cbn; now rewrite ?IH.
Qed.

Section FetcherFacts.

Context {tag : Type} {L : Libraries tag}.

Lemma make_request_turn_fails (address : string) (max_retries attempt : Z)
  (w : World tag) :
  request_fails w address (requests w) ->
  make_request_turn address max_retries attempt w =
  if (attempt <? max_retries - 1)%Z then
    (Return (@NextTurn (option tag)),
     mkWorld (web w) (S (requests w)) (now w) (writable w) (files w)
       (trace w ++ [EvSleep Politeness 1; EvGet address; EvLog WARNING;
                    EvSleep Backoff (2 ^ attempt)]))
  else
    (Return (ReturnFromLoop None),
     mkWorld (web w) (S (requests w)) (now w) (writable w) (files w)
       (trace w ++ [EvSleep Politeness 1; EvGet address; EvLog WARNING;
                    EvLog ERROR])).
Proof.
  unfold request_fails, make_request_turn, try_except, bind, delay_request,
    time_sleep, log, emit, session_get, raise_for_status, raise, ret.
  cbn [web requests now writable files trace].
  destruct (web w address (requests w)) as [r | e]; intros Hfail.
  - rewrite Hfail. cbn. destruct (attempt <? max_retries - 1)%Z; cbn;
      repeat rewrite <- app_assoc; reflexivity.
  - rewrite Hfail. destruct (attempt <? max_retries - 1)%Z; cbn;
      repeat rewrite <- app_assoc; reflexivity.
Qed.

(** A run of failed attempts ends in [None], having issued one request per
    turn and left the events of [failed_attempts_trace]. *)
Lemma make_request_loop_all_fail (address : string) (max_retries : Z) :
  forall (turns : nat) (attempt : Z) (w : World tag),
    (attempt + Z.of_nat turns = max_retries)%Z ->
    (forall k, k < turns -> request_fails w address (requests w + k)) ->
    make_request_loop address max_retries attempt turns w =
    (Return None,
     mkWorld (web w) (requests w + turns) (now w) (writable w) (files w)
       (trace w ++ failed_attempts_trace address max_retries attempt turns)).
Proof.
  induction turns as [| turns IH]; intros attempt w Hsum Hfail.
  - cbn. rewrite Nat.add_0_r, app_nil_r. destruct w; reflexivity.
  - cbn [make_request_loop failed_attempts_trace]. unfold bind at 1.
    rewrite make_request_turn_fails
      by (specialize (Hfail 0 ltac:(lia)); now rewrite Nat.add_0_r in Hfail).
    destruct (attempt <? max_retries - 1)%Z eqn:Hlast.
    + rewrite IH; cbn [web requests now writable files trace].
      * rewrite <- app_assoc. cbn [app].
        now rewrite Nat.add_succ_r.
      * lia.
      * intros k Hk. specialize (Hfail (S k) ltac:(lia)).
        unfold request_fails in *. cbn [web].
        now rewrite Nat.add_succ_r in Hfail.
    + apply Z.ltb_ge in Hlast.
      assert (turns = 0) by lia. subst turns.
      unfold ret. cbn [app]. now rewrite Nat.add_1_r.
Qed.

(** C1.  For every address and every positive [max_retries], when every
    attempt fails with a request error, [make_request] returns [None]: the
    result is a [Return], never a [Raise]. *)
Theorem make_request_fails_soft (address : string) (max_retries : Z)
  (w : World tag) :
  (0 < max_retries)%Z ->
  (forall k, k < Z.to_nat max_retries ->
             request_fails w address (requests w + k)) ->
  exists w', make_request address max_retries w = (Return None, w').
Proof.
  intros Hpos Hfail. unfold make_request.
  rewrite make_request_loop_all_fail by (trivial; lia).
  eexists. reflexivity.
Qed.

(** C2.  With a limit of three attempts that all fail, [make_request]
    returns [None] and sleeps in its retry handler exactly twice: [2 ^ 0]
    seconds after the first failure and [2 ^ 1] after the second.  The
    third failure is followed by the error log alone. *)
Theorem make_request_three_failures (address : string) (w : World tag) :
  (forall k, k < 3 -> request_fails w address (requests w + k)) ->
  exists w',
    make_request address 3 w = (Return None, w') /\
    trace w' =
      trace w ++
      [EvSleep Politeness 1; EvGet address; EvLog WARNING; EvSleep Backoff (2 ^ 0);
       EvSleep Politeness 1; EvGet address; EvLog WARNING; EvSleep Backoff (2 ^ 1);
       EvSleep Politeness 1; EvGet address; EvLog WARNING; EvLog ERROR] /\
    backoff_waits (trace w') = backoff_waits (trace w) ++ [1; 2]%Z /\
    requests w' = requests w + 3.
Proof.
  intros Hfail. unfold make_request.
  change (Z.to_nat 3) with 3.
  rewrite make_request_loop_all_fail by (trivial; lia).
  eexists. split; [reflexivity |]. cbn [trace requests].
  split; [reflexivity |]. split; [| reflexivity].
  rewrite backoff_waits_app. reflexivity.
Qed.

End FetcherFacts.

(* ================================================================= *)
(** ** The extractors: result caps *)

Section ExtractorFacts.

Context {tag : Type} {L : Libraries tag}.

Lemma indeed_cards_returns (cards : list tag) :
  forall (acc : list JobListing) (w : World tag),
  exists out w',
    indeed_cards cards acc w = (Return out, w') /\
    length out <= length acc + length cards /\
    web w' = web w /\ requests w' = requests w /\
    now w' = now w /\ writable w' = writable w /\ files w' = files w.
Proof.
  induction cards as [| card rest IH]; intros acc w; cbn [indeed_cards].
  - exists acc, w. cbn. repeat split; lia.
  - destruct (parse_indeed_card card) as [[job |] | e].
    + destruct (IH (acc ++ [job]) w) as (out & w' & Hrun & Hlen & Hw).
      exists out, w'. rewrite length_app in Hlen. cbn in *.
      repeat split; try tauto; lia.
    + destruct (IH acc w) as (out & w' & Hrun & Hlen & Hw).
      exists out, w'. cbn. repeat split; try tauto; lia.
    + unfold bind, log, emit. cbn.
      match goal with |- context [indeed_cards rest acc ?w0] =>
        destruct (IH acc w0) as (out & w' & Hrun & Hlen & Hw) end.
      exists out, w'. cbn in *. repeat split; try tauto; lia.
Qed.

Lemma park_links_length (s : ParkSite) (links : list tag) :
  forall acc : list JobListing,
    length (fst (park_links s links acc)) <= length acc + length links.
Proof.
  induction links as [| link rest IH]; intros acc; cbn [park_links].
  - cbn. lia.
  - destruct (keyword_match (site_keywords s) (get_text link)).
    + destruct (link_url s link) as [job_url | e]; [| cbn; lia].
      specialize (IH (acc ++ [park_job s (get_text link) job_url])).
      rewrite length_app in IH. cbn in *. lia.
    + specialize (IH acc). cbn. lia.
Qed.

(** A park-site method always returns, whatever the fetch and the page do,
    and what it returns has at most ten records. *)
Lemma scrape_park_site_returns (s : ParkSite) (w : World tag) :
  exists out w',
    scrape_park_site s w = (Return out, w') /\ length out <= 10.
Proof.
  unfold scrape_park_site.
  destruct (make_request (site_url s) 3 w) as [[[soup |] | e] w1].
  - pose proof (park_links_length s
                  (firstn 10 (find_all soup job_link_selector)) []) as Hlen.
    pose proof (firstn_le_length 10 (find_all soup job_link_selector)) as Hcap.
    destruct (park_links s (firstn 10 (find_all soup job_link_selector)) [])
      as [out [e |]]; cbn [fst length Nat.add] in Hlen.
    + eexists out, _. split; [reflexivity | lia].
    + eexists out, _. split; [reflexivity | lia].
  - eexists [], _. split; [reflexivity | cbn; lia].
  - eexists [], _. split; [reflexivity | cbn; lia].
Qed.

Lemma make_request_loop_returns (address : string) (max_retries : Z) :
  forall (turns : nat) (attempt : Z) (w : World tag),
    (forall k, k < turns -> ~ request_crashes w address (requests w + k)) ->
    exists r w', make_request_loop address max_retries attempt turns w = (Return r, w').
Proof.
  induction turns as [| turns IH]; intros attempt w Hok; cbn [make_request_loop].
  - eexists _, _. reflexivity.
  - pose proof (Hok 0 ltac:(lia)) as H0. rewrite Nat.add_0_r in H0.
    unfold request_crashes in H0.
    unfold bind at 1.
    unfold make_request_turn, try_except, bind, delay_request, time_sleep, log,
      emit, session_get, raise_for_status, raise, ret.
    cbn [web requests now writable files trace].
    assert (Hnext : forall w1 : World tag,
               web w1 = web w -> requests w1 = S (requests w) ->
               exists r w', make_request_loop address max_retries (attempt + 1) turns w1
                            = (Return r, w')).
    { intros w1 Hweb Hreq. apply IH. intros k Hk.
      specialize (Hok (S k) ltac:(lia)). unfold request_crashes in *.
      rewrite Hweb, Hreq. now rewrite Nat.add_succ_r in Hok. }
    destruct (web w address (requests w)) as [r | e].
    + destruct (http_error r); cbn.
      * destruct (attempt <? max_retries - 1)%Z; cbn.
        -- apply Hnext; reflexivity.
        -- eexists _, _. reflexivity.
      * eexists _, _. reflexivity.
    + destruct (is_RequestException e); [| tauto].
      destruct (attempt <? max_retries - 1)%Z; cbn.
      * apply Hnext; reflexivity.
      * eexists _, _. reflexivity.
Qed.

(** C10.  Whatever the page holds, [scrape_indeed] returns at most 20
    records, and each of the five park-site methods returns at most 10:
    each loop runs over a prefix of that length of the candidates and
    appends at most one record per turn.  (A fetch that crashes outside the
    class [make_request] handles leaves [scrape_indeed] as an exception;
    the park-site methods catch it and return the empty list.) *)
Theorem extractors_capped (w : World tag) :
  ((forall k, k < 3 -> ~ request_crashes w indeed_search_url (requests w + k)) ->
   exists out w', scrape_indeed w = (Return out, w') /\ length out <= 20) /\
  (forall out w', scrape_indeed w = (Return out, w') -> length out <= 20) /\
  (exists out w', _scrape_hillsborough_parks w = (Return out, w') /\ length out <= 10) /\
  (exists out w', _scrape_pinellas_parks w = (Return out, w') /\ length out <= 10) /\
  (exists out w', _scrape_tampa_parks w = (Return out, w') /\ length out <= 10) /\
  (exists out w', _scrape_stpete_parks w = (Return out, w') /\ length out <= 10) /\
  (exists out w', _scrape_fl_state_parks w = (Return out, w') /\ length out <= 10).
Proof.
  assert (Hcap : forall out w', scrape_indeed w = (Return out, w') -> length out <= 20).
  { unfold scrape_indeed, bind at 1 2. unfold log at 1, emit. intros out w'.
    match goal with |- context [make_request ?a ?n ?w0] =>
      destruct (make_request a n w0) as [[[soup |] | e] w1] end.
    - unfold bind.
      match goal with |- context [indeed_cards ?cs [] w1] =>
        destruct (indeed_cards_returns cs [] w1) as (jobs & w2 & Hrun & Hlen & _);
        pose proof (firstn_le_length 20
          (py_or_list (find_all soup (sel_class "div" "job_seen_beacon"))
                      (find_all soup (sel_has "div" "data-jk")))) as Hfirst
      end.
      rewrite Hrun. cbn [fst snd]. unfold bind, log, emit, ret.
      intros [= <- _]. cbn [length Nat.add] in Hlen. lia.
    - cbn. intros [= <- _]. cbn. lia.
    - discriminate. }
  split; [| split; [exact Hcap |]].
  - intros Hok.
    assert (exists r w1, scrape_indeed w = (Return r, w1)) as (r & w1 & Hrun).
    { unfold scrape_indeed, bind at 1 2. unfold log at 1, emit.
      match goal with |- context [make_request ?a ?n ?w0] =>
        destruct (make_request_loop_returns a n (Z.to_nat n) 0 w0) as (x & w1 & Hreq)
      end.
      { intros k Hk. cbn [web requests]. apply Hok. exact Hk. }
      unfold make_request. rewrite Hreq. destruct x as [soup |].
      - unfold bind.
        match goal with |- context [indeed_cards ?cs [] w1] =>
          destruct (indeed_cards_returns cs [] w1) as (jobs & w2 & Hrun & _) end.
        rewrite Hrun. cbn. eexists _, _. reflexivity.
      - cbn. eexists _, _. reflexivity. }
    exists r, w1. split; [exact Hrun | exact (Hcap _ _ Hrun)].
  - repeat split; apply scrape_park_site_returns.
Qed.

End ExtractorFacts.

(* ================================================================= *)
(** ** The extractors: placeholders and the relevance filter *)

Section FieldFacts.

Context {tag : Type} {L : Libraries tag}.

(** The loop only ever appends to the list it was given. *)
Lemma indeed_cards_extends (cards : list tag) :
  forall (acc out : list JobListing) (w w' : World tag),
    indeed_cards cards acc w = (Return out, w') ->
    exists more, out = acc ++ more.
Proof.
  induction cards as [| card rest IH]; intros acc out w w'; cbn [indeed_cards].
  - intros [= <- _]. exists []. now rewrite app_nil_r.
  - destruct (parse_indeed_card card) as [[job |] | e]; intros Hrun.
    + apply IH in Hrun as [more ->]. exists (job :: more).
      now rewrite <- app_assoc.
    + now apply IH in Hrun.
    + unfold bind, log, emit in Hrun. cbn in Hrun. now apply IH in Hrun.
Qed.

(** C7 (as amended).  A card whose title element is found, and whose link
    (when the title holds an anchor) can be read, is emitted by the card
    loop, with the fixed placeholder in each of company, location and
    description that neither selector finds, no posting date when neither
    date selector matches, and the empty address when the title holds no
    anchor.  A card without title element is passed over: the loop goes on
    with the list unchanged. *)
Theorem indeed_card_placeholders (card title_elem : tag) (job_url : string) :
  find_either card (sel_class "h2" "jobTitle") (sel_has "a" "data-jk")
    = Some title_elem ->
  indeed_job_url title_elem = Return job_url ->
  exists job,
    parse_indeed_card card = Return (Some job) /\
    (forall rest acc w, indeed_cards (card :: rest) acc w
                        = indeed_cards rest (acc ++ [job]) w) /\
    (forall rest acc w out w',
        indeed_cards (card :: rest) acc w = (Return out, w') -> In job out) /\
    title job = get_text title_elem /\
    url job = job_url /\
    source job = "Indeed.com" /\
    (find_either card (sel_class "span" "companyName")
                      (sel_class "div" "company_location") = None ->
     company job = "Unknown Company") /\
    (find_either card (sel_class "div" "companyLocation")
                      (sel_class "span" "location") = None ->
     location job = "Tampa Bay Area") /\
    (find_either card (sel_class "div" "job-snippet")
                      (sel_class "span" "summary") = None ->
     description job = "No description available") /\
    (find_either card (sel_class "span" "date")
                      (sel_class "span" "postedDate") = None ->
     date_posted job = None) /\
    (find title_elem (sel_tag "a") = None -> job_url = EmptyString).
Proof.
  intros Htitle Hurl.
  exists (mkJobListing (get_text title_elem) (indeed_company card)
            (indeed_location card) (indeed_description card) job_url
            (indeed_date_posted card) None "Indeed.com").
  assert (Hparse : parse_indeed_card card = Return (Some
            (mkJobListing (get_text title_elem) (indeed_company card)
               (indeed_location card) (indeed_description card) job_url
               (indeed_date_posted card) None "Indeed.com"))).
  { unfold parse_indeed_card. now rewrite Htitle, Hurl. }
  split; [exact Hparse |].
  assert (Hstep : forall rest acc w,
             indeed_cards (card :: rest) acc w
             = indeed_cards rest (acc ++ [mkJobListing (get_text title_elem)
                 (indeed_company card) (indeed_location card)
                 (indeed_description card) job_url (indeed_date_posted card)
                 None "Indeed.com"]) w).
  { intros rest acc w. cbn [indeed_cards]. now rewrite Hparse. }
  split; [exact Hstep |]. split.
  { intros rest acc w out w' Hrun. rewrite Hstep in Hrun.
    apply indeed_cards_extends in Hrun as [more ->].
    apply in_or_app. left. apply in_or_app. right. now left. }
  cbn [title url source company location description date_posted].
  unfold indeed_company, indeed_location, indeed_description,
    indeed_date_posted.
  repeat split.
  - intros ->. reflexivity.
  - intros ->. reflexivity.
  - intros ->. reflexivity.
  - intros ->. reflexivity.
  - intros Hnone. unfold indeed_job_url in Hurl. rewrite Hnone in Hurl.
    now injection Hurl as <-.
Qed.

(** The other half of the amended C7: without title element the card is
    skipped, without an exception. *)
Lemma indeed_card_without_title (card : tag) :
  find_either card (sel_class "h2" "jobTitle") (sel_has "a" "data-jk") = None ->
  parse_indeed_card card = Return None /\
  forall rest acc w, indeed_cards (card :: rest) acc w = indeed_cards rest acc w.
Proof.
  intros Hnone. assert (Hparse : parse_indeed_card card = Return None).
  { unfold parse_indeed_card. now rewrite Hnone. }
  split; [exact Hparse |]. intros rest acc w. cbn [indeed_cards].
  now rewrite Hparse.
Qed.

Lemma park_links_accepts (s : ParkSite) (links : list tag) :
  forall acc : list JobListing,
    (forall link, In link links ->
       keyword_match (site_keywords s) (get_text link) = true ->
       exists job_url, link_url s link = Return job_url) ->
    park_links s links acc = (acc ++ accepted_links s links, None).
Proof.
  induction links as [| link rest IH]; intros acc Hurl;
    cbn [park_links accepted_links flat_map].
  - now rewrite app_nil_r.
  - fold (accepted_links s rest).
    destruct (keyword_match (site_keywords s) (get_text link)) eqn:Hkw.
    + destruct (Hurl link (or_introl eq_refl) Hkw) as [job_url ->].
      rewrite IH by (intros l Hl; apply Hurl; now right).
      now rewrite <- app_assoc.
    + apply IH. intros l Hl. apply Hurl. now right.
Qed.

Lemma keyword_match_spec (keywords : list string) (text : string) :
  keyword_match keywords text = true <->
  exists keyword, In keyword keywords /\ contains keyword (lower text) = true.
Proof. unfold keyword_match. apply existsb_exists. Qed.

Lemma accepted_links_title (s : ParkSite) (links : list tag) (job : JobListing) :
  In job (accepted_links s links) ->
  keyword_match (site_keywords s) (title job) = true.
Proof.
  unfold accepted_links. rewrite in_flat_map. intros (link & _ & Hjob).
  destruct (keyword_match (site_keywords s) (get_text link)) eqn:Hkw;
    [| contradiction].
  destruct (link_url s link); [| contradiction].
  destruct Hjob as [<- | []]. exact Hkw.
Qed.

(** C8 (as amended).  On a fetched page, a park-site method accepts a
    candidate anchor (one of the first ten whose [href] matches) exactly
    when its lower-cased title contains one of the keywords of that
    method.  The keyword lists differ: the four county and city methods use
    park, recreation, outdoor, nature, environmental; only the Florida
    State Parks method has ranger as well. *)
Theorem park_site_relevance_filter (s : ParkSite) (w w1 : World tag) (soup : tag) :
  make_request (site_url s) 3 w = (Return (Some soup), w1) ->
  (forall link, In link (firstn 10 (find_all soup job_link_selector)) ->
     keyword_match (site_keywords s) (get_text link) = true ->
     exists job_url, link_url s link = Return job_url) ->
  exists out,
    scrape_park_site s w = (Return out, w1) /\
    (forall link, In link (firstn 10 (find_all soup job_link_selector)) ->
       (exists job, In job out /\ title job = get_text link) <->
       (exists keyword, In keyword (site_keywords s) /\
                        contains keyword (lower (get_text link)) = true)) /\
    (In s [hillsborough; pinellas; tampa; stpete] ->
     site_keywords s = ["park"; "recreation"; "outdoor"; "nature"; "environmental"]) /\
    site_keywords fl_state_parks =
      ["park"; "ranger"; "recreation"; "outdoor"; "nature"; "environmental"].
Proof.
  intros Hreq Hurl.
  exists (accepted_links s (firstn 10 (find_all soup job_link_selector))).
  split; [| split; [| split]].
  - unfold scrape_park_site. rewrite Hreq.
    now rewrite (park_links_accepts s _ [] Hurl).
  - intros link Hin. rewrite <- keyword_match_spec. split.
    + intros (job & Hjob & Htitle). rewrite <- Htitle.
      eapply accepted_links_title; eassumption.
    + intros Hkw. destruct (Hurl link Hin Hkw) as [job_url Hjoin].
      exists (park_job s (get_text link) job_url). split; [| reflexivity].
      unfold accepted_links. apply in_flat_map. exists link.
      split; [exact Hin |]. rewrite Hkw, Hjoin. now left.
  - intros [<- | [<- | [<- | [<- | []]]]]; reflexivity.
  - reflexivity.
Qed.

End FieldFacts.

(* ================================================================= *)
(** ** The chunks of the persisted text and their encoding *)

Lemma glue_app (a b : list string) :
  glue (a ++ b) = (glue a ++ glue b)%string.
Proof.
  induction a as [| x a IH]; cbn [glue fold_right app append]; [reflexivity |].
  fold (glue (a ++ b)). fold (glue a). now rewrite IH, string_app_assoc.
Qed.

Lemma glue_member_chunks (kv : string * option string) :
  glue (member_chunks kv) = encode_member kv.
Proof.
  unfold member_chunks, encode_member. cbn [glue fold_right].
  now rewrite string_app_nil_r.
Qed.

Lemma join_members_glue (separator : string) :
  forall (rest : list (string * option string)) (kv : string * option string),
    join separator (map encode_member (kv :: rest)) =
    (encode_member kv ++ glue (more_member_chunks separator rest))%string.
Proof.
  induction rest as [| kv' rest IH]; intros kv.
  - cbn. now rewrite string_app_nil_r.
  - change (join separator (map encode_member (kv :: kv' :: rest)))
      with (encode_member kv ++ separator
            ++ join separator (map encode_member (kv' :: rest)))%string.
    rewrite IH. cbn [more_member_chunks].
    change (glue (separator :: member_chunks kv'
                    ++ more_member_chunks separator rest))
      with (separator ++ glue (member_chunks kv'
                                 ++ more_member_chunks separator rest))%string.
    now rewrite glue_app, glue_member_chunks.
Qed.

Lemma glue_dict_chunks (level : nat) (d : list (string * option string)) :
  glue (dict_chunks level d) = encode_dict level d.
Proof.
  destruct d as [| kv rest]; [reflexivity |].
  unfold dict_chunks, encode_dict.
  rewrite join_members_glue.
  change (glue (["{"; newline_indent (S level)] ++ ?x))
    with ("{" ++ newline_indent (S level) ++ glue x)%string.
  cbn [app].
  change (glue ("{" :: newline_indent (S level)
                  :: member_chunks kv
                  ++ more_member_chunks ("," ++ newline_indent (S level)) rest
                  ++ [newline_indent level; "}"]))
    with ("{" ++ newline_indent (S level)
          ++ glue (member_chunks kv
                   ++ more_member_chunks ("," ++ newline_indent (S level)) rest
                   ++ [newline_indent level; "}"]))%string.
  rewrite !glue_app, glue_member_chunks. cbn [glue fold_right].
  now rewrite string_app_nil_r, !string_app_assoc.
Qed.

Lemma join_elements_glue (level : nat) (separator : string) :
  forall (rest : list (list (string * option string)))
         (d : list (string * option string)),
    join separator (map (encode_dict level) (d :: rest)) =
    (encode_dict level d ++ glue (more_element_chunks level separator rest))%string.
Proof.
  induction rest as [| d' rest IH]; intros d.
  - cbn. now rewrite string_app_nil_r.
  - change (join separator (map (encode_dict level) (d :: d' :: rest)))
      with (encode_dict level d ++ separator
            ++ join separator (map (encode_dict level) (d' :: rest)))%string.
    rewrite IH. cbn [more_element_chunks].
    change (glue (separator :: dict_chunks level d'
                    ++ more_element_chunks level separator rest))
      with (separator ++ glue (dict_chunks level d'
                                 ++ more_element_chunks level separator rest))%string.
    now rewrite glue_app, glue_dict_chunks.
Qed.

(** The chunks [json.dump] writes make up the text of [json.dumps]. *)
Lemma glue_json_chunks (data : list (list (string * option string))) :
  glue (json_chunks data) = json_dumps data.
Proof.
  unfold json_chunks, json_dumps. destruct data as [| d rest]; [reflexivity |].
  unfold list_chunks, encode_list. rewrite join_elements_glue.
  change (glue (("[" ++ newline_indent 1)%string :: ?x))
    with (("[" ++ newline_indent 1) ++ glue x)%string.
  change (glue (("[" ++ newline_indent 1)%string
                  :: dict_chunks 1 d
                  ++ more_element_chunks 1 ("," ++ newline_indent 1) rest
                  ++ [newline_indent 0; "]"]))
    with (("[" ++ newline_indent 1)
          ++ glue (dict_chunks 1 d
                   ++ more_element_chunks 1 ("," ++ newline_indent 1) rest
                   ++ [newline_indent 0; "]"]))%string.
  rewrite !glue_app, glue_dict_chunks. cbn [glue fold_right].
  now rewrite string_app_nil_r, !string_app_assoc.
Qed.

(** What [write_chunks] leaves: the whole text when every chunk encodes,
    and otherwise a proper prefix of it. *)
Lemma write_chunks_complete (chunks : list string) :
  forall written : string,
    forallb encodable chunks = true ->
    write_chunks chunks written = ((written ++ glue chunks)%string, true).
Proof.
  induction chunks as [| chunk rest IH]; intros written Hall.
  - cbn. now rewrite string_app_nil_r.
  - cbn [forallb] in Hall. apply andb_true_iff in Hall as [Hc Hrest].
    cbn [write_chunks]. rewrite Hc, (IH _ Hrest).
    cbn [glue fold_right]. now rewrite string_app_assoc.
Qed.

Lemma has_surrogate_not_empty (s : string) :
  encodable s = false -> s <> EmptyString.
Proof. intros H ->. discriminate H. Qed.

Lemma string_app_not_empty (a b : string) :
  a <> EmptyString -> (a ++ b)%string <> EmptyString.
Proof. destruct a; [congruence | discriminate]. Qed.

Lemma write_chunks_truncated (chunks : list string) :
  forall written : string,
    forallb encodable chunks = false ->
    exists text rest,
      write_chunks chunks written = ((written ++ text)%string, false) /\
      glue chunks = (text ++ rest)%string /\
      rest <> EmptyString.
Proof.
  induction chunks as [| chunk more IH]; intros written Hbad; [discriminate |].
  cbn [forallb] in Hbad. cbn [write_chunks].
  destruct (encodable chunk) eqn:Hc.
  - cbn [andb] in Hbad.
    destruct (IH (written ++ chunk)%string Hbad) as (text & rest & Hw & Hg & Hne).
    exists (chunk ++ text)%string, rest. rewrite Hw. split; [| split].
    + now rewrite string_app_assoc.
    + cbn [glue fold_right]. fold (glue more). now rewrite Hg, string_app_assoc.
    + exact Hne.
  - exists EmptyString, (glue (chunk :: more)). split; [| split].
    + now rewrite string_app_nil_r.
    + reflexivity.
    + cbn [glue fold_right]. apply string_app_not_empty.
      now apply has_surrogate_not_empty.
Qed.

(** Escaping neither makes nor hides a surrogate: the escapes are ASCII,
    and every other byte is written as it is. *)
Lemma surrogate_from_escape_char (c : ascii) (after_ed : bool) (k : string) :
  surrogate_from after_ed (escape_char c ++ k) =
  surrogate_from after_ed (String c k).
Proof.
  destruct c as [[] [] [] [] [] [] [] []]; destruct after_ed; reflexivity.
Qed.

Lemma surrogate_from_escape (s : string) :
  forall (after_ed : bool) (k : string),
    surrogate_from after_ed (escape s ++ k) = surrogate_from after_ed (s ++ k).
Proof.
  induction s as [| c s IH]; intros after_ed k; [reflexivity |].
  cbn [escape]. rewrite string_app_assoc, surrogate_from_escape_char.
  cbn [surrogate_from append]. now rewrite IH.
Qed.

Lemma surrogate_from_quote (s : string) :
  forall after_ed : bool,
    surrogate_from after_ed (s ++ dq) = surrogate_from after_ed s.
Proof.
  induction s as [| c s IH]; intros after_ed.
  - destruct after_ed; reflexivity.
  - cbn [append surrogate_from]. now rewrite IH.
Qed.

Lemma encodable_basestring (s : string) :
  encodable (encode_basestring s) = encodable s.
Proof.
  unfold encodable, has_surrogate, encode_basestring. f_equal.
  change (surrogate_from false (dq ++ escape s ++ dq))
    with (surrogate_from false (escape s ++ dq)).
  now rewrite surrogate_from_escape, surrogate_from_quote.
Qed.

Lemma encodable_value (v : option string) :
  encodable (encode_value v) = encodable_opt v.
Proof. destruct v as [s |]; [apply encodable_basestring | reflexivity]. Qed.

Lemma surrogate_from_spaces (n : nat) (k : string) :
  surrogate_from false (spaces n ++ k) = surrogate_from false k.
Proof. induction n as [| n IH]; [reflexivity | exact IH]. Qed.

Lemma encodable_newline_indent (level : nat) :
  encodable (newline_indent level) = true.
Proof.
  unfold encodable, has_surrogate, newline_indent.
  rewrite <- (string_app_nil_r (spaces (2 * level))).
  change (surrogate_from false (String newline (spaces (2 * level) ++ EmptyString)))
    with (surrogate_from false (spaces (2 * level) ++ EmptyString)).
  now rewrite surrogate_from_spaces.
Qed.

Lemma encodable_separator (level : nat) :
  encodable ("," ++ newline_indent level) = true.
Proof. exact (encodable_newline_indent level). Qed.

Lemma encodable_opening (level : nat) :
  encodable ("[" ++ newline_indent level) = true.
Proof. exact (encodable_newline_indent level). Qed.

(** The chunks of a record encode when its strings do. *)
Lemma encodable_dict_chunks (level : nat) (job : JobListing) :
  forallb encodable (dict_chunks level (asdict job)) = encodable_job job.
Proof.
  unfold asdict, dict_chunks, member_chunks.
  cbn [more_member_chunks member_chunks app forallb fst snd].
  rewrite !encodable_value, !encodable_separator, !encodable_newline_indent.
  unfold encodable_job. cbn [encodable_opt andb].
  change (encodable (encode_basestring "title")) with true.
  change (encodable (encode_basestring "company")) with true.
  change (encodable (encode_basestring "location")) with true.
  change (encodable (encode_basestring "description")) with true.
  change (encodable (encode_basestring "url")) with true.
  change (encodable (encode_basestring "date_posted")) with true.
  change (encodable (encode_basestring "experience_level")) with true.
  change (encodable (encode_basestring "source")) with true.
  change (encodable "{") with true. change (encodable "}") with true.
  change (encodable ": ") with true.
  cbn [andb]. rewrite andb_true_r, !andb_assoc. reflexivity.
Qed.

Lemma encodable_more_elements (level : nat) (jobs : list JobListing)
  (tail : list string) :
  forallb encodable
    (more_element_chunks level ("," ++ newline_indent level) (map asdict jobs)
     ++ tail)
  = encodable_jobs jobs && forallb encodable tail.
Proof.
  induction jobs as [| job jobs IH]; [reflexivity |].
  cbn [map more_element_chunks app forallb encodable_jobs].
  rewrite encodable_separator. cbn [andb].
  rewrite <- app_assoc, forallb_app, encodable_dict_chunks, IH.
  unfold encodable_jobs. now rewrite andb_assoc.
Qed.

Lemma encodable_json_chunks (jobs : list JobListing) :
  forallb encodable (json_chunks (map asdict jobs)) = encodable_jobs jobs.
Proof.
  unfold json_chunks. destruct jobs as [| job jobs]; [reflexivity |].
  cbn [map list_chunks forallb encodable_jobs]. rewrite encodable_opening.
  cbn [andb]. rewrite forallb_app, encodable_dict_chunks, encodable_more_elements.
  assert (Htail : forallb encodable [newline_indent 0; "]"] = true)
    by reflexivity.
  rewrite Htail. unfold encodable_jobs. now rewrite !andb_true_r.
Qed.

(* ================================================================= *)
(** ** The aggregator *)

Section AggregatorFacts.

Context {tag : Type} {L : Libraries tag}.

Lemma bind_return {A B : Type} (m : M tag A) (k : A -> M tag B)
  (w w1 : World tag) (a : A) :
  m w = (Return a, w1) -> bind m k w = k a w1.
Proof. intros H. unfold bind. now rewrite H. Qed.

(** The name [save_to_json] writes under. *)
Lemma save_to_json_name (self : Scraper) (filename : option string)
  (w : World tag) :
  save_to_json self filename w =
  (json_dump (map asdict (jobs self))
     (match filename with Some f => f | None => backup_name w end) ;;;
   log INFO) w.
Proof. destruct filename; reflexivity. Qed.

(** The three ways [save_to_json] ends: the file cannot be opened; every
    string encodes; one does not. *)
Lemma save_to_json_refused_at (self : Scraper) (filename : option string)
  (w : World tag) :
  writable w (match filename with Some f => f | None => backup_name w end)
    = false ->
  save_to_json self filename w = (Raise OSError, w).
Proof.
  intros Hno. rewrite save_to_json_name. unfold bind, json_dump.
  now rewrite Hno.
Qed.

Lemma save_to_json_writes_at (self : Scraper) (filename : option string)
  (w : World tag) :
  let name := match filename with Some f => f | None => backup_name w end in
  writable w name = true ->
  encodable_jobs (jobs self) = true ->
  save_to_json self filename w =
  (Return tt,
   mkWorld (web w) (requests w) (now w) (writable w)
     ((name, json_dumps (map asdict (jobs self))) :: files w)
     (trace w ++ [EvWrite name; EvLog INFO])).
Proof.
  intros name Hok Henc. rewrite save_to_json_name. fold name.
  unfold bind, json_dump. rewrite Hok.
  rewrite write_chunks_complete by (now rewrite encodable_json_chunks).
  rewrite glue_json_chunks. unfold log, emit. cbn. now rewrite <- app_assoc.
Qed.

Lemma save_to_json_truncates_at (self : Scraper) (filename : option string)
  (w : World tag) :
  let name := match filename with Some f => f | None => backup_name w end in
  writable w name = true ->
  encodable_jobs (jobs self) = false ->
  exists text rest,
    save_to_json self filename w =
    (Raise UnicodeEncodeError,
     mkWorld (web w) (requests w) (now w) (writable w)
       ((name, text) :: files w) (trace w ++ [EvWrite name])) /\
    json_dumps (map asdict (jobs self)) = (text ++ rest)%string /\
    rest <> EmptyString.
Proof.
  intros name Hok Henc. rewrite save_to_json_name. fold name.
  unfold bind, json_dump. rewrite Hok.
  destruct (write_chunks_truncated (json_chunks (map asdict (jobs self)))
              EmptyString) as (text & rest & Hw & Hg & Hne).
  { now rewrite encodable_json_chunks. }
  rewrite Hw. exists text, rest. rewrite <- glue_json_chunks.
  split; [reflexivity | split; [exact Hg | exact Hne]].
Qed.

Lemma save_to_json_writes (self : Scraper) (w : World tag) :
  writable w (backup_name w) = true ->
  encodable_jobs (jobs self) = true ->
  save_to_json self None w =
  (Return tt,
   mkWorld (web w) (requests w) (now w) (writable w)
     ((backup_name w, json_dumps (map asdict (jobs self))) :: files w)
     (trace w ++ [EvWrite (backup_name w); EvLog INFO])).
Proof. exact (save_to_json_writes_at self None w). Qed.

Lemma create_sample_jobs_encode : encodable_jobs create_sample_jobs = true.
Proof. reflexivity. Qed.


(** The end of a run, from the lists of the two scraping calls on: the
    accumulated list, or the samples when it is empty, is dumped and
    returned. *)
Lemma run_scraping_tail (self : Scraper) (w w1 w2 : World tag)
  (indeed_jobs park_jobs : list JobListing) :
  (log INFO ;;; scrape_indeed) w = (Return indeed_jobs, w1) ->
  scrape_county_parks w1 = (Return park_jobs, w2) ->
  let found := jobs self ++ indeed_jobs ++ park_jobs in
  let final := match found with [] => create_sample_jobs | _ :: _ => found end in
  exists w',
    requests w' = requests w2 /\
    if writable w2 (backup_name w2) then
      if encodable_jobs final then
        run_scraping self w
          = (Return (final, mkScraper (email_address self) final), w') /\
        files w' = (backup_name w2, json_dumps (map asdict final)) :: files w2
      else
        run_scraping self w = (Raise UnicodeEncodeError, w') /\
        exists text rest,
          files w' = (backup_name w2, text) :: files w2 /\
          json_dumps (map asdict final) = (text ++ rest)%string /\
          rest <> EmptyString
    else
      run_scraping self w = (Raise OSError, w') /\ files w' = files w2.
Proof.
  intros Hi Hp found final.
  assert (Hstart : forall r w',
             (save_to_json (mkScraper (email_address self) final) None ;;;
              log INFO ;;;
              ret (final, mkScraper (email_address self) final))
               (if (length found =? 0)%nat then snd (log INFO w2) else w2)
             = (r, w') ->
             run_scraping self w = (r, w')).
  { intros r w' Htail. unfold run_scraping.
    unfold bind at 1. unfold bind at 1 in Hi.
    destruct (log INFO w) as [[[] | e] w0]; [| discriminate].
    rewrite (bind_return _ _ _ _ _ Hi), (bind_return _ _ _ _ _ Hp).
    unfold jobs_extend. cbn [jobs email_address].
    replace ((jobs self ++ indeed_jobs) ++ park_jobs) with found
      by (unfold found; now rewrite app_assoc).
    revert Htail. unfold final. clear final. clearbody found.
    destruct found as [| job found']; cbn [length Nat.eqb app]; intros Htail.
    - unfold bind at 1 2, log at 1, emit, ret. exact Htail.
    - unfold bind at 1, ret at 1. exact Htail. }
  set (w3 := if (length found =? 0)%nat then snd (log INFO w2) else w2) in *.
  assert (Hw3 : web w3 = web w2 /\ requests w3 = requests w2 /\
                now w3 = now w2 /\ writable w3 = writable w2 /\
                files w3 = files w2)
    by (unfold w3; destruct (length found =? 0)%nat; repeat split).
  destruct Hw3 as (_ & R3 & N3 & D3 & F3).
  assert (Hname : backup_name w3 = backup_name w2)
    by (unfold backup_name; now rewrite N3).
  assert (Hwr : writable w3 (backup_name w3) = writable w2 (backup_name w2))
    by (now rewrite D3, Hname).
  clearbody w3 final.
  destruct (writable w2 (backup_name w2)) eqn:Hok.
  - destruct (encodable_jobs final) eqn:Henc.
    + eexists. split; [| split; [apply Hstart |]].
      2:{ unfold bind at 1.
          rewrite (save_to_json_writes
                     (mkScraper (email_address self) final) w3 Hwr Henc).
          unfold bind, log, emit, ret.
          cbn [web requests now writable files trace]. reflexivity. }
      * cbn [requests]. exact R3.
      * cbn [files]. now rewrite Hname, F3.
    + destruct (save_to_json_truncates_at
                  (mkScraper (email_address self) final) None w3 Hwr Henc)
        as (text & rest & Hsave & Htext & Hne).
      eexists. split; [| split; [apply Hstart |]].
      2:{ unfold bind at 1. rewrite Hsave. reflexivity. }
      * cbn [requests]. exact R3.
      * exists text, rest. cbn [files]. rewrite Hname, F3. cbn [jobs] in Htext.
        split; [reflexivity | split; [exact Htext | exact Hne]].
  - exists w3. split; [exact R3 |]. split; [apply Hstart | exact F3].
    unfold bind at 1.
    rewrite (save_to_json_refused_at _ None w3 Hwr). reflexivity.
Qed.

(** What a run returns, given what the two scraping calls return: the
    accumulated list, or the samples when it is empty; the same list is
    what the backup file holds. *)
Lemma run_scraping_result (self : Scraper) (w w1 w2 : World tag)
  (indeed_jobs park_jobs : list JobListing) :
  (log INFO ;;; scrape_indeed) w = (Return indeed_jobs, w1) ->
  scrape_county_parks w1 = (Return park_jobs, w2) ->
  writable w2 (backup_name w2) = true ->
  let found := jobs self ++ indeed_jobs ++ park_jobs in
  let final := match found with [] => create_sample_jobs | _ :: _ => found end in
  encodable_jobs final = true ->
  exists w',
    run_scraping self w = (Return (final, mkScraper (email_address self) final), w') /\
    files w' = (backup_name w2, json_dumps (map asdict final)) :: files w2.
Proof.
  intros Hi Hp Hok found final Henc.
  destruct (run_scraping_tail self w w1 w2 indeed_jobs park_jobs Hi Hp)
    as (w' & _ & Hrun).
  fold found in Hrun. fold final in Hrun. rewrite Hok, Henc in Hrun.
  now exists w'.
Qed.

(** C3.  When the list accumulated from the sources is empty, the run
    returns exactly the five sample records of [create_sample_jobs], in
    their order. *)
Theorem run_scraping_empty_gives_samples (self : Scraper) (w w1 w2 : World tag)
  (indeed_jobs park_jobs : list JobListing) :
  (log INFO ;;; scrape_indeed) w = (Return indeed_jobs, w1) ->
  scrape_county_parks w1 = (Return park_jobs, w2) ->
  writable w2 (backup_name w2) = true ->
  jobs self ++ indeed_jobs ++ park_jobs = [] ->
  exists self' w',
    run_scraping self w = (Return (create_sample_jobs, self'), w') /\
    jobs self' = create_sample_jobs /\
    map title create_sample_jobs =
      ["Park Ranger - Entry Level"; "Environmental Specialist";
       "Recreation Coordinator"; "Wildlife Biologist Assistant";
       "Outdoor Education Instructor"].
Proof.
  intros Hi Hp Hok Hempty.
  pose proof (run_scraping_result self w w1 w2 indeed_jobs park_jobs Hi Hp Hok)
    as Hrun.
  cbv zeta in Hrun. rewrite Hempty in Hrun.
  destruct (Hrun create_sample_jobs_encode) as (w' & Hrun' & _).
  exists (mkScraper (email_address self) create_sample_jobs), w'.
  repeat split. exact Hrun'.
Qed.


End AggregatorFacts.

(* ================================================================= *)
(** ** The digest builder *)

Section DictFacts.

Implicit Types (d : SourceDict) (k s : string) (v : list JobListing).

Lemma dict_contains_keys d k :
  dict_contains d k = existsb (fun x => (x =? k)%string) (map fst d).
Proof.
  unfold dict_contains. induction d as [| [k0 v0] d IH]; cbn; [reflexivity |].
  now rewrite IH.
Qed.

Lemma dict_set_keys d k v :
  map fst (dict_set d k v) =
  if dict_contains d k then map fst d else map fst d ++ [k].
Proof.
  unfold dict_contains. induction d as [| [k0 v0] d IH]; cbn; [reflexivity |].
  destruct (k0 =? k)%string; cbn; [reflexivity |].
  rewrite IH. now destruct (existsb _ d).
Qed.

Lemma dict_get_set d k v s :
  dict_get (dict_set d k v) s = if (k =? s)%string then v else dict_get d s.
Proof.
  induction d as [| [k0 v0] d IH]; cbn.
  - now destruct (k =? s)%string.
  - destruct (k0 =? k)%string eqn:Hk; cbn.
    + apply String.eqb_eq in Hk. subst k0.
      now destruct (k =? s)%string.
    + rewrite IH. destruct (k0 =? s)%string eqn:Hs; [| reflexivity].
      apply String.eqb_eq in Hs. subst k0. now rewrite String.eqb_sym, Hk.
Qed.

Lemma dict_contains_set d k v :
  dict_contains (dict_set d k v) k = true.
Proof.
  unfold dict_contains.
  induction d as [| [k0 v0] d IH]; cbn [dict_set existsb fst orb].
  - now rewrite String.eqb_refl.
  - destruct (k0 =? k)%string eqn:Hk; cbn [existsb fst]; rewrite Hk;
      [reflexivity | exact IH].
Qed.

Lemma dict_get_absent d k : dict_contains d k = false -> dict_get d k = [].
Proof.
  unfold dict_contains. induction d as [| [k0 v0] d IH]; cbn; [reflexivity |].
  destruct (k0 =? k)%string; [discriminate | exact IH].
Qed.

Lemma group_step_keys d job :
  map fst (group_step d job) =
  if dict_contains d (source job) then map fst d
  else map fst d ++ [source job].
Proof.
  unfold group_step. destruct (dict_contains d (source job)) eqn:Hin; cbn [negb].
  - now rewrite dict_set_keys, Hin.
  - rewrite dict_set_keys, dict_contains_set, dict_set_keys, Hin. reflexivity.
Qed.

Lemma group_step_get d job s :
  dict_get (group_step d job) s =
  if (source job =? s)%string then dict_get d s ++ [job] else dict_get d s.
Proof.
  unfold group_step. destruct (dict_contains d (source job)) eqn:Hin; cbn [negb].
  - rewrite dict_get_set. destruct (source job =? s)%string eqn:Hs; [| reflexivity].
    apply String.eqb_eq in Hs. now subst s.
  - rewrite !dict_get_set, String.eqb_refl.
    destruct (source job =? s)%string eqn:Hs; [| reflexivity].
    apply String.eqb_eq in Hs. subst s. now rewrite (dict_get_absent _ _ Hin).
Qed.

(** The keys of the dict the loop builds: those it started with, then the
    new sources in the order of their first record. *)
Lemma group_fold_keys (jobs : list JobListing) :
  forall d,
    map fst (fold_left group_step jobs d) =
    map fst d ++ first_seen_from (map fst d) (map source jobs).
Proof.
  induction jobs as [| job rest IH]; intros d; cbn [fold_left map first_seen_from].
  - now rewrite app_nil_r.
  - rewrite IH, group_step_keys, <- dict_contains_keys.
    destruct (dict_contains d (source job)); [reflexivity |].
    now rewrite <- app_assoc.
Qed.

(** The value under a key: what was there, then the records of that source
    in input order. *)
Lemma group_fold_get (jobs : list JobListing) :
  forall d s,
    dict_get (fold_left group_step jobs d) s = dict_get d s ++ jobs_of_source s jobs.
Proof.
  induction jobs as [| job rest IH]; intros d s; cbn [fold_left jobs_of_source filter].
  - now rewrite app_nil_r.
  - fold (jobs_of_source s rest). rewrite IH, group_step_get.
    destruct (source job =? s)%string; [| reflexivity].
    now rewrite <- app_assoc.
Qed.

Lemma first_seen_from_In (sources : list string) :
  forall seen s,
    In s (first_seen_from seen sources) <-> In s sources /\ ~ In s seen.
Proof.
  induction sources as [| x rest IH]; intros seen s; cbn [first_seen_from].
  - cbn. tauto.
  - destruct (existsb (fun y => (y =? x)%string) seen) eqn:Hseen.
    + apply existsb_exists in Hseen as (y & Hy & Heq).
      apply String.eqb_eq in Heq. subst y. rewrite IH. cbn.
      split; [tauto |]. intros [[<- | Hin] Hnot]; [contradiction | tauto].
    + assert (Hx : ~ In x seen).
      { intros Hin. apply Bool.not_true_iff_false in Hseen. apply Hseen.
        apply existsb_exists. exists x. split; [exact Hin | apply String.eqb_refl]. }
      cbn [In]. rewrite IH, in_app_iff. cbn [In].
      destruct (string_dec x s) as [-> | Hne]; [tauto |].
      split.
      * intros [Heq | (Hin & Hnot)]; [contradiction | tauto].
      * intros ([Heq | Hin] & Hnot); [contradiction |].
        right. split; [exact Hin |]. intros [H | [H | []]]; tauto.
Qed.

Lemma first_seen_from_NoDup (sources : list string) :
  forall seen, NoDup (first_seen_from seen sources).
Proof.
  induction sources as [| x rest IH]; intros seen; cbn [first_seen_from].
  - constructor.
  - destruct (existsb (fun y => (y =? x)%string) seen); [apply IH |].
    constructor; [| apply IH].
    rewrite first_seen_from_In, in_app_iff. cbn. tauto.
Qed.

Lemma dict_get_of_entry d k v :
  NoDup (map fst d) -> In (k, v) d -> dict_get d k = v.
Proof.
  induction d as [| [k0 v0] d IH]; cbn; [tauto |].
  intros Hnd [[= -> ->] | Hin].
  - now rewrite String.eqb_refl.
  - inversion Hnd as [| ? ? Hnot Hnd']; subst.
    destruct (k0 =? k)%string eqn:Hk; [| now apply IH].
    apply String.eqb_eq in Hk. subst k0. exfalso. apply Hnot.
    apply in_map_iff. now exists (k, v).
Qed.

Lemma total_jobs_from d :
  forall acc : nat,
    fold_left (fun acc entry => acc + length (snd entry)) d acc
    = acc + total_jobs d.
Proof.
  unfold total_jobs. induction d as [| e d IH]; intros acc; cbn [fold_left].
  - lia.
  - rewrite (IH (acc + _)), (IH (0 + _)). lia.
Qed.

Lemma total_jobs_cons (entry : string * list JobListing) d :
  total_jobs (entry :: d) = length (snd entry) + total_jobs d.
Proof.
  unfold total_jobs at 1. cbn [fold_left]. now rewrite total_jobs_from.
Qed.

Lemma total_jobs_set d k v :
  total_jobs (dict_set d k v) + length (dict_get d k) = total_jobs d + length v.
Proof.
  induction d as [| [k0 v0] d IH]; cbn [dict_set dict_get].
  - rewrite !total_jobs_cons. cbn. lia.
  - destruct (k0 =? k)%string; rewrite !total_jobs_cons; cbn [snd]; lia.
Qed.

Lemma total_jobs_step d job :
  total_jobs (group_step d job) = S (total_jobs d).
Proof.
  unfold group_step. destruct (dict_contains d (source job)) eqn:Hin; cbn [negb].
  - pose proof (total_jobs_set d (source job) (dict_get d (source job) ++ [job])) as H.
    rewrite length_app in H. cbn in H. lia.
  - pose proof (total_jobs_set (dict_set d (source job) []) (source job)
                  (dict_get (dict_set d (source job) []) (source job) ++ [job])) as H.
    pose proof (total_jobs_set d (source job) []) as H0.
    rewrite (dict_get_absent _ _ Hin) in H0.
    rewrite length_app in H. cbn in H, H0. lia.
Qed.

Lemma total_jobs_fold (jobs : list JobListing) :
  forall d, total_jobs (fold_left group_step jobs d) = total_jobs d + length jobs.
Proof.
  induction jobs as [| job rest IH]; intros d; cbn [fold_left length]; [lia |].
  rewrite IH, total_jobs_step. lia.
Qed.

End DictFacts.

Lemma fold_left_append {A : Type} (f : A -> string) (l : list A) :
  forall html : string,
    fold_left (fun html x => html ++ f x)%string l html
    = (html ++ glue (map f l))%string.
Proof.
  induction l as [| x l IH]; intros html; cbn [fold_left map glue fold_right].
  - now rewrite string_app_nil_r.
  - rewrite IH. fold (glue (map f l)). now rewrite string_app_assoc.
Qed.

(** The text of a section: its header with the source and the number of
    its records, the blocks of the records, the closing tag. *)
Lemma html_section_text (s : string) (js : list JobListing) :
  html_section (s, js) =
  (html_section_open s (str_of_nat (length js))
   ++ glue (map html_job_block js) ++ "</div>")%string.
Proof.
  unfold html_section. cbn [fst snd].
  now rewrite fold_left_append, string_app_assoc.
Qed.

(** The digest is the head with the total, the sections of the dict in its
    order, and the foot. *)
Lemma generate_html_text (d : SourceDict) (date : string) :
  _generate_html_content d date =
  (html_head date (str_of_nat (total_jobs d))
   ++ glue (map html_section d) ++ html_foot)%string.
Proof.
  unfold _generate_html_content.
  now rewrite fold_left_append, string_app_assoc.
Qed.


(* ================================================================= *)
(** ** The persister: reading back what was written *)

(** Reading an escaped character gives the character back. *)
Lemma scan_escape_char (c : ascii) (k : string) :
  scan_string (escape_char c ++ k) = cons_char c (scan_string k).
Proof.
  destruct c as [[] [] [] [] [] [] [] []]; reflexivity.
Qed.

Lemma scan_escape (s rest : string) :
  scan_string (escape s ++ String dquote rest) = Some (s, rest).
Proof.
  induction s as [| c s IH]; [reflexivity |].
  cbn [escape]. rewrite string_app_assoc, scan_escape_char, IH. reflexivity.
Qed.

Lemma scan_basestring (s rest : string) :
  exists body,
    (encode_basestring s ++ rest)%string = String dquote body /\
    scan_string body = Some (s, rest).
Proof.
  exists (escape s ++ String dquote rest)%string. split.
  - unfold encode_basestring, dq. cbn [append].
    now rewrite string_app_assoc.
  - apply scan_escape.
Qed.

Lemma parse_encode_value (v : option string) (rest : string) :
  parse_value (encode_value v ++ rest) = Some (v, rest).
Proof.
  destruct v as [s |]; [| reflexivity].
  cbn [encode_value]. destruct (scan_basestring s rest) as (body & -> & Hscan).
  unfold parse_value. change (dquote =? dquote)%char with true.
  cbn. now rewrite Hscan.
Qed.

Lemma skip_ws_nonblank (c : ascii) (r : string) :
  is_ws c = false -> skip_ws (String c r) = String c r.
Proof. intros H. cbn [skip_ws]. now rewrite H. Qed.

Lemma skip_ws_blank (c : ascii) (r : string) :
  is_ws c = true -> skip_ws (String c r) = skip_ws r.
Proof. intros H. cbn [skip_ws]. now rewrite H. Qed.

Lemma skip_ws_spaces (n : nat) (s : string) :
  skip_ws (spaces n ++ s) = skip_ws s.
Proof. induction n as [| n IH]; [reflexivity | exact IH]. Qed.

Lemma skip_ws_indent (level : nat) (s : string) :
  skip_ws (newline_indent level ++ s) = skip_ws s.
Proof. unfold newline_indent. cbn [append skip_ws]. apply skip_ws_spaces. Qed.

Lemma skip_ws_encode_value (v : option string) (rest : string) :
  skip_ws (encode_value v ++ rest) = (encode_value v ++ rest)%string.
Proof. destruct v; reflexivity. Qed.

(** The text of one member, ready to be read: the quoted key, the colon
    and the value. *)
Lemma encode_member_text (key : string) (v : option string) (tail : string) :
  (encode_member (key, v) ++ tail)%string =
  String dquote
    (escape key ++ String dquote (String ":" (String " " (encode_value v ++ tail)))).
Proof.
  unfold encode_member, encode_basestring, dq. cbn [fst snd append].
  rewrite !string_app_assoc. reflexivity.
Qed.

(** One turn of [parse_members] on the text of a member. *)
Lemma parse_members_step (fuel level : nat) (key : string) (v : option string)
  (tail : string) :
  parse_members (S fuel) (newline_indent level ++ encode_member (key, v) ++ tail) =
  match skip_ws tail with
  | String "," r =>
      match parse_members fuel r with
      | Some (members, r') => Some ((key, v) :: members, r')
      | None => None
      end
  | String "}" r => Some ([(key, v)], r)
  | _ => None
  end.
Proof.
  cbn [parse_members]. rewrite skip_ws_indent, encode_member_text.
  rewrite skip_ws_nonblank by reflexivity.
  change (dquote =? dquote)%char with true. cbv beta iota.
  rewrite scan_escape. cbv beta iota.
  rewrite skip_ws_nonblank by reflexivity. cbv beta iota.
  rewrite skip_ws_blank by reflexivity.
  rewrite skip_ws_encode_value, parse_encode_value. reflexivity.
Qed.

Lemma join_members_head (sep : string) (key : string) (v : option string)
  (d : list (string * option string)) (tail : string) :
  exists body,
    (join sep (map encode_member ((key, v) :: d)) ++ tail)%string
    = String dquote body.
Proof.
  destruct d as [| m d]; cbn [map join].
  - rewrite encode_member_text. eexists. reflexivity.
  - rewrite string_app_assoc, encode_member_text. eexists. reflexivity.
Qed.

(** [parse_members] reads back the members [encode_dict] writes. *)
Lemma parse_members_text (level0 level1 : nat) (rest : string) :
  forall (d : list (string * option string)) (fuel : nat),
    d <> [] -> length d <= fuel ->
    parse_members fuel
      (newline_indent level1
       ++ join ("," ++ newline_indent level1) (map encode_member d)
       ++ newline_indent level0 ++ String "}" rest)
    = Some (d, rest).
Proof.
  induction d as [| [key v] d IH]; intros fuel Hne Hfuel; [contradiction |].
  destruct fuel as [| fuel]; [cbn in Hfuel; lia |].
  destruct d as [| m d'].
  - cbn [map join]. rewrite parse_members_step, skip_ws_indent.
    rewrite skip_ws_nonblank by reflexivity. reflexivity.
  - cbn [map join] in *. rewrite !string_app_assoc.
    rewrite parse_members_step. cbn [append].
    rewrite skip_ws_nonblank by reflexivity. cbv beta iota.
    rewrite IH; [reflexivity | discriminate | cbn in *; lia].
Qed.

Lemma parse_object_text (level : nat) (d : list (string * option string))
  (rest : string) (fuel : nat) :
  length d <= fuel ->
  parse_object fuel (encode_dict level d ++ rest) = Some (d, rest).
Proof.
  intros Hfuel. destruct d as [| [key v] d']; [reflexivity |].
  unfold parse_object, encode_dict. cbn [append].
  rewrite skip_ws_nonblank by reflexivity. cbv beta iota.
  rewrite !string_app_assoc. cbn [append].
  rewrite skip_ws_indent.
  destruct (join_members_head (String "," (newline_indent (S level))) key v d'
              (newline_indent level ++ String "}" rest)) as [body Hbody].
  rewrite Hbody. rewrite skip_ws_nonblank by reflexivity.
  change (match String dquote body with
          | String "}" r1 => Some ([], r1)
          | _ => ?x
          end) with x.
  rewrite <- Hbody.
  apply parse_members_text; [discriminate | exact Hfuel].
Qed.

Lemma parse_object_indent (fuel level : nat) (s : string) :
  parse_object fuel (newline_indent level ++ s) = parse_object fuel s.
Proof.
  unfold parse_object. rewrite skip_ws_indent. reflexivity.
Qed.

Lemma encode_dict_head (level : nat) (d : list (string * option string))
  (tail : string) :
  exists body, (encode_dict level d ++ tail)%string = String "{" body.
Proof. destruct d; eexists; reflexivity. Qed.

(** [parse_elements] reads back the elements [encode_list] writes, when
    the fuel covers the number of elements and the members of each. *)
Lemma parse_elements_text (level0 level1 : nat) (rest : string) :
  forall (l : list (list (string * option string))) (fuel : nat),
    l <> [] ->
    (forall d, In d l -> length d + length l <= fuel) ->
    parse_elements fuel
      (newline_indent level1
       ++ join ("," ++ newline_indent level1) (map (encode_dict level1) l)
       ++ newline_indent level0 ++ String "]" rest)
    = Some (l, rest).
Proof.
  induction l as [| d l IH]; intros fuel Hne Hfuel; [contradiction |].
  pose proof (Hfuel d (or_introl eq_refl)) as Hd. cbn [length] in Hd.
  destruct fuel as [| fuel]; [lia |].
  cbn [parse_elements]. rewrite parse_object_indent.
  destruct l as [| d' l'].
  - cbn [map join]. rewrite parse_object_text by lia.
    rewrite skip_ws_indent, skip_ws_nonblank by reflexivity. reflexivity.
  - cbn [map join] in *. rewrite !string_app_assoc.
    rewrite parse_object_text by lia. cbn [append].
    rewrite skip_ws_nonblank by reflexivity. cbv beta iota.
    rewrite IH; [reflexivity | discriminate |].
    intros d0 Hd0. specialize (Hfuel d0 (or_intror Hd0)). cbn [length] in *. lia.
Qed.

Lemma list_sum_cons (n : nat) (l : list nat) :
  list_sum (n :: l) = n + list_sum l.
Proof. reflexivity. Qed.

Lemma join_length (sep : string) (chunks : list string) :
  list_sum (map String.length chunks) <= String.length (join sep chunks).
Proof.
  induction chunks as [| c chunks IH]; [cbn; lia |].
  destruct chunks as [| c' chunks'].
  - cbn [join map]. rewrite list_sum_cons. cbn [list_sum fold_right]. lia.
  - change (join sep (c :: c' :: chunks'))
      with (c ++ sep ++ join sep (c' :: chunks'))%string.
    change (map String.length (c :: c' :: chunks'))
      with (String.length c :: map String.length (c' :: chunks')).
    rewrite list_sum_cons, !string_length_app. lia.
Qed.

Lemma encode_member_length (m : string * option string) :
  1 <= String.length (encode_member m).
Proof. unfold encode_member, encode_basestring, dq. cbn. lia. Qed.

Lemma encode_dict_length (level : nat) (d : list (string * option string)) :
  S (length d) <= String.length (encode_dict level d).
Proof.
  destruct d as [| m d']; [cbn; lia |].
  unfold encode_dict. cbn [append String.length].
  rewrite !string_length_app.
  pose proof (join_length (String "," (newline_indent (S level)))
                (map encode_member (m :: d'))) as Hjoin.
  assert (Hsum : length (m :: d') <= list_sum (map String.length (map encode_member (m :: d')))).
  { generalize (m :: d'). intros l. induction l as [| x l IHl]; cbn [length map]; rewrite ?list_sum_cons; [lia |].
    pose proof (encode_member_length x). lia. }
  cbn [append] in *. lia.
Qed.

Lemma json_dumps_text (l : list (list (string * option string))) :
  l <> [] ->
  json_dumps l =
  String "[" (newline_indent 1
              ++ join ("," ++ newline_indent 1) (map (encode_dict 1) l)
              ++ newline_indent 0 ++ String "]" EmptyString).
Proof. destruct l; [contradiction | reflexivity]. Qed.

Lemma encode_list_length (l : list (list (string * option string))) :
  forall d, In d l -> length d + length l <= String.length (json_dumps l).
Proof.
  intros d Hin. destruct l as [| d0 l0] eqn:Hl; [contradiction |]. rewrite <- Hl in *.
  assert (Hsum : length d + length l
                 <= list_sum (map String.length (map (encode_dict 1) l))).
  { clear Hl. induction l as [| x l IHl]; [contradiction |].
    cbn [length map]; rewrite ?list_sum_cons. pose proof (encode_dict_length 1 x) as Hx.
    destruct Hin as [-> | Hin].
    - assert (length l <= list_sum (map String.length (map (encode_dict 1) l))).
      { clear. induction l as [| y l IHl]; cbn [length map]; rewrite ?list_sum_cons; [lia |].
        pose proof (encode_dict_length 1 y). lia. }
      lia.
    - specialize (IHl Hin). lia. }
  pose proof (join_length ("," ++ newline_indent 1) (map (encode_dict 1) l)) as Hjoin.
  rewrite json_dumps_text by (rewrite Hl; discriminate).
  cbn [String.length]. rewrite !string_length_app. lia.
Qed.

(** Decoding the text of [json.dump] gives the encoded data back. *)
Lemma json_loads_dumps (l : list (list (string * option string))) :
  json_loads (json_dumps l) = Some l.
Proof.
  destruct l as [| d l'] eqn:Hl; [reflexivity |]. rewrite <- Hl.
  assert (Hne : l <> []) by (rewrite Hl; discriminate).
  pose proof (encode_list_length l) as Hfuel.
  unfold json_loads. cbv zeta.
  set (fuel := S (String.length (json_dumps l))).
  assert (Hfuel' : forall d0, In d0 l -> length d0 + length l <= fuel)
    by (intros d0 Hd0; specialize (Hfuel d0 Hd0); unfold fuel; lia).
  clearbody fuel. clear Hfuel.
  rewrite (json_dumps_text l Hne).
  rewrite skip_ws_nonblank by reflexivity. cbv beta iota.
  rewrite skip_ws_indent.
  destruct (encode_dict_head 1 d
              (match l' with
               | [] => EmptyString
               | _ :: _ => "," ++ newline_indent 1
                           ++ join ("," ++ newline_indent 1) (map (encode_dict 1) l')
               end ++ newline_indent 0 ++ String "]" EmptyString)) as [body Hbody].
  assert (Hhead : (join ("," ++ newline_indent 1) (map (encode_dict 1) l)
                   ++ newline_indent 0 ++ String "]" EmptyString)%string
                  = String "{" body).
  { rewrite <- Hbody, Hl. cbn [map join]. destruct l'; cbn [map join].
    - reflexivity.
    - now rewrite !string_app_assoc. }
  rewrite Hhead. rewrite skip_ws_nonblank by reflexivity.
  change (match String "{" body with
          | String "]" r1 => ?a
          | _ => ?b
          end) with b.
  rewrite <- Hhead.
  rewrite parse_elements_text; [reflexivity | exact Hne | exact Hfuel'].
Qed.

Lemma JobListing_of_asdict (job : JobListing) :
  JobListing_of_dict (asdict job) = Some job.
Proof. destruct job. reflexivity. Qed.

Lemma all_some_asdict (jobs : list JobListing) :
  all_some (map JobListing_of_dict (map asdict jobs)) = Some jobs.
Proof.
  induction jobs as [| job jobs IH]; [reflexivity |].
  cbn [map all_some]. now rewrite JobListing_of_asdict, IH.
Qed.

Lemma load_jobs_dumps (records : list JobListing) :
  load_jobs (json_dumps (map asdict records)) = Some records.
Proof.
  unfold load_jobs. rewrite json_loads_dumps. apply all_some_asdict.
Qed.

Section PersisterFacts.

Context {tag : Type} {L : Libraries tag}.


End PersisterFacts.

(* ================================================================= *)
(** ** A run without live records *)

Section ZeroResults.

Context {tag : Type} {L : Libraries tag}.

(** C9 (as amended).  When no source yields a record, a fresh scraper
    returns exactly the five sample records, and the digest built from them
    has five source sections, one per sample record in the order of the
    samples, each showing one job. *)
Theorem zero_results_digest (email date : string) (w w1 w2 : World tag) :
  (log INFO ;;; scrape_indeed) w = (Return [], w1) ->
  scrape_county_parks w1 = (Return [], w2) ->
  writable w2 (backup_name w2) = true ->
  exists self' w',
    run_scraping (OutdoorJobScraper email) w
      = (Return (create_sample_jobs, self'), w') /\
    map title create_sample_jobs =
      ["Park Ranger - Entry Level"; "Environmental Specialist";
       "Recreation Coordinator"; "Wildlife Biologist Assistant";
       "Outdoor Education Instructor"] /\
    map (fun entry => (fst entry, map title (snd entry)))
        (group_by_source create_sample_jobs) =
      [("Hillsborough County Parks", ["Park Ranger - Entry Level"]);
       ("Pinellas County Parks", ["Environmental Specialist"]);
       ("Tampa Parks & Recreation", ["Recreation Coordinator"]);
       ("Florida State Parks", ["Wildlife Biologist Assistant"]);
       ("Indeed.com", ["Outdoor Education Instructor"])] /\
    length (group_by_source create_sample_jobs) = 5 /\
    Forall (fun entry => length (snd entry) = 1)
           (group_by_source create_sample_jobs) /\
    _generate_html_content (group_by_source create_sample_jobs) date =
      (html_head date "5"
       ++ glue (map (fun job => html_section_open (source job) "1"
                                ++ html_job_block job ++ "</div>")
                    create_sample_jobs)
       ++ html_foot)%string.
Proof.
  intros Hi Hp Hok.
  destruct (run_scraping_result (OutdoorJobScraper email) w w1 w2 [] [] Hi Hp Hok
              create_sample_jobs_encode)
    as (w' & Hrun & _).
  cbn [OutdoorJobScraper jobs email_address app] in Hrun.
  exists (mkScraper email create_sample_jobs), w'.
  split; [exact Hrun |]. split; [reflexivity |].
  split; [reflexivity |]. split; [reflexivity |].
  split; [repeat constructor |].
  rewrite generate_html_text. reflexivity.
Qed.

End ZeroResults.

(* ================================================================= *)
(** ** Concrete runs *)

Import Html.

Example lower_mixed_case : lower "Park RANGER (Level 2)" = "park ranger (level 2)".
Proof. reflexivity. Qed.

Example contains_is_a_substring_test :
  contains "park" "county parking lot" = true /\
  contains "ranger" "arrange" = false.
Proof. split; reflexivity. Qed.

Example get_text_strips_and_glues : get_text park_link = "ParkAide".
Proof. reflexivity. Qed.

Example indeed_search_url_text :
  indeed_search_url =
  "https://www.indeed.com/jobs?q=park ranger OR outdoor OR nature OR environmental OR conservation OR wildlife OR naturalist OR recreation coordinator&l=Tampa, FL&radius=25&jt=fulltime&sort=date".
Proof. reflexivity. Qed.

Example dead_web_fetch_trace :
  trace (snd (make_request "https://www.tampa.gov/careers" 3 (world_of dead_web))) =
  [EvSleep Politeness 1; EvGet "https://www.tampa.gov/careers"; EvLog WARNING;
   EvSleep Backoff 1;
   EvSleep Politeness 1; EvGet "https://www.tampa.gov/careers"; EvLog WARNING;
   EvSleep Backoff 2;
   EvSleep Politeness 1; EvGet "https://www.tampa.gov/careers"; EvLog WARNING;
   EvLog ERROR].
Proof. reflexivity. Qed.

Example zero_retries_makes_no_request :
  make_request "https://www.tampa.gov/careers" 0 (world_of dead_web)
  = (Return None, world_of dead_web).
Proof. reflexivity. Qed.

Example full_card_is_parsed :
  parse_indeed_card full_card =
  Return (Some (mkJobListing "Park Naturalist" "Acme Parks" "Tampa, FL"
                  "Lead guided walks." "https://www.indeed.com/rc/clk?jk=1"
                  None None "Indeed.com")).
Proof. reflexivity. Qed.

Example empty_list_is_two_brackets : json_dumps [] = "[]".
Proof. reflexivity. Qed.

Example samples_survive_the_file :
  load_jobs (json_dumps (map asdict create_sample_jobs)) = Some create_sample_jobs.
Proof. vm_compute. reflexivity. Qed.

Example grouping_keeps_first_seen_order :
  map (fun entry => (fst entry, map title (snd entry)))
      (group_by_source
         [mkJobListing "a" "" "" "" "" None None "Indeed.com";
          mkJobListing "b" "" "" "" "" None None "Florida State Parks";
          mkJobListing "c" "" "" "" "" None None "Indeed.com"])
  = [("Indeed.com", ["a"; "c"]); ("Florida State Parks", ["b"])].
Proof. reflexivity. Qed.

(** Witness of C1: three timeouts in a row on a dead web. *)
Lemma make_request_fails_soft_on_dead_web :
  exists w', make_request "https://www.tampa.gov/careers" 3 (world_of dead_web)
             = (Return None, w').
Proof.
  apply (make_request_fails_soft "https://www.tampa.gov/careers" 3
           (world_of dead_web)).
  - reflexivity.
  - intros k _. reflexivity.
Defined.

(** Witness of C2: the same run, with its two waits. *)
Lemma make_request_three_failures_on_dead_web :
  exists w',
    make_request "https://www.tampa.gov/careers" 3 (world_of dead_web)
      = (Return None, w') /\
    trace w' =
      trace (world_of dead_web) ++
      [EvSleep Politeness 1; EvGet "https://www.tampa.gov/careers"; EvLog WARNING;
       EvSleep Backoff (2 ^ 0);
       EvSleep Politeness 1; EvGet "https://www.tampa.gov/careers"; EvLog WARNING;
       EvSleep Backoff (2 ^ 1);
       EvSleep Politeness 1; EvGet "https://www.tampa.gov/careers"; EvLog WARNING;
       EvLog ERROR] /\
    backoff_waits (trace w') = backoff_waits (trace (world_of dead_web)) ++ [1; 2]%Z /\
    requests w' = requests (world_of dead_web) + 3.
Proof.
  apply (make_request_three_failures "https://www.tampa.gov/careers"
           (world_of dead_web)).
  intros k _. reflexivity.
Defined.

(** Witness of C3: on a dead web nothing is found and the samples are
    returned. *)
Lemma run_scraping_empty_gives_samples_on_dead_web :
  exists self' w',
    run_scraping (OutdoorJobScraper "user@example.org") (world_of dead_web)
      = (Return (create_sample_jobs, self'), w') /\
    jobs self' = create_sample_jobs /\
    map title create_sample_jobs =
      ["Park Ranger - Entry Level"; "Environmental Specialist";
       "Recreation Coordinator"; "Wildlife Biologist Assistant";
       "Outdoor Education Instructor"].
Proof.
  eapply (run_scraping_empty_gives_samples (OutdoorJobScraper "user@example.org")
            (world_of dead_web)).
  - lazy. reflexivity.
  - lazy. reflexivity.
  - reflexivity.
  - reflexivity.
Defined.


(** Counterexample to C4 as stated: on a dead web each of the six sources
    yields the empty list, and the run returns five records, not none; and
    a scraper that already holds a record returns it in front of the two
    records of the Tampa page: three records for lists whose lengths sum
    to two. *)
Lemma run_scraping_length_is_not_the_sum :
  fst (scrape_indeed (world_of dead_web)) = Return [] /\
  fst (scrape_county_parks (world_of dead_web)) = Return [] /\
  fst (run_scraping (OutdoorJobScraper "user@example.org") (world_of dead_web))
    = Return (create_sample_jobs,
              mkScraper "user@example.org" create_sample_jobs) /\
  length create_sample_jobs <> 0 + 0 + 0 + 0 + 0 + 0 /\
  fst (scrape_indeed (world_of (serve (site_url tampa) two_jobs_page)))
    = Return [] /\
  fst (scrape_county_parks (world_of (serve (site_url tampa) two_jobs_page)))
    = Return [park_job tampa "ParkAide" "https://jobs.example.org/careers/7";
              park_job tampa "Recreation Leader" "https://www.tampa.gov/jobs/12"] /\
  match fst (run_scraping (mkScraper "user@example.org" [held_job])
               (world_of (serve (site_url tampa) two_jobs_page))) with
  | Return (out, _) => hd_error out = Some held_job /\ length out = 3
  | Raise _ => False
  end.
Proof.
  split; [vm_compute; reflexivity |]. split; [vm_compute; reflexivity |].
  split; [vm_compute; reflexivity |]. split; [discriminate |].
  split; [vm_compute; reflexivity |]. split; [vm_compute; reflexivity |].
  vm_compute. split; reflexivity.
Qed.

(** Witness of C7 (as amended): a card with a bare title and a date gets
    the three placeholders and the empty address. *)
Lemma indeed_card_placeholders_on_bare_card :
  exists job,
    parse_indeed_card bare_card = Return (Some job) /\
    job = mkJobListing "Trail Guide" "Unknown Company" "Tampa Bay Area"
            "No description available" EmptyString (Some "Today") None
            "Indeed.com".
Proof.
  destruct (indeed_card_placeholders (L := node_libraries) bare_card
              (Element "h2" [("class", "jobTitle")] [Text "Trail Guide"])
              EmptyString eq_refl eq_refl)
    as (job & Hparse & _).
  exists job. split; [exact Hparse |].
  cbv in Hparse. now injection Hparse as <-.
Defined.

(** Counterexample to C7 as stated: a card whose title is absent under
    both selectors is not emitted with a placeholder title; the extractor
    passes it over and returns no record for it. *)
Lemma indeed_card_without_title_is_dropped :
  find_either untitled_card (sel_class "h2" "jobTitle") (sel_has "a" "data-jk")
    = None /\
  find_all (page [untitled_card]) (sel_class "div" "job_seen_beacon")
    = [untitled_card] /\
  fst (scrape_indeed (world_of (serve indeed_search_url (page [untitled_card]))))
    = Return [].
Proof. repeat split. Qed.

(** Witness of C8 (as amended): the Florida State Parks method on a page
    with a ranger anchor and a park anchor. *)
Lemma park_site_relevance_filter_on_state_parks_page :
  exists w1 out,
    scrape_park_site fl_state_parks
      (world_of (serve (site_url fl_state_parks) careers_page))
      = (Return out, w1) /\
    map title out = ["Ranger Station Attendant"; "ParkAide"].
Proof.
  eexists.
  destruct (park_site_relevance_filter (L := node_libraries) fl_state_parks
              (world_of (serve (site_url fl_state_parks) careers_page))
              _ careers_page eq_refl) as (out & Hrun & _).
  - intros link Hin _. cbv in Hin.
    destruct Hin as [<- | [<- | []]]; eexists; reflexivity.
  - exists out. split; [exact Hrun |].
    cbv in Hrun. now injection Hrun as <-.
Defined.

(** Counterexample to C8 as stated: the title of the anchor contains
    [ranger], a word of the vocabulary the claim fixes, yet the Hillsborough
    method, whose keyword list lacks it, returns no record; the Florida State
    Parks method accepts the same anchor. *)
Lemma hillsborough_filter_lacks_ranger :
  find_all (page [ranger_link]) job_link_selector = [ranger_link] /\
  contains "ranger" (lower (get_text ranger_link)) = true /\
  fst (_scrape_hillsborough_parks
         (world_of (serve (site_url hillsborough) (page [ranger_link]))))
    = Return [] /\
  fst (_scrape_fl_state_parks
         (world_of (serve (site_url fl_state_parks) (page [ranger_link]))))
    = Return [park_job fl_state_parks "Ranger Station Attendant"
                "https://www.floridastateparks.org/jobs/ranger"].
Proof. repeat split. Qed.

(** Witness of C9 (as amended): the run on a dead web. *)
Lemma zero_results_digest_on_dead_web :
  exists self' w',
    run_scraping (OutdoorJobScraper "user@example.org") (world_of dead_web)
      = (Return (create_sample_jobs, self'), w') /\
    length (group_by_source create_sample_jobs) = 5.
Proof.
  assert (H : exists w1 w2 : World node,
             (log INFO ;;; scrape_indeed) (world_of dead_web) = (Return [], w1) /\
             scrape_county_parks w1 = (Return [], w2) /\
             writable w2 (backup_name w2) = true).
  { eexists _, _. split; [lazy; reflexivity |]. split; [lazy; reflexivity |].
    reflexivity. }
  destruct H as (w1 & w2 & Hi & Hp & Hok).
  destruct (zero_results_digest "user@example.org" "January 01, 2024"
              (world_of dead_web) w1 w2 Hi Hp Hok)
    as (self' & w' & Hrun & _ & _ & Hlen & _).
  exists self', w'. split; [exact Hrun | exact Hlen].
Defined.

(** Counterexample to C9 as stated: on a dead web every source yields no
    record, the five samples are substituted, and their digest has five
    source sections, one per sample, not two. *)
Lemma zero_results_digest_has_five_sections :
  fst (run_scraping (OutdoorJobScraper "user@example.org") (world_of dead_web))
    = Return (create_sample_jobs,
              mkScraper "user@example.org" create_sample_jobs) /\
  map fst (group_by_source create_sample_jobs) =
    ["Hillsborough County Parks"; "Pinellas County Parks";
     "Tampa Parks & Recreation"; "Florida State Parks"; "Indeed.com"] /\
  length (group_by_source create_sample_jobs) <> 2.
Proof. repeat split. discriminate. Qed.

(* ================================================================= *)
(** ** More on the fetcher *)

Lemma steady_refl {tag : Type} (w : World tag) : steady w w.
Proof.
  unfold steady. repeat split; try reflexivity. exists []. now rewrite app_nil_r.
Qed.

Lemma steady_trans {tag : Type} (w1 w2 w3 : World tag) :
  steady w1 w2 -> steady w2 w3 -> steady w1 w3.
Proof.
  unfold steady.
  intros (Hw & Hn & Hd & Hf & Hr & evs & Ht) (Hw' & Hn' & Hd' & Hf' & Hr' & evs' & Ht').
  repeat split; try congruence; try lia.
  exists (evs ++ evs'). now rewrite Ht', Ht, app_assoc.
Qed.

Lemma steady_emit {tag : Type} (ev : Event) (w : World tag) :
  steady w (snd (emit ev w)).
Proof.
  unfold steady, emit. cbn. repeat split; try reflexivity. now exists [ev].
Qed.

Lemma backoff_schedule_succ (k : nat) :
  backoff_schedule (S k) = backoff_schedule k ++ [(2 ^ Z.of_nat k)%Z].
Proof. unfold backoff_schedule. now rewrite seq_S, map_app. Qed.

Lemma total_wait_app (a b : list Z) :
  total_wait (a ++ b) = (total_wait a + total_wait b)%Z.
Proof.
  unfold total_wait. induction a as [| x a IH]; cbn [app fold_right]; [lia |].
  rewrite IH. lia.
Qed.

(** The waits of a retry schedule add up to one less than the next power
    of two. *)
Lemma total_wait_schedule (k : nat) :
  total_wait (backoff_schedule k) = (2 ^ Z.of_nat k - 1)%Z.
Proof.
  induction k as [| k IH]; [reflexivity |].
  rewrite backoff_schedule_succ, total_wait_app, IH.
  unfold total_wait. cbn [fold_right].
  rewrite Nat2Z.inj_succ, Z.pow_succ_r by lia. lia.
Qed.

Section FetcherMore.

Context {tag : Type} {L : Libraries tag}.

(** The retry sleeps of [turns] failed attempts none of which is the last
    one allowed. *)
Lemma backoff_waits_failed_attempts (address : string) (max_retries : Z) :
  forall (turns : nat) (attempt : Z),
    (attempt + Z.of_nat turns <= max_retries - 1)%Z ->
    backoff_waits (failed_attempts_trace address max_retries attempt turns)
    = map (fun i => (2 ^ (attempt + Z.of_nat i))%Z) (seq 0 turns).
Proof.
  induction turns as [| turns IH]; intros attempt Hle; [reflexivity |].
  cbn [failed_attempts_trace app backoff_waits seq map].
  destruct (attempt <? max_retries - 1)%Z eqn:Hlt;
    [| apply Z.ltb_ge in Hlt; lia].
  cbn [backoff_waits]. rewrite IH by lia. rewrite Z.add_0_r. f_equal.
  rewrite <- seq_shift, map_map. apply map_ext. intros i. f_equal. lia.
Qed.

(** The retry sleeps of a run of failures that uses up the attempts: the
    last failure adds none. *)
Lemma backoff_waits_exhausted (address : string) (max_retries : Z) :
  forall (turns : nat) (attempt : Z),
    (attempt + Z.of_nat (S turns) = max_retries)%Z ->
    backoff_waits (failed_attempts_trace address max_retries attempt (S turns))
    = map (fun i => (2 ^ (attempt + Z.of_nat i))%Z) (seq 0 turns).
Proof.
  induction turns as [| turns IH]; intros attempt Hsum.
  - cbn [failed_attempts_trace app backoff_waits seq map].
    destruct (attempt <? max_retries - 1)%Z eqn:Hlt;
      [apply Z.ltb_lt in Hlt; lia | reflexivity].
  - change (failed_attempts_trace address max_retries attempt (S (S turns)))
      with ([EvSleep Politeness 1; EvGet address; EvLog WARNING] ++
            (if (attempt <? max_retries - 1)%Z then
               EvSleep Backoff (2 ^ attempt) ::
               failed_attempts_trace address max_retries (attempt + 1) (S turns)
             else [EvLog ERROR])).
    destruct (attempt <? max_retries - 1)%Z eqn:Hlt;
      [| apply Z.ltb_ge in Hlt; lia].
    cbn [app backoff_waits]. rewrite IH by lia.
    cbn [seq map]. rewrite Z.add_0_r. f_equal.
    rewrite <- seq_shift, map_map. apply map_ext. intros i. f_equal. lia.
Qed.

(** X1.  With any positive limit [n + 1], when all [n + 1] attempts fail
    with a request error, [make_request] returns [None] after exactly
    [n + 1] requests and [n] sleeps in its retry handler, of [2 ** 0], ...,
    [2 ** (n - 1)] seconds: [2 ** n - 1] seconds of backoff in all. *)
Theorem make_request_backoff_schedule (address : string) (n : nat)
  (w : World tag) :
  (forall k, k < S n -> request_fails w address (requests w + k)) ->
  exists w',
    make_request address (Z.of_nat (S n)) w = (Return None, w') /\
    requests w' = requests w + S n /\
    backoff_waits (trace w') = backoff_waits (trace w) ++ backoff_schedule n /\
    length (backoff_schedule n) = n /\
    total_wait (backoff_schedule n) = (2 ^ Z.of_nat n - 1)%Z.
Proof.
  intros Hfail. unfold make_request. rewrite Nat2Z.id.
  rewrite make_request_loop_all_fail by (trivial; lia).
  eexists. split; [reflexivity |]. cbn [requests trace].
  split; [reflexivity |]. split; [| split].
  - rewrite backoff_waits_app, backoff_waits_exhausted by lia. reflexivity.
  - unfold backoff_schedule. now rewrite length_map, length_seq.
  - apply total_wait_schedule.
Qed.

(** One turn of the loop on an answer that is no error: the document is
    returned. *)
Lemma make_request_turn_succeeds (address : string) (max_retries attempt : Z)
  (w : World tag) (r : Response tag) :
  web w address (requests w) = Return r ->
  http_error r = false ->
  make_request_turn address max_retries attempt w =
  (Return (ReturnFromLoop (Some (content r))),
   mkWorld (web w) (S (requests w)) (now w) (writable w) (files w)
     (trace w ++ [EvSleep Politeness 1; EvGet address])).
Proof.
  intros Hweb Hok.
  unfold make_request_turn, try_except, bind, delay_request, time_sleep, log,
    emit, session_get, raise_for_status, raise, ret.
  cbn [web requests now writable files trace]. rewrite Hweb, Hok.
  now rewrite <- app_assoc.
Qed.

Lemma make_request_loop_succeeds (address : string) (max_retries : Z)
  (r : Response tag) :
  forall (k turns : nat) (attempt : Z) (w : World tag),
    k < turns ->
    (attempt + Z.of_nat turns = max_retries)%Z ->
    (forall i, i < k -> request_fails w address (requests w + i)) ->
    web w address (requests w + k) = Return r ->
    http_error r = false ->
    make_request_loop address max_retries attempt turns w =
    (Return (Some (content r)),
     mkWorld (web w) (requests w + S k) (now w) (writable w) (files w)
       (trace w ++ failed_attempts_trace address max_retries attempt k
                ++ [EvSleep Politeness 1; EvGet address])).
Proof.
  induction k as [| k IH]; intros turns attempt w Hk Hsum Hfail Hweb Hok;
    (destruct turns as [| turns]; [lia |]); cbn [make_request_loop].
  - unfold bind at 1. rewrite Nat.add_0_r in Hweb.
    rewrite (make_request_turn_succeeds _ _ _ _ _ Hweb Hok).
    unfold ret. cbn [failed_attempts_trace app]. now rewrite Nat.add_1_r.
  - unfold bind at 1.
    rewrite make_request_turn_fails
      by (specialize (Hfail 0 ltac:(lia)); now rewrite Nat.add_0_r in Hfail).
    destruct (attempt <? max_retries - 1)%Z eqn:Hlt;
      [| apply Z.ltb_ge in Hlt; lia].
    rewrite (IH turns); cbn [web requests now writable files trace].
    + cbn [failed_attempts_trace]. rewrite Hlt.
      rewrite <- !app_assoc. cbn [app].
      now rewrite (Nat.add_succ_r (requests w) (S k)).
    + lia.
    + lia.
    + intros i Hi. specialize (Hfail (S i) ltac:(lia)).
      unfold request_fails in *. cbn [web].
      now rewrite Nat.add_succ_r in Hfail.
    + now rewrite Nat.add_succ_r in Hweb.
    + exact Hok.
Qed.

(** X2.  When the first [k] attempts fail with a request error and the
    next one, still within the limit, is answered without error,
    [make_request] returns the document of that answer after exactly
    [k + 1] requests and [k] retry sleeps of [2 ** 0], ..., [2 ** (k - 1)]
    seconds; it does not look at the web again. *)
Theorem make_request_succeeds_after_failures (address : string)
  (max_retries : Z) (k : nat) (r : Response tag) (w : World tag) :
  (Z.of_nat k < max_retries)%Z ->
  (forall i, i < k -> request_fails w address (requests w + i)) ->
  web w address (requests w + k) = Return r ->
  http_error r = false ->
  exists w',
    make_request address max_retries w = (Return (Some (content r)), w') /\
    requests w' = requests w + S k /\
    backoff_waits (trace w') = backoff_waits (trace w) ++ backoff_schedule k /\
    ~ In (EvLog ERROR) (failed_attempts_trace address max_retries 0 k) /\
    trace w' = trace w ++ failed_attempts_trace address max_retries 0 k
                       ++ [EvSleep Politeness 1; EvGet address].
Proof.
  intros Hk Hfail Hweb Hok. unfold make_request.
  rewrite (make_request_loop_succeeds address max_retries r k) by (trivial; lia).
  eexists. split; [reflexivity |]. cbn [requests trace].
  split; [reflexivity |]. split; [| split; [| reflexivity]].
  - rewrite !backoff_waits_app, backoff_waits_failed_attempts by lia.
    cbn [backoff_waits]. now rewrite app_nil_r.
  - assert (Hgen : forall turns attempt,
               (attempt + Z.of_nat turns <= max_retries - 1)%Z ->
               ~ In (EvLog ERROR)
                   (failed_attempts_trace address max_retries attempt turns)).
    { induction turns as [| turns IH]; intros attempt Hle; [intros [] |].
      cbn [failed_attempts_trace app].
      destruct (attempt <? max_retries - 1)%Z eqn:Hlt;
        [| apply Z.ltb_ge in Hlt; lia].
      intros [H | [H | [H | [H | H]]]]; try discriminate.
      revert H. apply IH. lia. }
    apply Hgen. lia.
Qed.

End FetcherMore.

Section FetcherLimits.

Context {tag : Type} {L : Libraries tag}.

(** Whatever the web answers, one turn issues one request and changes
    nothing else but the trace. *)
Lemma make_request_turn_frame (address : string) (max_retries attempt : Z)
  (w : World tag) :
  steady w (snd (make_request_turn address max_retries attempt w)) /\
  requests (snd (make_request_turn address max_retries attempt w))
  = S (requests w).
Proof.
  unfold make_request_turn, try_except, bind, delay_request, time_sleep, log,
    emit, session_get, raise_for_status, raise, ret, steady.
  cbn [web requests now writable files trace fst snd].
  destruct (web w address (requests w)) as [r | e].
  - destruct (http_error r); cbn [is_RequestException fst snd];
      [destruct (attempt <? max_retries - 1)%Z |];
      cbn [web requests now writable files trace fst snd];
      repeat split; try lia; rewrite <- ?app_assoc; eexists; reflexivity.
  - destruct (is_RequestException e);
      [destruct (attempt <? max_retries - 1)%Z |];
      cbn [web requests now writable files trace fst snd];
      repeat split; try lia; rewrite <- ?app_assoc; eexists; reflexivity.
Qed.

Lemma make_request_loop_frame (address : string) (max_retries : Z) :
  forall (turns : nat) (attempt : Z) (w : World tag),
    steady w (snd (make_request_loop address max_retries attempt turns w)) /\
    requests (snd (make_request_loop address max_retries attempt turns w))
    <= requests w + turns.
Proof.
  induction turns as [| turns IH]; intros attempt w; cbn [make_request_loop].
  - unfold ret. cbn [snd]. split; [apply steady_refl | lia].
  - unfold bind.
    destruct (make_request_turn_frame address max_retries attempt w)
      as [Hsteady Hreq].
    destruct (make_request_turn address max_retries attempt w)
      as [[[r |] | e] w1]; cbn [snd] in *.
    + unfold ret. cbn [snd]. split; [exact Hsteady | lia].
    + destruct (IH (attempt + 1)%Z w1) as [Hsteady' Hreq'].
      split; [eapply steady_trans; eassumption | lia].
    + split; [exact Hsteady | lia].
Qed.

Lemma make_request_bounded_frame (address : string) (w : World tag) :
  steady w (snd (make_request address 3 w)) /\
  requests (snd (make_request address 3 w)) <= requests w + 3.
Proof.
  unfold make_request. change (Z.to_nat 3) with 3.
  apply make_request_loop_frame.
Qed.

(** X3.  Whatever the web does and however the call ends, [make_request]
    issues at most [max_retries] requests, writes no file and leaves the
    web, the clock and the disk as they were; with a limit of zero or less
    it returns [None] without doing anything. *)
Theorem make_request_bounded (address : string) (max_retries : Z)
  (w : World tag) :
  steady w (snd (make_request address max_retries w)) /\
  requests (snd (make_request address max_retries w))
    <= requests w + Z.to_nat max_retries /\
  ((max_retries <= 0)%Z ->
   make_request address max_retries w = (Return None, w)).
Proof.
  unfold make_request.
  destruct (make_request_loop_frame address max_retries
              (Z.to_nat max_retries) 0 w) as [Hsteady Hreq].
  split; [exact Hsteady |]. split; [exact Hreq |].
  intros Hle. replace (Z.to_nat max_retries) with 0 by lia. reflexivity.
Qed.

Lemma make_request_turn_crashes (address : string) (max_retries attempt : Z)
  (w : World tag) (e : exn) :
  web w address (requests w) = Raise e ->
  is_RequestException e = false ->
  make_request_turn address max_retries attempt w =
  (Raise e,
   mkWorld (web w) (S (requests w)) (now w) (writable w) (files w)
     (trace w ++ [EvSleep Politeness 1; EvGet address])).
Proof.
  intros Hweb He.
  unfold make_request_turn, try_except, bind, delay_request, time_sleep, log,
    emit, session_get, raise_for_status, raise, ret.
  cbn [web requests now writable files trace]. rewrite Hweb, He.
  now rewrite <- app_assoc.
Qed.

Lemma make_request_loop_crashes (address : string) (max_retries : Z) (e : exn) :
  forall (k turns : nat) (attempt : Z) (w : World tag),
    k < turns ->
    (attempt + Z.of_nat turns = max_retries)%Z ->
    (forall i, i < k -> request_fails w address (requests w + i)) ->
    web w address (requests w + k) = Raise e ->
    is_RequestException e = false ->
    exists w',
      make_request_loop address max_retries attempt turns w = (Raise e, w') /\
      requests w' = requests w + S k.
Proof.
  induction k as [| k IH]; intros turns attempt w Hk Hsum Hfail Hweb He;
    (destruct turns as [| turns]; [lia |]); cbn [make_request_loop].
  - unfold bind at 1. rewrite Nat.add_0_r in Hweb.
    rewrite (make_request_turn_crashes _ _ _ _ _ Hweb He).
    eexists. split; [reflexivity |]. cbn [requests]. lia.
  - unfold bind at 1.
    rewrite make_request_turn_fails
      by (specialize (Hfail 0 ltac:(lia)); now rewrite Nat.add_0_r in Hfail).
    destruct (attempt <? max_retries - 1)%Z eqn:Hlt;
      [| apply Z.ltb_ge in Hlt; lia].
    match goal with |- context [make_request_loop _ _ _ turns ?w1] =>
      destruct (IH turns (attempt + 1)%Z w1) as (w' & Hrun & Hreq) end;
      cbn [web requests now writable files trace]; try lia.
    + intros i Hi. specialize (Hfail (S i) ltac:(lia)).
      unfold request_fails in *. cbn [web].
      now rewrite Nat.add_succ_r in Hfail.
    + now rewrite Nat.add_succ_r in Hweb.
    + exact He.
    + exists w'. split; [exact Hrun |]. cbn [requests] in Hreq. lia.
Qed.

(** X4.  An exception of [session.get] outside the [RequestException]
    class is not retried and not turned into [None]: it leaves
    [make_request] at the attempt where it is raised, after the request
    failures before it have been retried. *)
Theorem make_request_crash_propagates (address : string) (max_retries : Z)
  (k : nat) (e : exn) (w : World tag) :
  (Z.of_nat k < max_retries)%Z ->
  (forall i, i < k -> request_fails w address (requests w + i)) ->
  web w address (requests w + k) = Raise e ->
  is_RequestException e = false ->
  exists w',
    make_request address max_retries w = (Raise e, w') /\
    requests w' = requests w + S k.
Proof.
  intros Hk Hfail Hweb He. unfold make_request.
  apply make_request_loop_crashes; trivial; lia.
Qed.

End FetcherLimits.

(* ================================================================= *)
(** ** More on the extractors *)

(** A slice [s[:n]] has at most [n] code points. *)
Lemma py_slice_to_length (s : string) :
  forall n : nat, py_len (py_slice_to n s) <= n.
Proof.
  induction s as [| c s IH]; intros n; cbn [py_slice_to py_len]; [lia |].
  destruct (is_continuation c) eqn:Hc.
  - cbn [py_len]. rewrite Hc. apply IH.
  - destruct n as [| n]; cbn [py_len]; [lia |]. rewrite Hc.
    specialize (IH n). lia.
Qed.

Section ExtractorMore.

Context {tag : Type} {L : Libraries tag}.

(** The card loop: the records of the cards that parse, appended in
    order, and one warning per card that raises. *)
Lemma indeed_cards_result (cards : list tag) :
  forall (acc : list JobListing) (w : World tag),
    indeed_cards cards acc w =
    (Return (acc ++ parsed_cards cards),
     mkWorld (web w) (requests w) (now w) (writable w) (files w)
       (trace w ++ repeat (EvLog WARNING) (failed_cards cards))).
Proof.
  unfold parsed_cards, failed_cards.
  induction cards as [| card rest IH]; intros acc w;
    cbn [indeed_cards flat_map filter].
  - cbn [length repeat]. rewrite !app_nil_r. destruct w; reflexivity.
  - destruct (parse_indeed_card card) as [[job |] | e].
    + rewrite IH. now rewrite <- app_assoc.
    + rewrite IH. reflexivity.
    + unfold bind, log, emit. cbn [fst snd]. rewrite IH.
      cbn [web requests now writable files trace length repeat].
      now rewrite <- app_assoc.
Qed.

Lemma parsed_card_is_indeed_record (card : tag) (job : JobListing) :
  parse_indeed_card card = Return (Some job) -> indeed_record job.
Proof.
  unfold parse_indeed_card, indeed_record.
  destruct (find_either card _ _) as [title_elem |]; [| discriminate].
  destruct (indeed_job_url title_elem) as [job_url | e]; [| discriminate].
  intros [= <-]. cbn [source experience_level description].
  repeat split. unfold indeed_description.
  destruct (find_either card _ _) as [e |].
  - apply py_slice_to_length.
  - apply Nat.leb_le. vm_compute. reflexivity.
Qed.

Lemma parsed_cards_are_indeed_records (cards : list tag) :
  Forall indeed_record (parsed_cards cards).
Proof.
  unfold parsed_cards. apply Forall_flat_map, Forall_forall. intros card _.
  destruct (parse_indeed_card card) as [[job |] | e] eqn:Hparse;
    constructor; [| constructor].
  eapply parsed_card_is_indeed_record; eassumption.
Qed.

(** X5.  On a fetched page [scrape_indeed] handles each of the first 20
    cards on its own: it returns the records of the cards that parse, in
    page order, passes over a card without title, and answers a card that
    raises (an anchor without [href], an address that cannot be joined)
    with one warning, going on with the next card. *)
Theorem scrape_indeed_isolates_cards (w w1 : World tag) (soup : tag) :
  make_request indeed_search_url 3 (snd (log INFO w)) = (Return (Some soup), w1) ->
  scrape_indeed w =
  (Return (parsed_cards (indeed_job_cards soup)),
   mkWorld (web w1) (requests w1) (now w1) (writable w1) (files w1)
     (trace w1 ++ repeat (EvLog WARNING) (failed_cards (indeed_job_cards soup))
              ++ [EvLog INFO])).
Proof.
  intros Hreq. unfold scrape_indeed. unfold bind at 1.
  destruct (log INFO w) as [[[] | e] w0] eqn:Hlog; [| discriminate].
  cbn [snd] in Hreq. unfold bind at 1. rewrite Hreq.
  unfold bind at 1. fold (indeed_job_cards soup).
  rewrite indeed_cards_result. unfold bind, log, emit, ret.
  cbn [web requests now writable files trace app].
  now rewrite <- app_assoc.
Qed.

(** What leaves [make_request] as an exception is never of the class its
    handler catches. *)
Lemma make_request_turn_raises (address : string) (max_retries attempt : Z)
  (w w' : World tag) (e : exn) :
  make_request_turn address max_retries attempt w = (Raise e, w') ->
  is_RequestException e = false.
Proof.
  unfold make_request_turn, try_except, bind, delay_request, time_sleep, log,
    emit, session_get, raise_for_status, raise, ret.
  cbn [web requests now writable files trace].
  destruct (web w address (requests w)) as [r | e0].
  - destruct (http_error r); cbn [is_RequestException];
      [destruct (attempt <? max_retries - 1)%Z |]; discriminate.
  - destruct (is_RequestException e0) eqn:He0;
      [destruct (attempt <? max_retries - 1)%Z; discriminate |].
    now intros [= <- _].
Qed.

Lemma make_request_loop_raises (address : string) (max_retries : Z) :
  forall (turns : nat) (attempt : Z) (w w' : World tag) (e : exn),
    make_request_loop address max_retries attempt turns w = (Raise e, w') ->
    is_RequestException e = false.
Proof.
  induction turns as [| turns IH]; intros attempt w w' e;
    cbn [make_request_loop]; [discriminate |].
  unfold bind.
  destruct (make_request_turn address max_retries attempt w)
    as [[[r |] | e0] w1] eqn:Hturn.
  - discriminate.
  - apply IH.
  - intros [= <- _]. eapply make_request_turn_raises; eassumption.
Qed.

(** X6.  Every record [scrape_indeed] returns has the source
    [Indeed.com], no experience level, and a description of at most 200
    characters; and an exception that leaves [scrape_indeed] is never a
    request error. *)
Theorem scrape_indeed_records (w : World tag) :
  match fst (scrape_indeed w) with
  | Return out => Forall indeed_record out
  | Raise e => is_RequestException e = false
  end.
Proof.
  unfold scrape_indeed. unfold bind at 1.
  destruct (log INFO w) as [[[] | e] w0] eqn:Hlog; [| discriminate].
  unfold bind at 1.
  destruct (make_request indeed_search_url 3 w0) as [[[soup |] | e] w1] eqn:Hreq.
  - unfold bind at 1. rewrite indeed_cards_result.
    unfold bind, log, emit, ret. cbn [fst app].
    apply parsed_cards_are_indeed_records.
  - unfold bind, log, emit, ret. cbn [fst]. constructor.
  - cbn [fst]. unfold make_request in Hreq.
    eapply make_request_loop_raises; eassumption.
Qed.

End ExtractorMore.

Section ParkSiteMore.

Context {tag : Type} {L : Libraries tag}.

(** X7.  When the three attempts to fetch the Indeed page fail with a
    request error, [scrape_indeed] returns the empty list (it does not
    raise), after exactly three requests, having logged the failure of the
    fetch and of the source. *)
Theorem scrape_indeed_fetch_failure (w : World tag) :
  (forall k, k < 3 -> request_fails w indeed_search_url (requests w + k)) ->
  scrape_indeed w =
  (Return [],
   mkWorld (web w) (requests w + 3) (now w) (writable w) (files w)
     (trace w ++ [EvLog INFO]
              ++ failed_attempts_trace indeed_search_url 3 0 3
              ++ [EvLog ERROR])).
Proof.
  intros Hfail. unfold scrape_indeed, make_request, bind at 1 2.
  unfold log at 1, emit. change (Z.to_nat 3) with 3.
  rewrite make_request_loop_all_fail by (trivial; lia).
  unfold bind, log, emit, ret.
  cbn [web requests now writable files trace].
  now rewrite <- !app_assoc.
Qed.

(** X8.  When the three attempts to fetch its page fail with a request
    error, a park-site method returns the empty list after exactly three
    requests. *)
Theorem scrape_park_site_fetch_failure (s : ParkSite) (w : World tag) :
  (forall k, k < 3 -> request_fails w (site_url s) (requests w + k)) ->
  scrape_park_site s w =
  (Return [],
   mkWorld (web w) (requests w + 3) (now w) (writable w) (files w)
     (trace w ++ failed_attempts_trace (site_url s) 3 0 3)).
Proof.
  intros Hfail. unfold scrape_park_site, make_request.
  change (Z.to_nat 3) with 3.
  now rewrite make_request_loop_all_fail by (trivial; lia).
Qed.

Lemma accepted_links_app (s : ParkSite) (a b : list tag) :
  accepted_links s (a ++ b) = accepted_links s a ++ accepted_links s b.
Proof. unfold accepted_links. apply flat_map_app. Qed.

(** The link loop up to its first exception. *)
Lemma park_links_stop (s : ParkSite) (bad : tag) (post : list tag) (e : exn) :
  forall (pre : list tag) (acc : list JobListing),
    (forall link, In link pre ->
       keyword_match (site_keywords s) (get_text link) = true ->
       exists job_url, link_url s link = Return job_url) ->
    keyword_match (site_keywords s) (get_text bad) = true ->
    link_url s bad = Raise e ->
    park_links s (pre ++ bad :: post) acc = (acc ++ accepted_links s pre, Some e).
Proof.
  induction pre as [| link pre IH]; intros acc Hpre Hkw Hbad;
    cbn [app park_links].
  - rewrite Hkw, Hbad. cbn. now rewrite app_nil_r.
  - change (accepted_links s (link :: pre))
      with ((if keyword_match (site_keywords s) (get_text link) then
               match link_url s link with
               | Return job_url => [park_job s (get_text link) job_url]
               | Raise _ => []
               end
             else []) ++ accepted_links s pre).
    destruct (keyword_match (site_keywords s) (get_text link)) eqn:Hk.
    + destruct (Hpre link (or_introl eq_refl) Hk) as [job_url ->].
      rewrite IH; trivial.
      * now rewrite <- app_assoc.
      * intros l Hl. apply Hpre. now right.
    + rewrite IH; trivial. intros l Hl. apply Hpre. now right.
Qed.

(** X9.  The link loop of a park-site method has no handler of its own:
    when forming the address of an accepted anchor raises, the method
    returns the records accepted before that anchor, logs one warning, and
    never looks at the anchors after it. *)
Theorem scrape_park_site_stops_at_first_error (s : ParkSite)
  (w w1 : World tag) (soup bad : tag) (pre post : list tag) (e : exn) :
  make_request (site_url s) 3 w = (Return (Some soup), w1) ->
  firstn 10 (find_all soup job_link_selector) = pre ++ bad :: post ->
  (forall link, In link pre ->
     keyword_match (site_keywords s) (get_text link) = true ->
     exists job_url, link_url s link = Return job_url) ->
  keyword_match (site_keywords s) (get_text bad) = true ->
  link_url s bad = Raise e ->
  scrape_park_site s w =
  (Return (accepted_links s pre),
   mkWorld (web w1) (requests w1) (now w1) (writable w1) (files w1)
     (trace w1 ++ [EvLog WARNING])).
Proof.
  intros Hreq Hlinks Hpre Hkw Hbad. unfold scrape_park_site.
  rewrite Hreq, Hlinks, (park_links_stop s bad post e pre [] Hpre Hkw Hbad).
  reflexivity.
Qed.

Lemma park_links_records (s : ParkSite) (links : list tag) :
  forall acc : list JobListing,
    Forall (park_record s) acc ->
    Forall (park_record s) (fst (park_links s links acc)).
Proof.
  induction links as [| link rest IH]; intros acc Hacc; cbn [park_links];
    [exact Hacc |].
  destruct (keyword_match (site_keywords s) (get_text link)) eqn:Hkw;
    [| now apply IH].
  destruct (link_url s link) as [job_url | e]; [| exact Hacc].
  apply IH. apply Forall_app. split; [exact Hacc |].
  constructor; [| constructor]. unfold park_record, park_job.
  cbn [company location description source date_posted experience_level title].
  repeat split. exact Hkw.
Qed.

Lemma scrape_park_site_frame (s : ParkSite) (w : World tag) :
  steady w (snd (scrape_park_site s w)) /\
  requests (snd (scrape_park_site s w)) <= requests w + 3.
Proof.
  unfold scrape_park_site.
  destruct (make_request_bounded_frame (site_url s) w) as [Hsteady Hreq].
  destruct (make_request (site_url s) 3 w) as [[[soup |] | e] w1];
    cbn [snd] in *.
  - destruct (park_links s (firstn 10 (find_all soup job_link_selector)) [])
      as [out [e |]]; cbn [snd].
    + unfold bind, log, emit, ret. cbn [snd fst].
      split; [| cbn [requests]; lia].
      eapply steady_trans; [exact Hsteady |]. apply (steady_emit (EvLog WARNING) w1).
    + split; [exact Hsteady | lia].
  - split; [exact Hsteady | lia].
  - unfold bind, log, emit, ret. cbn [snd fst].
    split; [| cbn [requests]; lia].
    eapply steady_trans; [exact Hsteady |]. apply (steady_emit (EvLog WARNING) w1).
Qed.

(** X10.  A park-site method never raises, and every record it returns
    carries the constant company, location, description and source of its
    site, no posting date, no experience level, and a title that passes the
    keyword filter of the site. *)
Theorem scrape_park_site_records (s : ParkSite) (w : World tag) :
  exists out w',
    scrape_park_site s w = (Return out, w') /\
    Forall (park_record s) out /\
    steady w w'.
Proof.
  pose proof (scrape_park_site_frame s w) as [Hsteady _].
  revert Hsteady. unfold scrape_park_site.
  destruct (make_request (site_url s) 3 w) as [[[soup |] | e] w1].
  - pose proof (park_links_records s
                  (firstn 10 (find_all soup job_link_selector)) []
                  (Forall_nil _)) as Hrec.
    destruct (park_links s (firstn 10 (find_all soup job_link_selector)) [])
      as [out [e |]]; cbn [fst] in Hrec; intros Hsteady;
      eexists out, _; (split; [reflexivity | split; [exact Hrec | exact Hsteady]]).
  - intros Hsteady. eexists [], _.
    split; [reflexivity | split; [constructor | exact Hsteady]].
  - intros Hsteady. eexists [], _.
    split; [reflexivity | split; [constructor | exact Hsteady]].
Qed.

(** X11.  A park-site method also survives a fetch that crashes: an
    exception of [session.get] outside the request classes, which
    [make_request] lets through, is caught by the method, which logs a
    warning and returns the empty list. *)
Theorem scrape_park_site_swallows_crash (s : ParkSite) (k : nat) (e : exn)
  (w : World tag) :
  k < 3 ->
  (forall i, i < k -> request_fails w (site_url s) (requests w + i)) ->
  web w (site_url s) (requests w + k) = Raise e ->
  is_RequestException e = false ->
  exists w',
    scrape_park_site s w = (Return [], w') /\
    requests w' = requests w + S k /\
    exists evs, trace w' = trace w ++ evs ++ [EvLog WARNING].
Proof.
  intros Hk Hfail Hweb He.
  destruct (make_request_loop_crashes (site_url s) 3 e k 3 0 w)
    as (w1 & Hrun & Hreq); trivial.
  pose proof (make_request_loop_frame (site_url s) 3 3 0 w) as [Hsteady _].
  unfold scrape_park_site, make_request. change (Z.to_nat 3) with 3.
  rewrite Hrun in *. cbn [snd] in Hsteady.
  destruct Hsteady as (_ & _ & _ & _ & _ & evs & Htrace).
  unfold bind, log, emit, ret. cbn [fst snd].
  eexists. split; [reflexivity |]. cbn [requests trace].
  split; [exact Hreq |]. exists evs. now rewrite Htrace, <- app_assoc.
Qed.

End ParkSiteMore.

(* ================================================================= *)
(** ** More on the aggregator *)

Section AggregatorMore.

Context {tag : Type} {L : Libraries tag}.

Lemma parsed_cards_length (cards : list tag) :
  length (parsed_cards cards) <= length cards.
Proof.
  unfold parsed_cards. induction cards as [| card rest IH]; cbn [flat_map length];
    [lia |].
  rewrite length_app.
  destruct (parse_indeed_card card) as [[job |] | e]; cbn [length]; lia.
Qed.

Lemma indeed_job_cards_length (soup : tag) : length (indeed_job_cards soup) <= 20.
Proof. unfold indeed_job_cards. apply firstn_le_length. Qed.

(** [scrape_indeed] in any world: what it leaves alone, and what it
    returns when it returns. *)
Lemma scrape_indeed_frame (w w' : World tag) (r : result (list JobListing)) :
  scrape_indeed w = (r, w') ->
  steady w w' /\
  requests w' <= requests w + 3 /\
  match r with
  | Return out => length out <= 20
  | Raise _ => True
  end.
Proof.
  unfold scrape_indeed. unfold bind at 1.
  pose proof (steady_emit (EvLog INFO) w) as Hlog.
  unfold log at 1. destruct (emit (EvLog INFO) w) as [[[] | e] w0] eqn:Hemit;
    [| discriminate]. cbn [snd] in Hlog.
  assert (Hreq0 : requests w0 = requests w)
    by (unfold emit in Hemit; now injection Hemit as <-).
  unfold bind at 1.
  destruct (make_request_bounded_frame indeed_search_url w0) as [Hsteady Hreq].
  destruct (make_request indeed_search_url 3 w0) as [[[soup |] | e] w1];
    cbn [snd] in *.
  - unfold bind at 1. fold (indeed_job_cards soup). rewrite indeed_cards_result.
    unfold bind, log, emit, ret. cbn [fst snd app]. intros [= <- <-].
    split; [| split; [cbn [requests]; lia |]].
    + eapply steady_trans; [exact Hlog |].
      eapply steady_trans; [exact Hsteady |].
      unfold steady. cbn [web requests now writable files trace].
      repeat split; try lia. rewrite <- app_assoc. eexists. reflexivity.
    + pose proof (parsed_cards_length (indeed_job_cards soup)).
      pose proof (indeed_job_cards_length soup). lia.
  - unfold bind, log, emit, ret. cbn [fst snd]. intros [= <- <-].
    split; [| split; [cbn [requests]; lia | cbn; lia]].
    eapply steady_trans; [exact Hlog |].
    eapply steady_trans; [exact Hsteady |]. apply (steady_emit (EvLog ERROR) w1).
  - intros [= <- <-]. split; [| split; [lia | exact I]].
    eapply steady_trans; eassumption.
Qed.

Lemma scrape_park_site_result (s : ParkSite) (w : World tag) :
  exists out w',
    scrape_park_site s w = (Return out, w') /\
    Forall (park_record s) out /\
    length out <= 10 /\
    steady w w' /\
    requests w' <= requests w + 3.
Proof.
  destruct (scrape_park_site_returns s w) as (out & w' & Hrun & Hlen).
  destruct (scrape_park_site_frame s w) as [Hsteady Hreq].
  rewrite Hrun in Hsteady, Hreq. cbn [snd] in *.
  exists out, w'.
  split; [exact Hrun |].
  split; [| split; [exact Hlen | split; [exact Hsteady | exact Hreq]]].
  clear Hlen Hsteady Hreq. revert Hrun. unfold scrape_park_site.
  destruct (make_request (site_url s) 3 w) as [[[soup |] | e] w1].
  - pose proof (park_links_records s
                  (firstn 10 (find_all soup job_link_selector)) []
                  (Forall_nil _)) as Hrec.
    destruct (park_links s (firstn 10 (find_all soup job_link_selector)) [])
      as [jobs [e |]]; cbn [fst] in Hrec;
      unfold bind, log, emit, ret; cbn [fst snd]; now intros [= <- _].
  - intros [= <- _]. constructor.
  - unfold bind, log, emit, ret. cbn [fst snd]. intros [= <- _]. constructor.
Qed.

Lemma park_record_source (s : ParkSite) (out : list JobListing) :
  In s [hillsborough; pinellas; tampa; stpete; fl_state_parks] ->
  Forall (park_record s) out ->
  Forall (fun job => In (source job) park_sources) out.
Proof.
  intros Hs. apply Forall_impl. intros job (_ & _ & _ & Hsrc & _).
  rewrite Hsrc. unfold park_sources. now apply in_map.
Qed.

Lemma scrape_county_parks_result (w : World tag) :
  exists out w',
    scrape_county_parks w = (Return out, w') /\
    length out <= 50 /\
    Forall (fun job => In (source job) park_sources) out /\
    steady w w' /\
    requests w' <= requests w + 15.
Proof.
  unfold scrape_county_parks, _scrape_hillsborough_parks,
    _scrape_pinellas_parks, _scrape_tampa_parks, _scrape_stpete_parks,
    _scrape_fl_state_parks.
  unfold bind at 1. pose proof (steady_emit (EvLog INFO) w) as Hlog.
  unfold log at 1. destruct (emit (EvLog INFO) w) as [[[] | e] w0] eqn:Hemit;
    [| discriminate]. cbn [snd] in Hlog.
  assert (Hreq0 : requests w0 = requests w)
    by (unfold emit in Hemit; now injection Hemit as <-).
  destruct (scrape_park_site_result hillsborough w0)
    as (o1 & w1 & H1 & R1 & L1 & S1 & Q1).
  destruct (scrape_park_site_result pinellas w1)
    as (o2 & w2 & H2 & R2 & L2 & S2 & Q2).
  destruct (scrape_park_site_result tampa w2)
    as (o3 & w3 & H3 & R3 & L3 & S3 & Q3).
  destruct (scrape_park_site_result stpete w3)
    as (o4 & w4 & H4 & R4 & L4 & S4 & Q4).
  destruct (scrape_park_site_result fl_state_parks w4)
    as (o5 & w5 & H5 & R5 & L5 & S5 & Q5).
  unfold bind at 1. rewrite H1. unfold bind at 1. rewrite H2.
  unfold bind at 1. rewrite H3. unfold bind at 1. rewrite H4.
  unfold bind at 1. rewrite H5.
  unfold bind, log, emit, ret. cbn [fst snd app].
  eexists _, _. split; [reflexivity |]. split; [| split; [| split]].
  - rewrite !length_app. lia.
  - repeat (apply Forall_app; split);
      (eapply park_record_source; [| eassumption]); cbn; tauto.
  - eapply steady_trans; [exact Hlog |].
    eapply steady_trans; [exact S1 |].
    eapply steady_trans; [exact S2 |].
    eapply steady_trans; [exact S3 |].
    eapply steady_trans; [exact S4 |].
    eapply steady_trans; [exact S5 |]. apply (steady_emit (EvLog INFO) w5).
  - cbn [requests]. lia.
Qed.

(** X12.  [scrape_county_parks] never raises: whatever the five sites do,
    it returns at most 50 records, each carrying the source name of one of
    the five sites, after at most 15 requests and without touching the
    disk. *)
Theorem scrape_county_parks_total (w : World tag) :
  exists out w',
    scrape_county_parks w = (Return out, w') /\
    length out <= 50 /\
    Forall (fun job => In (source job) park_sources) out /\
    steady w w' /\
    requests w' <= requests w + 15.
Proof. apply scrape_county_parks_result. Qed.

End AggregatorMore.

Section RunFacts.

Context {tag : Type} {L : Libraries tag}.

Lemma scrape_indeed_returns (w : World tag) :
  (forall k, k < 3 -> ~ request_crashes w indeed_search_url (requests w + k)) ->
  exists out w', scrape_indeed w = (Return out, w').
Proof.
  intros Hok. unfold scrape_indeed, bind at 1 2. unfold log at 1, emit.
  match goal with |- context [make_request ?a ?n ?w0] =>
    destruct (make_request_loop_returns a n (Z.to_nat n) 0 w0) as (x & w1 & Hreq)
  end.
  { intros k Hk. cbn [web requests]. apply Hok. exact Hk. }
  unfold make_request. rewrite Hreq. destruct x as [soup |].
  - unfold bind at 1. rewrite indeed_cards_result.
    unfold bind, log, emit, ret. eexists _, _. reflexivity.
  - unfold bind, log, emit, ret. eexists _, _. reflexivity.
Qed.

Lemma scrape_indeed_crashes (w : World tag) (k : nat) (e : exn) :
  k < 3 ->
  (forall i, i < k -> request_fails w indeed_search_url (requests w + i)) ->
  web w indeed_search_url (requests w + k) = Raise e ->
  is_RequestException e = false ->
  exists w',
    scrape_indeed w = (Raise e, w') /\ requests w' = requests w + S k.
Proof.
  intros Hk Hfail Hweb He. unfold scrape_indeed, bind at 1 2.
  unfold log at 1, emit.
  match goal with |- context [make_request ?a ?n ?w0] =>
    destruct (make_request_loop_crashes a n e k (Z.to_nat n) 0 w0)
      as (w1 & Hrun & Hreq)
  end; trivial.
  unfold make_request. rewrite Hrun. exists w1. split; [reflexivity | exact Hreq].
Qed.

Lemma run_scraping_raises_with_indeed (self : Scraper) (w w1 : World tag)
  (e : exn) :
  (log INFO ;;; scrape_indeed) w = (Raise e, w1) ->
  run_scraping self w = (Raise e, w1).
Proof.
  intros Hi. unfold run_scraping. unfold bind at 1. unfold bind at 1 in Hi.
  unfold log at 1, emit. unfold log at 1, emit in Hi.
  unfold bind at 1. now rewrite Hi.
Qed.

(** Every way a run can end. *)
Lemma run_scraping_cases (self : Scraper) (w : World tag) :
  match run_scraping self w with
  | (Return (out, self'), w') =>
      out <> [] /\
      self' = mkScraper (email_address self) out /\
      (exists more, out = jobs self ++ more) /\
      length out <= length (jobs self) + 70 /\
      files w' = (backup_name w, json_dumps (map asdict out)) :: files w /\
      writable w (backup_name w) = true /\
      encodable_jobs out = true /\
      requests w' <= requests w + 18
  | (Raise e, w') =>
      requests w' <= requests w + 18 /\
      ((e = OSError /\ writable w (backup_name w) = false /\
        files w' = files w) \/
       (e = UnicodeEncodeError /\ writable w (backup_name w) = true /\
        exists out text rest,
          out <> [] /\
          (exists more, out = jobs self ++ more) /\
          encodable_jobs out = false /\
          files w' = (backup_name w, text) :: files w /\
          json_dumps (map asdict out) = (text ++ rest)%string /\
          rest <> EmptyString) \/
       ((exists w1, scrape_indeed (snd (log INFO w)) = (Raise e, w1)) /\
        files w' = files w))
  end.
Proof.
  pose proof (steady_emit (EvLog INFO) w) as (W0 & N0 & D0 & F0 & R0 & _).
  fold (log INFO w) in W0, N0, D0, F0, R0.
  assert (R0' : requests (snd (log INFO w)) = requests w) by reflexivity.
  destruct (scrape_indeed (snd (log INFO w))) as [[ij | e] w1] eqn:Hi.
  - destruct (scrape_indeed_frame _ _ _ Hi)
      as ((W1 & N1 & D1 & F1 & _ & _) & R1 & Hlen1).
    destruct (scrape_county_parks_result w1)
      as (pj & w2 & Hp & Hlen2 & _ & (W2 & N2 & D2 & F2 & _ & _) & R2).
    assert (Hi' : (log INFO ;;; scrape_indeed) w = (Return ij, w1)) by exact Hi.
    destruct (run_scraping_tail self w w1 w2 ij pj Hi' Hp) as (w' & Hr & Htail).
    cbv zeta in Htail.
    assert (Hname : backup_name w2 = backup_name w)
      by (unfold backup_name; congruence).
    assert (Hwr : writable w2 (backup_name w2) = writable w (backup_name w))
      by (rewrite Hname; congruence).
    assert (Hfiles : files w2 = files w) by congruence.
    assert (Hne : match jobs self ++ ij ++ pj with
                  | [] => create_sample_jobs
                  | _ :: _ => jobs self ++ ij ++ pj
                  end <> [])
      by (destruct (jobs self ++ ij ++ pj); discriminate).
    assert (Hmore : exists more,
               match jobs self ++ ij ++ pj with
               | [] => create_sample_jobs
               | _ :: _ => jobs self ++ ij ++ pj
               end = jobs self ++ more).
    { destruct (jobs self ++ ij ++ pj) as [| j rest] eqn:Hfound.
      - apply app_eq_nil in Hfound as [-> _]. now exists create_sample_jobs.
      - rewrite <- Hfound. now exists (ij ++ pj). }
    destruct (writable w2 (backup_name w2)) eqn:Hok.
    + destruct (encodable_jobs _) eqn:Henc in Htail.
      * destruct Htail as (Hrun & Hf). rewrite Hrun.
        split; [exact Hne |]. split; [reflexivity |]. split; [exact Hmore |].
        split; [| split; [| split; [| split]]].
        -- destruct (jobs self ++ ij ++ pj) as [| j rest] eqn:Hfound.
           ++ cbn. lia.
           ++ rewrite <- Hfound, !length_app. lia.
        -- now rewrite Hf, Hname, Hfiles.
        -- now rewrite <- Hwr.
        -- exact Henc.
        -- lia.
      * destruct Htail as (Hrun & text & rest & Hf & Htext & Hrest).
        rewrite Hrun. split; [lia |]. right. left.
        split; [reflexivity |]. split; [now rewrite <- Hwr |].
        eexists _, text, rest. split; [exact Hne |]. split; [exact Hmore |].
        split; [exact Henc |]. split; [now rewrite Hf, Hname, Hfiles |].
        split; [exact Htext | exact Hrest].
    + destruct Htail as (Hrun & Hf). rewrite Hrun.
      split; [lia |]. left. split; [reflexivity |].
      split; [now rewrite <- Hwr | congruence].
  - destruct (scrape_indeed_frame _ _ _ Hi)
      as ((W1 & N1 & D1 & F1 & _ & _) & R1 & _).
    assert (Hi' : (log INFO ;;; scrape_indeed) w = (Raise e, w1)) by exact Hi.
    rewrite (run_scraping_raises_with_indeed self w w1 e Hi').
    split; [lia |]. right. right. split; [now exists w1 | congruence].
Qed.



(** X15.  When no fetch crashes and the backup file cannot be opened, the
    run ends in [OSError] after the scraping, returns no list and writes
    nothing: the failure to write is not handled. *)
Theorem run_scraping_write_failure (self : Scraper) (w : World tag) :
  (forall k, k < 3 -> ~ request_crashes w indeed_search_url (requests w + k)) ->
  writable w (backup_name w) = false ->
  exists w',
    run_scraping self w = (Raise OSError, w') /\
    files w' = files w.
Proof.
  intros Hok Hwr.
  pose proof (run_scraping_cases self w) as H.
  destruct (run_scraping self w) as [[[out self'] | e] w'].
  - destruct H as (_ & _ & _ & _ & _ & Hyes & _). congruence.
  - destruct H as (_ & [(-> & _ & Hfiles) | [(_ & Hyes & _) | ([w1 Hraise] & _)]]).
    + exists w'. split; [reflexivity | exact Hfiles].
    + congruence.
    + exfalso.
      destruct (scrape_indeed_returns (snd (log INFO w))) as (o & w2 & Hret).
      * intros k Hk. apply (Hok k Hk).
      * congruence.
Qed.

(** X16.  A crash while fetching the Indeed page ends the whole run: the
    exception leaves [run_scraping], no park site is asked (the requests
    made are those to Indeed) and no backup file is written. *)
Theorem run_scraping_aborted_by_indeed_crash (self : Scraper) (k : nat)
  (e : exn) (w : World tag) :
  k < 3 ->
  (forall i, i < k -> request_fails w indeed_search_url (requests w + i)) ->
  web w indeed_search_url (requests w + k) = Raise e ->
  is_RequestException e = false ->
  exists w',
    run_scraping self w = (Raise e, w') /\
    requests w' = requests w + S k /\
    files w' = files w.
Proof.
  intros Hk Hfail Hweb He.
  destruct (scrape_indeed_crashes (snd (log INFO w)) k e Hk)
    as (w1 & Hrun & Hreq); trivial.
  destruct (scrape_indeed_frame _ _ _ Hrun) as ((_ & _ & _ & F1 & _) & _).
  exists w1. split; [| split; [exact Hreq | exact F1]].
  apply run_scraping_raises_with_indeed. exact Hrun.
Qed.

End RunFacts.

(* ================================================================= *)
(** ** More on the persisted text *)











Lemma escape_plain (s : string) :
  string_forall plain_char s = true -> escape s = s.
Proof.
  induction s as [| c s IH]; cbn [string_forall escape]; [reflexivity |].
  rewrite andb_true_iff. intros [Hc Hs]. rewrite (IH Hs).
  assert (Hchar : escape_char c = String c EmptyString).
  { revert Hc. destruct c as [[] [] [] [] [] [] [] []];
      (reflexivity || discriminate). }
  now rewrite Hchar.
Qed.


(** X18.  The persister does not escape what it need not
    ([ensure_ascii=False]): a string without control character, quote or
    backslash, non-ASCII text included, is written between two quotes as it
    is, and an absent optional field as [null]. *)
Theorem encode_value_plain_text (s : string) :
  string_forall plain_char s = true ->
  encode_value (Some s) = (dq ++ s ++ dq)%string /\
  encode_value None = "null".
Proof.
  intros Hplain. split; [| reflexivity].
  cbn [encode_value]. unfold encode_basestring. now rewrite (escape_plain s Hplain).
Qed.

(* ================================================================= *)
(** ** More on the digest *)


Lemma dict_set_concat (d : SourceDict) (k : string) (x : list JobListing) :
  Permutation (concat (map snd (dict_set d k (dict_get d k ++ x))))
              (concat (map snd d) ++ x).
Proof.
  induction d as [| [k0 v0] d IH]; cbn [dict_set dict_get map snd concat app].
  - now rewrite app_nil_r.
  - destruct (k0 =? k)%string; cbn [map snd concat].
    + rewrite <- !app_assoc. apply Permutation_app_head, Permutation_app_comm.
    + rewrite <- app_assoc. now apply Permutation_app_head.
Qed.

Lemma group_step_concat (d : SourceDict) (job : JobListing) :
  Permutation (concat (map snd (group_step d job)))
              (concat (map snd d) ++ [job]).
Proof.
  unfold group_step. destruct (dict_contains d (source job)) eqn:Hin; cbn [negb].
  - apply dict_set_concat.
  - etransitivity; [apply dict_set_concat |].
    apply Permutation_app_tail.
    pose proof (dict_set_concat d (source job) []) as H.
    rewrite (dict_get_absent _ _ Hin) in H. cbn [app] in H.
    now rewrite app_nil_r in H.
Qed.

Lemma group_fold_concat (jobs : list JobListing) :
  forall d : SourceDict,
    Permutation (concat (map snd (fold_left group_step jobs d)))
                (concat (map snd d) ++ jobs).
Proof.
  induction jobs as [| job rest IH]; intros d; cbn [fold_left].
  - now rewrite app_nil_r.
  - etransitivity; [apply IH |].
    etransitivity; [apply Permutation_app_tail, group_step_concat |].
    now rewrite <- app_assoc.
Qed.

(** X19.  The grouping of [create_email] loses and repeats nothing: the
    records of all sections together are the input records, each as often
    as it occurs in the input, and the total shown in the summary is their
    number. *)
Theorem group_by_source_partition (jobs : list JobListing) :
  Permutation (concat (map snd (group_by_source jobs))) jobs /\
  total_jobs (group_by_source jobs) = length jobs.
Proof.
  unfold group_by_source. split.
  - apply (group_fold_concat jobs []).
  - now rewrite total_jobs_fold.
Qed.

Lemma group_keys (jobs : list JobListing) :
  map fst (group_by_source jobs) = first_seen (map source jobs).
Proof. unfold group_by_source. now rewrite group_fold_keys. Qed.

Lemma group_entry (jobs : list JobListing) (s : string) (js : list JobListing) :
  In (s, js) (group_by_source jobs) ->
  js = jobs_of_source s jobs /\ In s (map source jobs).
Proof.
  intros Hentry.
  assert (Hnd : NoDup (map fst (group_by_source jobs)))
    by (rewrite group_keys; apply first_seen_from_NoDup).
  split.
  - rewrite <- (dict_get_of_entry _ s js Hnd Hentry).
    unfold group_by_source. now rewrite group_fold_get.
  - assert (Hkey : In s (map fst (group_by_source jobs)))
      by (apply in_map_iff; now exists (s, js)).
    rewrite group_keys in Hkey. unfold first_seen in Hkey.
    now apply first_seen_from_In in Hkey.
Qed.

(** X20.  No section of the digest is empty and none mixes sources: every
    entry of the grouping holds at least one record, and all its records
    carry the source the section is named after.  For the empty list the
    digest is the head with a total of 0 and the foot, without any
    section. *)
Theorem digest_sections_are_homogeneous (jobs : list JobListing)
  (s : string) (js : list JobListing) (date : string) :
  (In (s, js) (group_by_source jobs) ->
   js <> [] /\ Forall (fun job => source job = s) js) /\
  _generate_html_content (group_by_source []) date
    = (html_head date "0" ++ html_foot)%string.
Proof.
  split; [| reflexivity].
  intros Hentry. destruct (group_entry jobs s js Hentry) as [-> Hsrc].
  split.
  - apply in_map_iff in Hsrc as (job & Hjob & Hin).
    assert (Hmem : In job (jobs_of_source s jobs)).
    { unfold jobs_of_source. apply filter_In. split; [exact Hin |].
      now apply String.eqb_eq. }
    intros Hnil. now rewrite Hnil in Hmem.
  - unfold jobs_of_source. apply Forall_forall. intros job Hjob.
    apply filter_In in Hjob as [_ Heq]. now apply String.eqb_eq.
Qed.

Lemma prefix_nil (s : string) : prefix EmptyString s = true.
Proof. now destruct s. Qed.

Lemma prefix_app (n a b : string) :
  prefix n a = true -> prefix n (a ++ b) = true.
Proof.
  revert a. induction n as [| c n IH]; intros a; [intros _; apply prefix_nil |].
  destruct a as [| c' a]; cbn [prefix append]; [discriminate |].
  destruct (ascii_dec c c'); [apply IH | discriminate].
Qed.

Lemma prefix_self_app (n b : string) : prefix n (n ++ b) = true.
Proof.
  induction n as [| c n IH]; [apply prefix_nil |]. cbn [append prefix].
  destruct (ascii_dec c c); [exact IH | contradiction].
Qed.

Lemma contains_unfold (n s : string) :
  contains n s =
  if prefix n s then true
  else match s with
       | EmptyString => false
       | String _ r => contains n r
       end.
Proof. now destruct s. Qed.

Lemma contains_here (n b : string) : contains n (n ++ b) = true.
Proof. now rewrite contains_unfold, prefix_self_app. Qed.

Lemma contains_app_r (n a b : string) :
  contains n b = true -> contains n (a ++ b) = true.
Proof.
  intros Hb. induction a as [| c a IH]; [exact Hb |].
  cbn [append]. rewrite contains_unfold, IH.
  now destruct (prefix n (String c (a ++ b))).
Qed.

Lemma contains_app_l (n a b : string) :
  contains n a = true -> contains n (a ++ b) = true.
Proof.
  induction a as [| c a IH]; rewrite contains_unfold.
  - destruct (prefix n EmptyString) eqn:Hp; [| discriminate]. intros _.
    rewrite contains_unfold. now rewrite (prefix_app n EmptyString b Hp).
  - destruct (prefix n (String c a)) eqn:Hp.
    + intros _. rewrite contains_unfold.
      now rewrite (prefix_app n (String c a) b Hp).
    + intros Ha. cbn [append]. rewrite contains_unfold, (IH Ha).
      now destruct (prefix n (String c (a ++ b))).
Qed.

Lemma contains_glue (n : string) (parts : list string) (part : string) :
  In part parts -> contains n part = true -> contains n (glue parts) = true.
Proof.
  intros Hin Hpart. induction parts as [| p parts IH]; [contradiction |].
  cbn [glue fold_right]. destruct Hin as [-> | Hin].
  - now apply contains_app_l.
  - apply contains_app_r. now apply IH.
Qed.

Ltac find_field :=
  repeat first [ apply contains_here | apply contains_app_r ].

Lemma html_job_embeds (job : JobListing) :
  contains (title job) (html_job job) = true /\
  contains (company job) (html_job job) = true /\
  contains (location job) (html_job job) = true /\
  contains (description job) (html_job job) = true /\
  contains (url job) (html_job job) = true.
Proof. unfold html_job. repeat split; find_field. Qed.

Lemma dict_entry_of_key (d : SourceDict) (k : string) :
  In k (map fst d) -> In (k, dict_get d k) d.
Proof.
  induction d as [| [k0 v0] d IH]; cbn [map fst In dict_get]; [tauto |].
  destruct (k0 =? k)%string eqn:Hk.
  - apply String.eqb_eq in Hk. subst k0. now left.
  - intros [-> | Hin]; [now rewrite String.eqb_refl in Hk | right; now apply IH].
Qed.

Lemma digest_embeds (jobs : list JobListing) (date : string) (job : JobListing)
  (field : string) :
  In job jobs ->
  contains field (html_job job) = true ->
  contains field (_generate_html_content (group_by_source jobs) date) = true.
Proof.
  intros Hin Hfield. rewrite generate_html_text.
  apply contains_app_r, contains_app_l.
  assert (Hkey : In (source job) (map fst (group_by_source jobs))).
  { rewrite group_keys. unfold first_seen. apply first_seen_from_In.
    split; [now apply in_map | intros []]. }
  apply dict_entry_of_key in Hkey.
  apply (contains_glue field _
           (html_section (source job, dict_get (group_by_source jobs) (source job)))).
  { now apply in_map. }
  rewrite html_section_text. apply contains_app_r, contains_app_l.
  apply (contains_glue field _ (html_job_block job)).
  - apply in_map. unfold group_by_source. rewrite group_fold_get. cbn [dict_get app].
    unfold jobs_of_source. apply filter_In. split; [exact Hin |].
    apply String.eqb_refl.
  - unfold html_job_block. now apply contains_app_l.
Qed.

(** X21.  The message [create_email] builds is addressed from and to the
    recipient, and its body carries the title, company, location,
    description and address of every input record as they are: nothing
    scraped is escaped or left out. *)
Theorem create_email_embeds_fields (current_date recipient : string)
  (jobs : list JobListing) (job : JobListing) :
  In job jobs ->
  let message := create_email current_date jobs recipient in
  msg_from message = recipient /\
  msg_to message = recipient /\
  contains (title job) (msg_html message) = true /\
  contains (company job) (msg_html message) = true /\
  contains (location job) (msg_html message) = true /\
  contains (description job) (msg_html message) = true /\
  contains (url job) (msg_html message) = true.
Proof.
  intros Hin message. unfold message, create_email.
  cbn [msg_from msg_to msg_html].
  destruct (html_job_embeds job) as (Ht & Hc & Hl & Hd & Hu).
  repeat split; apply (digest_embeds jobs current_date job); assumption.
Qed.

(* ================================================================= *)
(** ** Delivery *)

Section DeliveryFacts.

Context {tag : Type} {L : Libraries tag} {G : Google}.

Lemma lift_log (lvl : Level) (p : Process tag) :
  lift (log lvl) p = (Done tt, after_event (EvLog lvl) p).
Proof. reflexivity. Qed.

(** What [send_email] does, case by case. *)
Lemma send_email_cases (self : GmailSender) (jobs : list JobListing)
  (recipient : string) (p : Process tag) :
  match service self with
  | None => send_email self jobs recipient p = (Fail NotAuthenticated, p)
  | Some svc =>
      let raw := encode_message (create_email (today p) jobs recipient) in
      match execute_send svc raw with
      | Done _ =>
          send_email self jobs recipient p
          = (Done tt, after_event (EvLog INFO) (delivered svc raw p))
      | Fail e =>
          send_email self jobs recipient p
          = (Fail e, after_event (EvLog ERROR) p)
      end
  end.
Proof.
  unfold send_email. destruct (service self) as [svc |]; [| reflexivity].
  cbv zeta. unfold try_reraise, pbind, strftime_today, send_raw.
  destruct (execute_send svc
              (encode_message (create_email (today p) jobs recipient)));
    reflexivity.
Qed.


(** X23.  With a token file that holds valid credentials, [authenticate]
    builds the service from them and touches nothing: no file is written,
    the credentials file is not looked at, no flow is started. *)
Theorem authenticate_with_valid_token (self : GmailSender) (p : Process tag)
  (c : Credentials) (svc : Service) :
  on_disk (token_file self) p = true ->
  from_authorized_user_file (file_text (files (world p)) (token_file self))
    = Done c ->
  cred_valid c = true ->
  build c = Done svc ->
  authenticate self p =
  (Done (mkGmailSender (credentials_file self) (token_file self) (Some svc)),
   after_event (EvLog INFO) p).
Proof.
  intros Htoken Hparse Hvalid Hbuild. unfold on_disk in Htoken.
  unfold authenticate, pbind, os_path_exists, read_text, google, pret.
  rewrite Htoken, Hparse, Hvalid, Hbuild. reflexivity.
Qed.

(** X24.  Without usable credentials and without a credentials file,
    [authenticate] raises [FileNotFoundError] and leaves the process as it
    was: this is so when there is no token file, and when the token file
    holds credentials that are neither valid nor refreshable. *)
Theorem authenticate_without_credentials_file (self : GmailSender)
  (p : Process tag) :
  on_disk (credentials_file self) p = false ->
  (on_disk (token_file self) p = false \/
   exists c,
     on_disk (token_file self) p = true /\
     from_authorized_user_file (file_text (files (world p)) (token_file self))
       = Done c /\
     cred_valid c = false /\
     cred_expired c && truthy (cred_refresh_token c) = false) ->
  authenticate self p = (Fail FileNotFoundError, p).
Proof.
  unfold on_disk. intros Hsecrets Htoken.
  unfold authenticate, interactive_flow, pbind, os_path_exists, read_text,
    google, pret, pfail.
  destruct Htoken as [Hno | (c & Hyes & Hparse & Hvalid & Hrefresh)].
  - rewrite Hno, Hsecrets. reflexivity.
  - rewrite Hyes, Hparse, Hvalid, Hrefresh, Hsecrets. reflexivity.
Qed.

(** X25.  Expired credentials with a refresh token are refreshed, not
    replaced: [authenticate] overwrites the token file with the refreshed
    credentials and builds the service from them, whether or not a
    credentials file exists. *)
Theorem authenticate_refreshes_token (self : GmailSender) (p : Process tag)
  (c c' : Credentials) (svc : Service) :
  on_disk (token_file self) p = true ->
  from_authorized_user_file (file_text (files (world p)) (token_file self))
    = Done c ->
  cred_valid c = false ->
  cred_expired c = true ->
  truthy (cred_refresh_token c) = true ->
  refresh c = Done c' ->
  writable (world p) (token_file self) = true ->
  build c' = Done svc ->
  exists p',
    authenticate self p =
    (Done (mkGmailSender (credentials_file self) (token_file self) (Some svc)),
     p') /\
    files (world p') = (token_file self, cred_to_json c') :: files (world p) /\
    file_text (files (world p')) (token_file self) = cred_to_json c' /\
    outbox p' = outbox p.
Proof.
  unfold on_disk. intros Htoken Hparse Hvalid Hexp Hrt Hrefresh Hwr Hbuild.
  unfold authenticate, pbind, os_path_exists, read_text, google, pret, lift,
    write_file.
  rewrite Htoken, Hparse, Hvalid, Hexp, Hrt. cbn [andb].
  rewrite Hrefresh. cbn [world]. rewrite Hwr, Hbuild. cbn.
  eexists. split; [reflexivity |]. cbn. rewrite String.eqb_refl. repeat split.
Qed.

(** X26.  The first login: without token file and with a credentials
    file, [authenticate] runs the interactive flow on the credentials file,
    stores the credentials it obtains in a new token file, and builds the
    service from them. *)
Theorem authenticate_first_login (self : GmailSender) (p : Process tag)
  (c' : Credentials) (svc : Service) :
  on_disk (token_file self) p = false ->
  on_disk (credentials_file self) p = true ->
  run_local_server (file_text (files (world p)) (credentials_file self))
    = Done c' ->
  writable (world p) (token_file self) = true ->
  build c' = Done svc ->
  exists p',
    authenticate self p =
    (Done (mkGmailSender (credentials_file self) (token_file self) (Some svc)),
     p') /\
    files (world p') = (token_file self, cred_to_json c') :: files (world p) /\
    on_disk (token_file self) p' = true /\
    outbox p' = outbox p.
Proof.
  unfold on_disk. intros Htoken Hsecrets Hflow Hwr Hbuild.
  unfold authenticate, interactive_flow, pbind, os_path_exists, read_text,
    google, pret, lift, write_file.
  rewrite Htoken, Hsecrets. cbn [negb]. rewrite Hflow. cbn [world].
  rewrite Hwr, Hbuild. cbn.
  eexists. split; [reflexivity |]. cbn. rewrite String.eqb_refl. repeat split.
Qed.

(** What [authenticate] can change, however it ends: the outbox, the
    date and the environment stay, and at most the token file is
    written. *)
Lemma authenticate_frame (self : GmailSender) (p : Process tag) :
  match authenticate self p with
  | (Done self', p') =>
      (exists svc, service self' = Some svc) /\
      today p' = today p /\ outbox p' = outbox p /\
      (files (world p') = files (world p) \/
       exists text,
         files (world p') = (token_file self, text) :: files (world p))
  | (Fail _, p') =>
      today p' = today p /\ outbox p' = outbox p /\
      (files (world p') = files (world p) \/
       exists text,
         files (world p') = (token_file self, text) :: files (world p))
  end.
Proof.
  unfold authenticate, interactive_flow, pbind, os_path_exists, read_text,
    google, pret, pfail, lift, write_file, log, emit.
  repeat match goal with
         | |- context [match ?x with _ => _ end] =>
             lazymatch x with
             | context [match _ with _ => _ end] => fail
             | _ => destruct x eqn:?
             end
         | |- context [if ?x then _ else _] =>
             lazymatch x with
             | context [match _ with _ => _ end] => fail
             | context [if _ then _ else _] => fail
             | _ => destruct x eqn:?
             end
         end;
    cbn [world today outbox files fst snd negb];
    repeat match goal with
           | H : (_, _) = (_, _) |- _ => injection H as <- <-
           end;
    cbn [world today outbox files service];
    try discriminate;
    repeat split; eauto.
Qed.

Lemma print_all_stdout (lines : list string) :
  forall p : Process tag,
    print_all lines p =
    (Done tt,
     mkProcess (world p) (environ_email p) (today p) (stdout p ++ lines)
               (outbox p)).
Proof.
  induction lines as [| line rest IH]; intros p; cbn [print_all].
  - unfold pret. rewrite app_nil_r. now destruct p.
  - unfold pbind, print. rewrite IH.
    cbn [world environ_email today stdout outbox]. now rewrite <- app_assoc.
Qed.

(** X27.  Without an address in [EMAIL_ADDRESS] (unset or empty), [main]
    prints its eight lines of guidance and returns: it makes no request,
    writes no file, logs nothing and sends nothing. *)
Theorem main_without_address (p : Process tag) :
  truthy (environ_email p) = false ->
  main p =
  (Done tt,
   mkProcess (world p) (environ_email p) (today p) (stdout p ++ guidance)
             (outbox p)) /\
  length guidance = 8.
Proof.
  intros Hnone. split; [| reflexivity].
  pose proof (print_all_stdout guidance p) as Hprint.
  unfold main.
  destruct (environ_email p) as [[| c r] |]; cbn [truthy] in Hnone;
    [exact Hprint | discriminate | exact Hprint].
Qed.

(** X28.  With an address set, a [main] that ends normally has sent
    exactly one message: to the address, with the digest of the very records
    the backup file of this run holds, a list that is never empty (the
    branch for an empty result cannot be taken).  A [main] that ends in an
    exception has sent nothing. *)
Theorem main_mails_what_it_saved (p : Process tag) (address : string) :
  environ_email p = Some address ->
  truthy (Some address) = true ->
  match main p with
  | (Done _, p') =>
      exists out text svc,
        out <> [] /\
        In (backup_name (world p), text) (files (world p')) /\
        load_jobs text = Some out /\
        outbox p' =
          (svc, encode_message (create_email (today p) out address))
          :: outbox p
  | (Fail _, p') => outbox p' = outbox p
  end.
Proof.
  intros Henv Htruthy. unfold main. rewrite Henv.
  destruct address as [| c r]; [discriminate |].
  unfold try_reraise. unfold pbind at 1. unfold lift at 1.
  pose proof (run_scraping_cases (OutdoorJobScraper (String c r)) (world p))
    as Hrun.
  destruct (run_scraping (OutdoorJobScraper (String c r)) (world p))
    as [[[out self'] | e] w'].
  - destruct Hrun as (Hne & _ & _ & _ & Hfiles & _).
    destruct out as [| job rest]; [contradiction |]. cbn [fst].
    set (p1 := mkProcess w' (environ_email p) (today p) (stdout p) (outbox p)).
    unfold pbind at 1.
    pose proof (authenticate_frame new_GmailSender p1) as Hauth.
    destruct (authenticate new_GmailSender p1) as [[sender | e] p2].
    + destruct Hauth as ((svc & Hsvc) & Htoday & Hout & Hdisk).
      unfold pbind at 1.
      pose proof (send_email_cases sender (job :: rest) (String c r) p2) as Hsend.
      rewrite Hsvc in Hsend. cbv zeta in Hsend. rewrite Htoday in Hsend.
      cbn [today p1] in Hsend.
      destruct (execute_send svc
                  (encode_message
                     (create_email (today p) (job :: rest) (String c r))))
        as [[] | e]; rewrite Hsend.
      * rewrite lift_log.
        exists (job :: rest), (json_dumps (map asdict (job :: rest))), svc.
        split; [discriminate |].
        cbn [after_event with_world world delivered outbox snd emit files].
        split; [| split; [apply load_jobs_dumps | now rewrite Hout]].
        destruct Hdisk as [-> | [text ->]]; cbn [p1 world]; rewrite Hfiles;
          cbn [In]; tauto.
      * rewrite lift_log. cbn [after_event with_world outbox]. exact Hout.
    + rewrite lift_log. cbn [after_event with_world outbox]. apply Hauth.
  - rewrite lift_log. reflexivity.
Qed.

End DeliveryFacts.

(* ================================================================= *)
(** ** Concrete runs of the further properties *)

Import Html2 Runs.

Example third_time_lucky_fetch :
  fst (make_request "https://www.tampa.gov/careers" 3
         (world_of (scripted (third_time_lucky careers_page))))
  = Return (Some careers_page).
Proof. reflexivity. Qed.

Example mixed_page_records :
  map title (parsed_cards (indeed_job_cards mixed_page))
  = ["Park Naturalist"; "Trail Guide"] /\
  failed_cards (indeed_job_cards mixed_page) = 1.
Proof. split; reflexivity. Qed.

Example escaped_text_of_a_line_break :
  escape (String "a" (String newline (String "b" EmptyString))) = "a\nb".
Proof. reflexivity. Qed.

(** Witness of X1: five timeouts against a limit of five. *)
Lemma make_request_backoff_schedule_on_dead_web :
  exists w',
    make_request "https://www.tampa.gov/careers" 5 (world_of dead_web)
      = (Return None, w') /\
    backoff_waits (trace w') = [1; 2; 4; 8]%Z.
Proof.
  destruct (make_request_backoff_schedule
              "https://www.tampa.gov/careers" 4 (world_of dead_web))
    as (w' & Hrun & _ & Hwaits & _).
  - intros k _. reflexivity.
  - exists w'. split; [exact Hrun | exact Hwaits].
Defined.

(** Witness of X2: two timeouts, then the page. *)
Lemma make_request_succeeds_after_failures_on_script :
  exists w',
    make_request "https://www.tampa.gov/careers" 3
      (world_of (scripted (third_time_lucky careers_page)))
      = (Return (Some careers_page), w') /\
    requests w' = 3 /\
    backoff_waits (trace w') = [1; 2]%Z.
Proof.
  destruct (make_request_succeeds_after_failures
              "https://www.tampa.gov/careers" 3 2
              (mkResponse 200%Z careers_page)
              (world_of (scripted (third_time_lucky careers_page))))
    as (w' & Hrun & Hreq & Hwaits & _).
  - reflexivity.
  - intros [| [| i]] Hi; [reflexivity | reflexivity | lia].
  - reflexivity.
  - reflexivity.
  - exists w'. split; [exact Hrun |]. split; [exact Hreq | exact Hwaits].
Defined.

(** Witness of X4: a timeout, then a crash. *)
Lemma make_request_crash_propagates_on_script :
  exists w',
    make_request "https://www.tampa.gov/careers" 3
      (world_of (scripted timeout_then_crash))
      = (Raise RuntimeError, w') /\
    requests w' = 2.
Proof.
  apply (make_request_crash_propagates
           "https://www.tampa.gov/careers" 3 1 RuntimeError
           (world_of (scripted timeout_then_crash))).
  - reflexivity.
  - intros [| i] Hi; [reflexivity | lia].
  - reflexivity.
  - reflexivity.
Defined.

(** Witness of X5: the four cards of [mixed_page]. *)
Lemma scrape_indeed_isolates_cards_on_mixed_page :
  map title
    (match fst (scrape_indeed (world_of (serve indeed_search_url mixed_page))) with
     | Return out => out
     | Raise _ => []
     end)
  = ["Park Naturalist"; "Trail Guide"].
Proof.
  rewrite (scrape_indeed_isolates_cards (L := node_libraries)
             (world_of (serve indeed_search_url mixed_page))
             (snd (make_request indeed_search_url 3
                     (snd (log INFO (world_of (serve indeed_search_url mixed_page))))))
             mixed_page eq_refl).
  reflexivity.
Defined.

(** Witness of X7: the Indeed page on a dead web. *)
Lemma scrape_indeed_fetch_failure_on_dead_web :
  fst (scrape_indeed (world_of dead_web)) = Return [] /\
  requests (snd (scrape_indeed (world_of dead_web))) = 3.
Proof.
  rewrite (scrape_indeed_fetch_failure (L := node_libraries) (world_of dead_web)
             (fun k _ => eq_refl)).
  split; reflexivity.
Defined.

(** Witness of X8: the Pinellas page on a dead web. *)
Lemma scrape_park_site_fetch_failure_on_dead_web :
  fst (_scrape_pinellas_parks (world_of dead_web)) = Return [] /\
  requests (snd (_scrape_pinellas_parks (world_of dead_web))) = 3.
Proof.
  unfold _scrape_pinellas_parks.
  rewrite (scrape_park_site_fetch_failure (L := node_libraries) pinellas
             (world_of dead_web) (fun k _ => eq_refl)).
  split; reflexivity.
Defined.

(** Witness of X9: on the Tampa page the second anchor cannot be joined;
    the first is kept, the third is never reached. *)
Lemma scrape_park_site_stops_at_first_error_on_tampa_page :
  fst (@scrape_park_site node strict_libraries tampa
         (world_of (serve (site_url tampa) broken_careers_page)))
  = Return [park_job tampa "Recreation Leader" "https://www.tampa.gov/jobs/12"].
Proof.
  rewrite (scrape_park_site_stops_at_first_error (L := strict_libraries) tampa
             (world_of (serve (site_url tampa) broken_careers_page))
             (snd (make_request (site_url tampa) 3
                     (world_of (serve (site_url tampa) broken_careers_page))))
             broken_careers_page bad_link [recreation_link] [park_link]
             ValueError eq_refl eq_refl).
  - reflexivity.
  - intros link [<- | []] _. eexists. reflexivity.
  - reflexivity.
  - reflexivity.
Defined.

(** Witness of X11: a timeout, then a crash, on the Tampa page. *)
Lemma scrape_park_site_swallows_crash_on_script :
  exists w',
    _scrape_tampa_parks (world_of (scripted timeout_then_crash)) = (Return [], w') /\
    requests w' = 2.
Proof.
  destruct (scrape_park_site_swallows_crash (L := node_libraries) tampa 1
              RuntimeError (world_of (scripted timeout_then_crash)))
    as (w' & Hrun & Hreq & _).
  - lia.
  - intros [| i] Hi; [reflexivity | lia].
  - reflexivity.
  - reflexivity.
  - exists w'. split; [exact Hrun | exact Hreq].
Defined.


(** Witness of X15: the same run on a disk that refuses the backup. *)
Lemma run_scraping_write_failure_on_read_only_disk :
  exists w',
    run_scraping (OutdoorJobScraper "user@example.org") read_only_world
      = (Raise OSError, w') /\
    files w' = [].
Proof.
  apply (run_scraping_write_failure (L := node_libraries)
           (OutdoorJobScraper "user@example.org") read_only_world).
  - intros k _ H. cbv in H. discriminate H.
  - reflexivity.
Defined.

(** Witness of X16: the Indeed fetch crashes at its second attempt. *)
Lemma run_scraping_aborted_by_indeed_crash_on_script :
  exists w',
    run_scraping (OutdoorJobScraper "user@example.org")
      (world_of (scripted timeout_then_crash))
      = (Raise RuntimeError, w') /\
    requests w' = 2 /\
    files w' = [].
Proof.
  apply (run_scraping_aborted_by_indeed_crash (L := node_libraries)
           (OutdoorJobScraper "user@example.org") 1 RuntimeError
           (world_of (scripted timeout_then_crash))).
  - lia.
  - intros [| i] Hi; [reflexivity | lia].
  - reflexivity.
  - reflexivity.
Defined.

(** Witness of X18: a location is written as it is. *)
Lemma encode_value_plain_text_of_a_location :
  encode_value (Some "Tampa, FL") = (dq ++ "Tampa, FL" ++ dq)%string /\
  encode_value None = "null".
Proof. apply (encode_value_plain_text "Tampa, FL"). reflexivity. Defined.

(** Witness of X21: the first sample record in the digest of the
    samples. *)
Lemma create_email_embeds_fields_of_a_sample :
  contains "Park Ranger - Entry Level"
    (msg_html (create_email "January 01, 2024" create_sample_jobs
                 "user@example.org")) = true.
Proof.
  destruct (create_email_embeds_fields "January 01, 2024" "user@example.org"
              create_sample_jobs
              (mkJobListing
                 "Park Ranger - Entry Level"
                 "Hillsborough County Parks"
                 "Tampa, FL"
                 "Assist with park maintenance, visitor services, and environmental education programs. Great opportunity for outdoor enthusiasts!"
                 "https://www.hillsboroughcounty.org/jobs"
                 (Some "Recent") None
                 "Hillsborough County Parks")
              (or_introl eq_refl))
    as (_ & _ & Htitle & _).
  exact Htitle.
Defined.

Import Mail.

Example send_without_service_is_refused :
  @send_email node test_google new_GmailSender create_sample_jobs
    "user@example.org" (process_with (Some "user@example.org") [])
  = (Fail NotAuthenticated, process_with (Some "user@example.org") []).
Proof. reflexivity. Qed.

Example refused_send_is_raised_again :
  fst (@send_email node refusing_google
         (mkGmailSender "credentials.json" "token.json"
            (Some (mkService (mkCredentials true false None "valid"))))
         create_sample_jobs "user@example.org"
         (process_with (Some "user@example.org") []))
  = Fail (GoogleError "quota exceeded").
Proof. reflexivity. Qed.

(** Witness of X23: a token file with valid credentials. *)
Lemma authenticate_with_valid_token_on_disk :
  exists p',
    @authenticate node test_google new_GmailSender
      (process_with None [("token.json", "valid")])
    = (Done (mkGmailSender "credentials.json" "token.json"
               (Some (mkService (mkCredentials true false (Some "r1") "valid")))),
       p') /\
    files (world p') = [("token.json", "valid")].
Proof.
  eexists. split.
  - apply (authenticate_with_valid_token (G := test_google) new_GmailSender
             (process_with None [("token.json", "valid")])
             (mkCredentials true false (Some "r1") "valid")
             (mkService (mkCredentials true false (Some "r1") "valid")));
      reflexivity.
  - reflexivity.
Defined.

(** Witness of X24: an empty disk. *)
Lemma authenticate_without_credentials_file_on_empty_disk :
  @authenticate node test_google new_GmailSender (process_with None [])
  = (Fail FileNotFoundError, process_with None []).
Proof.
  apply (authenticate_without_credentials_file (G := test_google)
           new_GmailSender (process_with None [])).
  - reflexivity.
  - left. reflexivity.
Defined.

(** Witness of X25: a token file with expired credentials and no
    credentials file. *)
Lemma authenticate_refreshes_token_on_disk :
  exists p',
    fst (@authenticate node test_google new_GmailSender
           (process_with None [("token.json", "expired")]))
    = Done (mkGmailSender "credentials.json" "token.json"
              (Some (mkService (mkCredentials true false (Some "r1") "valid")))) /\
    snd (@authenticate node test_google new_GmailSender
           (process_with None [("token.json", "expired")])) = p' /\
    files (world p') = [("token.json", "valid"); ("token.json", "expired")].
Proof.
  destruct (authenticate_refreshes_token (G := test_google) new_GmailSender
              (process_with None [("token.json", "expired")])
              (mkCredentials false true (Some "r1") "expired")
              (mkCredentials true false (Some "r1") "valid")
              (mkService (mkCredentials true false (Some "r1") "valid"))
              eq_refl eq_refl eq_refl eq_refl eq_refl eq_refl eq_refl eq_refl)
    as (p' & Hrun & Hfiles & _).
  exists p'. rewrite Hrun. split; [reflexivity |]. split; [reflexivity |].
  exact Hfiles.
Defined.

(** Witness of X26: a credentials file and no token file. *)
Lemma authenticate_first_login_on_disk :
  exists p',
    snd (@authenticate node test_google new_GmailSender
           (process_with None [("credentials.json", "secrets")])) = p' /\
    files (world p') = [("token.json", "valid"); ("credentials.json", "secrets")].
Proof.
  destruct (authenticate_first_login (G := test_google) new_GmailSender
              (process_with None [("credentials.json", "secrets")])
              (mkCredentials true false (Some "r2") "valid")
              (mkService (mkCredentials true false (Some "r2") "valid"))
              eq_refl eq_refl eq_refl eq_refl eq_refl)
    as (p' & Hrun & Hfiles & _).
  exists p'. rewrite Hrun. split; [reflexivity | exact Hfiles].
Defined.

(** Witness of X27: a process without address. *)
Lemma main_without_address_prints_guidance :
  @main node node_libraries test_google (process_with None [])
  = (Done tt,
     mkProcess (world (process_with None [])) None "January 01, 2024"
               guidance []) /\
  length guidance = 8.
Proof.
  apply (main_without_address (L := node_libraries) (G := test_google)
           (process_with None [])).
  reflexivity.
Defined.

(** Witness of X28: an address, a dead web and a valid token. *)
Lemma main_mails_what_it_saved_on_dead_web :
  match @main node node_libraries test_google
          (process_with (Some "user@example.org") [("token.json", "valid")]) with
  | (Done _, p') =>
      exists out text svc,
        out <> [] /\
        In (backup_name
              (world (process_with (Some "user@example.org")
                        [("token.json", "valid")])), text)
           (files (world p')) /\
        load_jobs text = Some out /\
        outbox p' =
          [(svc, @encode_message test_google
                   (create_email "January 01, 2024" out "user@example.org"))]
  | (Fail _, p') => outbox p' = []
  end.
Proof.
  apply (main_mails_what_it_saved (L := node_libraries) (G := test_google)
           (process_with (Some "user@example.org") [("token.json", "valid")])
           "user@example.org"); reflexivity.
Defined.

Example main_on_dead_web_sends_the_samples :
  length (outbox (snd (@main node node_libraries test_google
                         (process_with (Some "user@example.org")
                            [("token.json", "valid")])))) = 1.
Proof. vm_compute. reflexivity. Qed.
